(** * appwrite-ctl: the migration runner and the commands around it

    A shallow embedding of [runMigrations] and [waitForAttributes]
    (lib/runner.ts) and of the [migrations status] action (the CLI entry
    file), with the file system, the remote backend and the loaded
    migration modules made explicit; and, after them, of the naming and
    the template of [migrations create], of [loadConfig] (lib/config.ts),
    of the sanitizer, the column types and the relationships of the
    diagram (lib/diagram.ts), and of the security ledger as
    [getExceptions] (lib/security.ts) and [exceptions add] read and
    change it.

    Conventions.
    - A JavaScript string is a [string] whose characters are the code
      units 0..255.
    - A JavaScript number holding a version ordinal is a [Z]; [None]
      stands for [NaN].  The source holds these numbers as doubles, which
      are the same integers below 2^53 in magnitude; the statements that
      depend on the value or on the order of the ordinals assume every
      ordinal below 2^52 in magnitude ([numbered]), where the ordinals,
      their differences and the next version number are all exact.
    - Asynchronous calls are sequential: every [await] is a bind of the
      monad [M] below. *)

From Stdlib Require Import ZArith Ascii String List Sorted Permutation Lia.
From stdpp Require Import base tactics option list sorting gmap strings.

Local Open Scope string_scope.
Local Open Scope list_scope.
Local Open Scope Z_scope.

(** ** Strings: [startsWith], [substring], [parseInt], the id pattern *)

Module Js.

Definition codeUnit (c : ascii) : N := N_of_ascii c.

(** White space and line terminators among the code units 0..255
    (TAB, LF, VT, FF, CR, SP, NBSP): what [parseInt] strips and what the
    pattern class [\s] accepts. *)
Definition isWhiteSpace (c : ascii) : bool :=
  let n := codeUnit c in
  ((9 <=? n) && (n <=? 13))%N || (n =? 32)%N || (n =? 160)%N.

(** [s.startsWith('v')] *)
Definition startsWith_v (s : string) : bool :=
  match s with
  | String c _ => (codeUnit c =? 118)%N
  | EmptyString => false
  end.

(** [s.substring(1)] *)
Definition substring1 (s : string) : string :=
  match s with
  | String _ r => r
  | EmptyString => EmptyString
  end.

Fixpoint trimStart (s : string) : string :=
  match s with
  | String c r => if isWhiteSpace c then trimStart r else s
  | EmptyString => EmptyString
  end.

(** The value of a digit in the given radix (10 or 16). *)
Definition digitValue (radix : Z) (c : ascii) : option Z :=
  let n := Z.of_N (codeUnit c) in
  let v := if (48 <=? n) && (n <=? 57) then n - 48
           else if (97 <=? n) && (n <=? 122) then n - 97 + 10
           else if (65 <=? n) && (n <=? 90) then n - 65 + 10
           else radix in
  if v <? radix then Some v else None.

(** The longest prefix of digits, read in the radix. *)
Fixpoint parseDigits (radix : Z) (s : string) (acc : Z) : Z :=
  match s with
  | String c r =>
      match digitValue radix c with
      | Some v => parseDigits radix r (acc * radix + v)
      | None => acc
      end
  | EmptyString => acc
  end.

(** [parseInt(s)] with no radix argument: leading white space, an
    optional sign, an optional [0x]/[0X] prefix, then the longest run of
    digits; [NaN] when there is no digit. *)
Definition parseInt (s : string) : option Z :=
  let s1 := trimStart s in
  let '(sign, s2) :=
    match s1 with
    | String c r =>
        if (codeUnit c =? 45)%N then (-1, r)
        else if (codeUnit c =? 43)%N then (1, r)
        else (1, s1)
    | EmptyString => (1, s1)
    end in
  let '(radix, s3) :=
    match s2 with
    | String z (String x r) =>
        if (codeUnit z =? 48)%N && ((codeUnit x =? 120)%N || (codeUnit x =? 88)%N)
        then (16, r) else (10, s2)
    | _ => (10, s2)
    end in
  match s3 with
  | String c _ =>
      match digitValue radix c with
      | Some _ => Some (sign * parseDigits radix s3 0)
      | None => None
      end
  | EmptyString => None
  end.

(** *** The pattern of the status listing

    The pattern is [id:], then [\s*], then a quote, then capture group 1,
    a run of one or more characters that are not quotes, then a quote;
    a quote is the double or the single quote character, and the opening
    and closing quote need not be the same. *)

Definition isQuote (c : ascii) : bool :=
  let n := codeUnit c in (n =? 34)%N || (n =? 39)%N.

Fixpoint skipWhiteSpace (s : string) : string :=
  match s with
  | String c r => if isWhiteSpace c then skipWhiteSpace r else s
  | EmptyString => EmptyString
  end.

(** The greedy run of non-quote characters at the head of [s], and what
    follows it. *)
Fixpoint spanNonQuote (s : string) : string * string :=
  match s with
  | String c r =>
      if isQuote c then (EmptyString, s)
      else let '(run, rest) := spanNonQuote r in (String c run, rest)
  | EmptyString => (EmptyString, EmptyString)
  end.

(** A match of the whole pattern anchored at the head of [s]; the result
    is capture group 1.  The greedy quantifiers need no backtracking
    here: what follows [\s*] and the run of non-quotes must be a quote,
    which neither class contains. *)
Definition matchIdHere (s : string) : option string :=
  match s with
  | String i (String d (String colon r)) =>
      if (codeUnit i =? 105)%N && (codeUnit d =? 100)%N && (codeUnit colon =? 58)%N then
        match skipWhiteSpace r with
        | String q body =>
            if isQuote q then
              match spanNonQuote body with
              | (String c run, String q' _) => Some (String c run)
              | _ => None
              end
            else None
        | EmptyString => None
        end
      else None
  | _ => None
  end.

(** [content.match(pattern)]: the leftmost match, as [Some match[1]], or
    [None] for [null]. *)
Fixpoint matchId (content : string) : option string :=
  match matchIdHere content with
  | Some g => Some g
  | None =>
      match content with
      | String _ r => matchId r
      | EmptyString => None
      end
  end.

(** *** Numbers in template literals *)

(** The decimal digit [d], for [0 <= d < 10], as a character. *)
Definition digitChar (d : Z) : ascii := ascii_of_N (Z.to_N (48 + d)).

(** The decimal digits of [n >= 0] in front of [acc]; the fuel is a
    bound on the number of digits. *)
Fixpoint digitsOf (fuel : nat) (n : Z) (acc : string) : string :=
  match fuel with
  | O => acc
  | S fuel' =>
      let acc' := String (digitChar (n mod 10)) acc in
      if n <? 10 then acc' else digitsOf fuel' (n / 10) acc'
  end.

(** An integer [n] inside a template literal: its decimal digits, after
    a minus sign when it is negative.  (This is what the source prints
    for every integer below 2^53 in magnitude.) *)
Definition numberToString (n : Z) : string :=
  if n <? 0 then String "-" (digitsOf (S (Z.to_nat (Z.log2 (- n)))) (- n) "")
  else digitsOf (S (Z.to_nat (Z.log2 n))) n "".

(** *** [trimEnd] and [trim] *)

Fixpoint trimEnd (s : string) : string :=
  match s with
  | String c r =>
      match trimEnd r with
      | EmptyString => if isWhiteSpace c then EmptyString else String c EmptyString
      | r' => String c r'
      end
  | EmptyString => EmptyString
  end.

Definition trim (s : string) : string := trimEnd (trimStart s).

(** *** Property lookup on plain objects *)

(** The names that every plain object inherits from [Object.prototype];
    none of the inherited values is null or undefined, and none is an
    array or a string. *)
Definition objectPrototypeNames : list string :=
  ["constructor"; "hasOwnProperty"; "isPrototypeOf"; "propertyIsEnumerable";
   "toLocaleString"; "toString"; "valueOf"; "__proto__";
   "__defineGetter__"; "__defineSetter__"; "__lookupGetter__"; "__lookupSetter__"].

Definition isInherited (k : string) : bool :=
  existsb (String.eqb k) objectPrototypeNames.

(** The own property [k] of an object literal given by its entries. *)
Fixpoint ownProperty {V} (k : string) (entries : list (string * V)) : option V :=
  match entries with
  | (k', v) :: rest => if String.eqb k k' then Some v else ownProperty k rest
  | [] => None
  end.

End Js.

(** ** [Array.prototype.sort] with a comparator *)

Section Sort.
Context {A : Type} (cmp : A -> A -> option Z).

(** The sort reads a [NaN] from the comparator as [+0]. *)
Definition sortCompare (a b : A) : Z :=
  match cmp a b with
  | Some v => v
  | None => 0
  end.

(** The sort is stable: an element stays in front of the later
    elements it does not compare greater than.  For a comparator that
    orders the elements consistently this determines the result; when
    the comparator answers [NaN] for some pairs only, the language leaves
    the order to the engine, and this insertion sort is one of the
    possible results. *)
Fixpoint sortInsert (a : A) (l : list A) : list A :=
  match l with
  | [] => [a]
  | b :: l' => if sortCompare a b <=? 0 then a :: b :: l' else b :: sortInsert a l'
  end.

Fixpoint jsSort (l : list A) : list A :=
  match l with
  | [] => []
  | a :: l' => sortInsert a (jsSort l')
  end.
End Sort.

(** ** Discovery of the version directories *)

(** [parseInt(a.substring(1))], as an exact integer: the number of the
    source for every name whose number is below 2^53 in magnitude. *)
Definition ordinal (dir : string) : option Z := Js.parseInt (Js.substring1 dir).

(** The comparator [(a, b) => numA - numB]; [NaN] when either is.  The
    difference is the exact one: the number of the source when both
    ordinals are below 2^52 in magnitude. *)
Definition compareVersions (a b : string) : option Z :=
  match ordinal a, ordinal b with
  | Some numA, Some numB => Some (numA - numB)
  | _, _ => None
  end.

(** ** Data model *)

(** A thrown value, as far as the code looks at it: [e.code] and
    [e.message]. *)
Record Exn := mkExn { code : option Z; message : string }.

(** What calling [migration.up(context)] does: the promise resolves or
    rejects. *)
Inductive UpOutcome :=
| UpResolves
| UpRejects (e : Exn).

(** The default export of a version's script, at run time: [id] may be
    missing ([None]) and [up] may be absent ([None]), whatever the
    declared interface says. *)
Record Migration := mkMigration {
  id : option string;
  up : option UpOutcome
}.

(** The outcome of [jiti.import(file)]: it throws, or gives a module
    whose [default] is undefined ([None]) or an object. *)
Inductive ImportResult :=
| ImportThrows (e : Exn)
| Imported (default : option Migration).

(** An index file: the text [migrations status] reads and the outcome of
    importing it. *)
Record IndexFile := mkIndexFile {
  content : string;
  imported : ImportResult
}.

(** An entry of [tables] that is not null: [$id] and [name] as the code
    prints them and passes them on, and [databaseId] ([None] when the
    field is missing). *)
Record Table := mkTable {
  tableId : string;
  tableName : string;
  databaseId : option string
}.

(** An entry of [tablesDB] that is not null: its [$id], the only field
    the code reads. *)
Record Database := mkDatabase { databaseKey : option string }.

(** A field of the parsed snapshot as [field || []] and [for ... of] see
    it: an array with its entries, [None] for a null entry, or a truthy
    value that cannot be iterated.  A field that is missing or falsy is
    the empty array. *)
Inductive ArrayField (A : Type) :=
| Entries (l : list (option A))
| NotIterable.
Arguments Entries {A} l.
Arguments NotIterable {A}.

(** The snapshot file of a version: text [JSON.parse] rejects, or the
    parsed value: null, or a value with its [tablesDB] and [tables]
    fields. *)
Inductive SnapshotFile :=
| SnapshotUnparsable
| SnapshotNull
| Snapshot (tablesDB : ArrayField Database) (tables : ArrayField Table).

(** An array without null entries. *)
Definition arrayOf {A} (l : list A) : ArrayField A := Entries (Some <$> l).

(** A version directory: [index.ts], [index.js] and the snapshot file,
    each [None] when it does not exist. *)
Record VersionDir := mkVersionDir {
  indexTs : option IndexFile;
  indexJs : option IndexFile;
  snapshotFile : option SnapshotFile
}.

Inductive DirEntry :=
| PlainFile
| Directory (d : VersionDir).

(** [appwrite/migration] under the working directory: whether it exists,
    the names [readdirSync] lists, in its order, and what each name is. *)
Record FileSystem := mkFileSystem {
  migrationsDirExists : bool;
  readdir : list string;
  entries : gmap string DirEntry
}.

Record Attribute := mkAttribute { key : string; status : string }.

Inductive ListAttributesResult :=
| AttributesListed (attributes : list Attribute)
| ListAttributesThrows (e : Exn).

(** The parts of the run that are outside this code: configuration, the
    schema tool and the remote API.  [listAttributes] is indexed by the
    number of calls made before, so its answers may change over time.
    [pushFailureLeaves] is what a push of the version that fails has
    pushed by then: nothing, or a part of the snapshot. *)
Record Backend := mkBackend {
  loadConfigError : option Exn;
  configureClientError : option Exn;
  getAppliedMigrationsError : option Exn;
  pushSnapshotError : string -> option Exn;
  pushFailureLeaves : string -> option SnapshotFile;
  listAttributes : nat -> string -> string -> ListAttributesResult;
  recordMigrationError : string -> option Exn
}.

(** An AppliedRecord, without its timestamp. *)
Record AppliedRecord := mkApplied { appliedId : string; appliedVersion : string }.

(** The remote state: the Applied-Set collection, the schema last pushed
    (by the version it came from), and the number of attribute queries
    served so far. *)
Record Remote := mkRemote {
  documents : list AppliedRecord;
  schema : option (string * SnapshotFile);
  queries : nat
}.

(** What the run does that can be observed: calls to its collaborators
    and console output. *)
Inductive Event :=
| EvConfigure
| EvPush (version : string)
| EvListAttributes (databaseId collectionId : string)
| EvSleep
| EvUp (version : string)
| EvRecord (id version : string)
| LogApplying (version id : string)
| LogAlreadyApplied (version id : string)
| LogApplied (version : string)
| LogStatus (version id : string) (applied : bool)
| LogNoMigrationsDir
| WarnNoIndex (version : string)
| WarnNoSnapshot (version : string)
| WarnNoDatabaseId (collectionId : string)
| WarnTimedOut (collectionId : string)
| WarnServerError (collectionId databaseId : string)
| WarnRetrying (collectionId databaseId : string)
| ErrNoMigrationsDir
| ErrImportFailed (version : string)
| ErrInvalidMigration (version : string)
| ErrPushFailed (version : string)
| ErrSnapshotParse
| ErrScriptFailed (version : string)
| ErrStatusFailed.

#[export] Instance Event_eq_dec : EqDecision Event.
Proof. solve_decision. Defined.

(** ** The monad of the run *)

(** How a computation ends: normally, by a thrown value, by
    [process.exit(code)], or not at all ([Hang], when a loop is cut off
    by its fuel). *)
Inductive Result (A : Type) :=
| Ok (a : A)
| Throw (e : Exn)
| Exit (n : Z)
| Hang.
Arguments Ok {A} a.
Arguments Throw {A} e.
Arguments Exit {A} n.
Arguments Hang {A}.

Definition M (A : Type) : Type := Remote -> Result A * Remote * list Event.

Definition ret {A} (a : A) : M A := fun r => (Ok a, r, []).

Definition bind {A B} (m : M A) (k : A -> M B) : M B :=
  fun r =>
    match m r with
    | (Ok a, r1, t1) => let '(res, r2, t2) := k a r1 in (res, r2, t1 ++ t2)
    | (Throw e, r1, t1) => (Throw e, r1, t1)
    | (Exit n, r1, t1) => (Exit n, r1, t1)
    | (Hang, r1, t1) => (Hang, r1, t1)
    end.

#[export] Instance M_ret : MRet M := @ret.
#[export] Instance M_bind : MBind M := fun A B k m => bind m k.

Definition getRemote : M Remote := fun r => (Ok r, r, []).
Definition putRemote (r' : Remote) : M unit := fun _ => (Ok tt, r', []).
Definition emit (e : Event) : M unit := fun r => (Ok tt, r, [e]).
Definition throw {A} (e : Exn) : M A := fun r => (Throw e, r, []).
Definition processExit {A} (n : Z) : M A := fun r => (Exit n, r, []).
Definition hang {A} : M A := fun r => (Hang, r, []).

(** [try { m } catch (e) { handler e }]: only a thrown value is caught. *)
Definition tryCatch {A} (m : M A) (handler : Exn -> M A) : M A :=
  fun r =>
    match m r with
    | (Throw e, r1, t1) => let '(res, r2, t2) := handler e r1 in (res, r2, t1 ++ t2)
    | other => other
    end.

(** A call that fails with the given error, if any; no effect otherwise. *)
Definition failing (err : option Exn) : M unit :=
  match err with
  | Some e => throw e
  | None => ret tt
  end.

(** [for (const x of l) body(x)] *)
Fixpoint forEach {A} (body : A -> M unit) (l : list A) : M unit :=
  match l with
  | [] => ret tt
  | x :: l' => _ ← body x; forEach body l'
  end.

(** A [TypeError] of the engine, as reading a property of null or
    iterating a value that is not iterable throws it. *)
Definition typeError : Exn := mkExn None "TypeError".

Definition outcome {A} (x : Result A * Remote * list Event) : Result A := x.1.1.
Definition final {A} (x : Result A * Remote * list Event) : Remote := x.1.2.
Definition trace {A} (x : Result A * Remote * list Event) : list Event := x.2.

(** ** Collaborators: configuration, schema tool, tracker, SDK *)

(** One more attribute query has been served. *)
Definition tick (r : Remote) : Remote :=
  mkRemote (documents r) (schema r) (S (queries r)).

(** The remote state after a successful push of the snapshot of a
    version, and after a successful record of a migration. *)
Definition pushed (version : string) (snap : SnapshotFile) (r : Remote) : Remote :=
  mkRemote (documents r) (Some (version, snap)) (queries r).
Definition recorded (id version : string) (r : Remote) : Remote :=
  mkRemote (documents r ++ [mkApplied id version]) (schema r) (queries r).

Section Collaborators.
Variable be : Backend.

(** [loadConfig] of lib/config.ts, reduced to whether it throws (a
    required variable is missing, or the endpoint is not an http or
    https URL); the configuration itself plays no part in what follows. *)
Definition loadConfig : M unit := failing (loadConfigError be).

(** Modelled from the spec: [configureClient] of lib/cli.ts, the
    schema tool's [configure(credentials)], issued once per run. *)
Definition configureClient : M unit :=
  _ ← emit EvConfigure; failing (configureClientError be).

(** Modelled from the spec: [getAppliedMigrations] of lib/appwrite.ts,
    the tracker's [loadAppliedIds]: it returns every previously
    recorded migration id, and changes nothing. *)
Definition getAppliedMigrations : M (list string) :=
  _ ← failing (getAppliedMigrationsError be);
  r ← getRemote;
  ret (appliedId <$> documents r).

(** Modelled from the spec: [recordMigration] of lib/appwrite.ts, the
    tracker's [recordApplied]: it creates one AppliedRecord, unless the
    write fails. *)
Definition recordMigration (id version : string) : M unit :=
  _ ← emit (EvRecord id version);
  _ ← failing (recordMigrationError be id);
  r ← getRemote;
  putRemote (recorded id version r).

(** Modelled from the spec: [pushSnapshot] of lib/cli.ts, the schema
    tool's [push(snapshotRef)]: success makes the snapshot the remote
    schema; failure throws, and may leave a part of the snapshot
    pushed. *)
Definition pushSnapshot (version : string) (snap : SnapshotFile) : M unit :=
  _ ← emit (EvPush version);
  r ← getRemote;
  match pushSnapshotError be version with
  | None => putRemote (pushed version snap r)
  | Some e =>
      _ ← putRemote (match pushFailureLeaves be version with
                     | Some part => pushed version part r
                     | None => r
                     end);
      throw e
  end.

(** [databases.listAttributes(databaseId, collectionId)] of the SDK. *)
Definition callListAttributes (databaseId collectionId : string) : M (list Attribute) :=
  _ ← emit (EvListAttributes databaseId collectionId);
  r ← getRemote;
  _ ← putRemote (tick r);
  match listAttributes be (queries r) databaseId collectionId with
  | AttributesListed l => ret l
  | ListAttributesThrows e => throw e
  end.
End Collaborators.

(** ** [waitForAttributes] *)

Definition MAX_ATTEMPTS : nat := 60.
Arguments MAX_ATTEMPTS : simpl never.

Definition isAvailable (attr : Attribute) : bool := String.eqb (status attr) "available".

(** A field that is missing or the empty string is falsy. *)
Definition truthy (field : option string) : option string :=
  match field with
  | Some s => if String.eqb s "" then None else Some s
  | None => None
  end.

Section WaitForAttributes.
Variable be : Backend.

(** One pass of the [try]/[catch] in the loop body; the result is the
    new value of [allAvailable]. *)
Definition pollOnce (databaseId collectionId : string) : M bool :=
  tryCatch
    (attributes ← callListAttributes be databaseId collectionId;
     let pending := List.filter (fun attr => negb (isAvailable attr)) attributes in
     if (length pending =? 0)%nat then ret true
     else _ ← emit EvSleep; ret false)
    (fun e =>
       if bool_decide (code e = Some 500) then
         _ ← emit (WarnServerError collectionId databaseId); ret true
       else
         _ ← emit (WarnRetrying collectionId databaseId);
         _ ← emit EvSleep; ret false).

(** [while (!allAvailable) { ... }], entered with [allAvailable] false;
    [fuel] bounds the number of times the loop head is reached. *)
Fixpoint pollLoop (fuel : nat) (attempts : nat) (databaseId collectionId : string)
  : M unit :=
  match fuel with
  | O => hang
  | S fuel' =>
      if (MAX_ATTEMPTS <=? attempts)%nat then emit (WarnTimedOut collectionId)
      else
        let attempts := S attempts in
        allAvailable ← pollOnce databaseId collectionId;
        if allAvailable : bool then ret tt
        else pollLoop fuel' attempts databaseId collectionId
  end.

(** The body of [for (const table of tables)], for an entry that is
    not null. *)
Definition pollTable (table : Table) : M unit :=
  match truthy (databaseId table) with
  | None => emit (WarnNoDatabaseId (tableId table))
  | Some databaseId => pollLoop (S MAX_ATTEMPTS) 0 databaseId (tableId table)
  end.

(** The body of [for (const table of tables)]: [table.$id] throws on a
    null entry. *)
Definition pollEntry (table : option Table) : M unit :=
  match table with
  | Some table => pollTable table
  | None => throw typeError
  end.

(** The body of [for (const db of tablesDB)]: [db.$id] throws on a null
    entry; the map that is filled is never read. *)
Definition registerDatabase (db : option Database) : M unit :=
  match db with
  | Some _ => ret tt
  | None => throw typeError
  end.

(** [for (const x of field) body(x)] *)
Definition forOf {A} (body : option A -> M unit) (field : ArrayField A) : M unit :=
  match field with
  | Entries l => forEach body l
  | NotIterable => throw typeError
  end.

(** [snap] is what is at [snapshotPath]; reading a file that is not
    there throws inside the same [try] as a failed parse.  What follows
    the [try] is not guarded: [schema.tables] throws on null, and the
    two loops throw on a value that cannot be iterated and on a null
    entry. *)
Definition waitForAttributes (snap : option SnapshotFile) : M unit :=
  match snap with
  | None | Some SnapshotUnparsable => emit ErrSnapshotParse
  | Some SnapshotNull => throw typeError
  | Some (Snapshot tablesDB tables) =>
      _ ← forOf registerDatabase tablesDB;
      forOf pollEntry tables
  end.
End WaitForAttributes.

(** ** [runMigrations] *)

(** [fs.statSync(path).isDirectory()] for a listed name.  Every listed
    name of the file systems here is a plain file or a directory, which
    [statSync] answers for; a name that cannot be followed, on which it
    throws, is not among them. *)
Definition isDirectory (fs : FileSystem) (dir : string) : bool :=
  match entries fs !! dir with
  | Some (Directory _) => true
  | _ => false
  end.

Definition versionDir (fs : FileSystem) (version : string) : VersionDir :=
  match entries fs !! version with
  | Some (Directory d) => d
  | _ => mkVersionDir None None None
  end.

(** The names that pass the filter of the discovery step, in the order
    of the listing. *)
Definition listedVersions (fs : FileSystem) : list string :=
  List.filter (fun dir => Js.startsWith_v dir && isDirectory fs dir) (readdir fs).

(** The filter and the sort that both [run] and [status] apply to the
    listing. *)
Definition versionDirs (fs : FileSystem) : list string :=
  jsSort compareVersions (listedVersions fs).

(** [index.ts] if it exists, else [index.js] if it exists, else null. *)
Definition validIndexFile (d : VersionDir) : option IndexFile :=
  match indexTs d with
  | Some f => Some f
  | None => indexJs d
  end.

Section Runner.
Variables (fs : FileSystem) (be : Backend).

(** 3. Schema sync via CLI push. *)
Definition schemaSync (version : string) : M unit :=
  match snapshotFile (versionDir fs version) with
  | Some snap =>
      tryCatch (pushSnapshot be version snap)
               (fun _ => _ ← emit (ErrPushFailed version); processExit 1)
  | None => emit (WarnNoSnapshot version)
  end.

(** 5. Attribute polling. *)
Definition attributePolling (version : string) : M unit :=
  match snapshotFile (versionDir fs version) with
  | Some snap => waitForAttributes be (Some snap)
  | None => ret tt
  end.

(** 6. Data execution. *)
Definition execution (version : string) (migration : Migration) : M unit :=
  match up migration with
  | Some run =>
      tryCatch (_ ← emit (EvUp version);
                match run with
                | UpResolves => ret tt
                | UpRejects e => throw e
                end)
               (fun _ => _ ← emit (ErrScriptFailed version); processExit 1)
  | None => ret tt
  end.

(** 7. Finalization. *)
Definition finalization (version : string) (migrationId : string) : M unit :=
  _ ← recordMigration be migrationId version;
  emit (LogApplied version).

(** Steps 3 to 7 for a migration that is to be applied. *)
Definition applyVersion (version : string) (migrationId : string)
    (migration : Migration) : M unit :=
  _ ← emit (LogApplying version migrationId);
  _ ← schemaSync version;
  _ ← attributePolling version;
  _ ← execution version migration;
  finalization version migrationId.

(** The body of [for (const version of versionDirs)]; [continue] is a
    normal return. *)
Definition processVersion (appliedSet : gset string) (version : string) : M unit :=
  let invalid : M unit := _ ← emit (ErrInvalidMigration version); processExit 1 in
  match validIndexFile (versionDir fs version) with
  | None => emit (WarnNoIndex version)
  | Some file =>
      match imported file with
      | ImportThrows _ => _ ← emit (ErrImportFailed version); processExit 1
      | Imported None => invalid
      | Imported (Some migration) =>
          match truthy (id migration) with
          | None => invalid
          | Some migrationId =>
              if bool_decide (migrationId ∈ appliedSet) then
                emit (LogAlreadyApplied version migrationId)
              else applyVersion version migrationId migration
          end
      end
  end.

Definition runMigrations : M unit :=
  _ ← loadConfig be;
  _ ← configureClient be;
  if negb (migrationsDirExists fs) then
    _ ← emit ErrNoMigrationsDir; processExit 1
  else
    appliedMigrationIds ← getAppliedMigrations be;
    let appliedSet : gset string := list_to_set appliedMigrationIds in
    forEach (processVersion appliedSet) (versionDirs fs).

(** The action of [migrations run]: a throw out of [runMigrations]
    ends the process with status 1. *)
Definition runCommand : M unit :=
  tryCatch runMigrations (fun _ => processExit 1).
End Runner.

(** ** The action of [migrations status] *)

Section Status.
Variables (fs : FileSystem) (be : Backend).

(** The id shown for a version: capture group 1 of the pattern in the
    text of [index.ts], or the word unknown. *)
Definition statusId (version : string) : string :=
  match indexTs (versionDir fs version) with
  | Some file =>
      match Js.matchId (content file) with
      | Some g => g
      | None => "unknown"
      end
  | None => "unknown"
  end.

(** The body of the listing loop: one line per version, [true] for
    APPLIED and [false] for PENDING. *)
Definition statusLine (appliedSet : gset string) (version : string) : M unit :=
  let id := statusId version in
  emit (LogStatus version id (bool_decide (id ∈ appliedSet))).

Definition statusCommand : M unit :=
  tryCatch
    (_ ← loadConfig be;
     appliedIds ← getAppliedMigrations be;
     let appliedSet : gset string := list_to_set appliedIds in
     if negb (migrationsDirExists fs) then emit LogNoMigrationsDir
     else forEach (statusLine appliedSet) (versionDirs fs))
    (fun _ => _ ← emit ErrStatusFailed; processExit 1).
End Status.

(** ** The action of [migrations create] *)

Module Create.

(** The comparator [(a, b) => a - b] on numbers; [None] is [NaN]. *)
Definition compareNumbers (a b : option Z) : option Z :=
  match a, b with
  | Some x, Some y => Some (x - y)
  | _, _ => None
  end.

(** The ordinals of the version directories, sorted.  The action makes
    the migrations directory when it is missing, and then lists an empty
    directory. *)
Definition versionDirs (fs : FileSystem) : list (option Z) :=
  if migrationsDirExists fs
  then jsSort compareNumbers (ordinal <$> listedVersions fs)
  else [].

(** One more than the last of the sorted ordinals, or 1 when there is
    none; [None] is [NaN].  The sum is the exact one: the number of the
    source when the last ordinal is below 2^53 - 1 in magnitude. *)
Definition nextVersion (fs : FileSystem) : option Z :=
  match last (versionDirs fs) with
  | Some (Some n) => Some (n + 1)
  | Some None => None
  | None => Some 1
  end.

(** The text of a number in a template literal. *)
Definition numberText (n : option Z) : string :=
  match n with
  | Some z => Js.numberToString z
  | None => "NaN"
  end.

(** The name of the new directory, and the [name] of the template. *)
Definition versionName (n : option Z) : string := String "v" (numberText n).
Definition name (n : option Z) : string := ("migration_v" ++ numberText n)%string.

Definition dq : string := String "034" EmptyString.
Definition nl : string := String "010" EmptyString.

(** The template of [index.ts]: what precedes the [id] line, and what
    follows the id. *)
Definition header : string :=
  ("import { Migration } from " ++ dq ++ "appwrite-ctl" ++ dq ++ ";" ++ nl
   ++ nl
   ++ "const migration: Migration = {" ++ nl)%string.

Definition footer (name : string) : string :=
  ("," ++ nl
   ++ "  description: " ++ dq ++ name ++ dq ++ "," ++ nl
   ++ "  up: async ({ client, databases, log, error }) => {" ++ nl
   ++ "    log(" ++ dq ++ "Executing up migration for " ++ name ++ dq ++ ");" ++ nl
   ++ "    // Write your migration logic here" ++ nl
   ++ "  }," ++ nl
   ++ "  down: async ({ client, databases, log, error }) => {" ++ nl
   ++ "    log(" ++ dq ++ "Executing down migration for " ++ name ++ dq ++ ");" ++ nl
   ++ "  }" ++ nl
   ++ "};" ++ nl
   ++ nl
   ++ "export default migration;" ++ nl)%string.

(** [indexContent], with the result of [uuidv4()] as [uuid]. *)
Definition indexContent (uuid name : string) : string :=
  (header ++ "  id: " ++ dq ++ uuid ++ dq ++ footer name)%string.

End Create.
(** ** [loadConfig] (lib/config.ts) *)

Module Config.

(** [process.env] once [dotenv.config] has run: the three variables the
    function reads, [None] when a variable is not set. *)
Record Env := mkEnv {
  APPWRITE_ENDPOINT : option string;
  APPWRITE_PROJECT_ID : option string;
  APPWRITE_API_KEY : option string
}.

(** The values of [JSON.parse] (numbers: the integers).  The fields of
    an object are its properties, each key once. *)
#[warnings="-register-all"] Inductive Json :=
| JNull
| JBool (b : bool)
| JNumber (n : Z)
| JString (s : string)
| JArray (items : list Json)
| JObject (fields : list (string * Json)).

(** [appwrite/appwrite-ctl.config.json]: missing, or text that cannot be
    read as JSON, or what [JSON.parse] makes of it. *)
Inductive ConfigFile :=
| Missing
| Unparsable
| Parsed (v : Json).

Record AppConfig := mkAppConfig {
  endpoint : string;
  projectId : string;
  apiKey : string;
  migrationCollectionId : Json;
  database : Json
}.

(** What a call of [loadConfig] does: it throws, or it returns a
    configuration, having written the warning about the config file or
    not. *)
Inductive Loaded :=
| Thrown (e : Exn)
| Returned (config : AppConfig) (warned : bool).

(** [process.env.X?.trim()] *)
Definition readVariable (x : option string) : option string := Js.trim <$> x.

(** The truth value of a string that may be undefined. *)
Definition present (x : option string) : option string :=
  match x with
  | Some (String c r) => Some (String c r)
  | _ => None
  end.

(** [v[k]] for one of the keys [collection], [database], [databaseId]:
    [None] is the [TypeError] on null, [Some None] is undefined. *)
Fixpoint lookupField (k : string) (fields : list (string * Json)) : option Json :=
  match fields with
  | (k', v) :: rest => if String.eqb k k' then Some v else lookupField k rest
  | [] => None
  end.

Definition get (v : Json) (k : string) : option (option Json) :=
  match v with
  | JNull => None
  | JObject fields => Some (lookupField k fields)
  | _ => Some None
  end.

(** The truthy values. *)
Definition truthy (v : option Json) : option Json :=
  match v with
  | None | Some JNull | Some (JBool false) | Some (JNumber 0) | Some (JString "") => None
  | Some v => Some v
  end.

Definition missingVariables : string :=
  "Missing required environment variables: APPWRITE_ENDPOINT, APPWRITE_PROJECT_ID, APPWRITE_API_KEY".

Definition protocolMessage : string :=
  "APPWRITE_ENDPOINT must use http or https protocol.".

Definition invalidUrl (endpoint : string) : string :=
  ("APPWRITE_ENDPOINT is not a valid URL: " ++ String "034" endpoint
   ++ String "034" EmptyString)%string.

Section LoadConfig.
(** [new URL(s).protocol], or [None] when the constructor throws. *)
Variable protocol : string -> option string.

(** The body of the [try] around the URL check. *)
Definition checkProtocol (endpoint : string) : option Exn :=
  match protocol endpoint with
  | None => Some (mkExn None "Invalid URL")
  | Some p =>
      if negb (String.eqb p "http:") && negb (String.eqb p "https:")
      then Some (mkExn None protocolMessage)
      else None
  end.

(** The [try] with its [catch], which takes no parameter. *)
Definition validateEndpoint (endpoint : string) : option Exn :=
  match checkProtocol endpoint with
  | Some _ => Some (mkExn None (invalidUrl endpoint))
  | None => None
  end.

(** The body of the [try] around the config file, on the parsed value:
    the two variables as the body leaves them, and whether it threw. *)
Definition readFields (v : Json) : Json * Json * bool :=
  let migrationCollectionId := JString "migrations" in
  let database := JString "system" in
  match get v "collection" with
  | None => (migrationCollectionId, database, true)
  | Some collection =>
      let migrationCollectionId :=
        match truthy collection with
        | Some c => c
        | None => migrationCollectionId
        end in
      match get v "database" with
      | None => (migrationCollectionId, database, true)
      | Some d =>
          match truthy d with
          | Some d => (migrationCollectionId, d, false)
          | None =>
              match get v "databaseId" with
              | None => (migrationCollectionId, database, true)
              | Some legacy =>
                  match truthy legacy with
                  | Some d => (migrationCollectionId, d, false)
                  | None => (migrationCollectionId, database, false)
                  end
              end
          end
      end
  end.

Definition readConfigFile (file : ConfigFile) : Json * Json * bool :=
  match file with
  | Missing => (JString "migrations", JString "system", false)
  | Unparsable => (JString "migrations", JString "system", true)
  | Parsed v => readFields v
  end.

Definition loadConfig (env : Env) (file : ConfigFile) : Loaded :=
  let endpoint := readVariable (APPWRITE_ENDPOINT env) in
  let projectId := readVariable (APPWRITE_PROJECT_ID env) in
  let apiKey := readVariable (APPWRITE_API_KEY env) in
  match present endpoint, present projectId, present apiKey with
  | Some endpoint, Some projectId, Some apiKey =>
      match validateEndpoint endpoint with
      | Some e => Thrown e
      | None =>
          let '(migrationCollectionId, database, warned) := readConfigFile file in
          Returned (mkAppConfig endpoint projectId apiKey migrationCollectionId database)
                   warned
      end
  | _, _, _ => Thrown (mkExn None missingVariables)
  end.
End LoadConfig.

End Config.
(** ** The Mermaid diagram (lib/diagram.ts) *)

Module Diagram.

Record Column := mkColumn {
  key : string;
  type : string;
  format : option string;
  required : bool;
  relatedTable : option string;
  relationType : option string;
  side : option string
}.

Record Table := mkTable {
  name : string;
  columns : list Column
}.

Definition MERMAID_CARDINALITY : list (string * string) :=
  [("oneToOne", "||--||"); ("oneToMany", "||--o{");
   ("manyToOne", "}o--||"); ("manyToMany", "}o--o{")].

Definition isNewline (c : ascii) : bool :=
  let n := Js.codeUnit c in (n =? 13)%N || (n =? 10)%N.

Definition isBrace (c : ascii) : bool :=
  let n := Js.codeUnit c in (n =? 123)%N || (n =? 125)%N.

(** [replace(/[\r\n]+/g, ' ')]: every maximal run of line breaks becomes
    one space; [inRun] tells that the character before was a line
    break. *)
Fixpoint replaceNewlines (inRun : bool) (s : string) : string :=
  match s with
  | String c r =>
      if isNewline c
      then if inRun then replaceNewlines true r
           else String " " (replaceNewlines true r)
      else String c (replaceNewlines false r)
  | EmptyString => EmptyString
  end.

(** [replace(/[{}]/g, '')] *)
Fixpoint removeBraces (s : string) : string :=
  match s with
  | String c r => if isBrace c then removeBraces r else String c (removeBraces r)
  | EmptyString => EmptyString
  end.

(** [replace(/x/g, y)] for characters [x] and [y]. *)
Fixpoint replaceChar (x y : ascii) (s : string) : string :=
  match s with
  | String c r => String (if Ascii.eqb c x then y else c) (replaceChar x y r)
  | EmptyString => EmptyString
  end.

Definition sanitizeMermaid (value : string) : string :=
  replaceChar "`" "'" (replaceChar "034" "'" (removeBraces (replaceNewlines false value))).

Section Diagram.
(** The text that a template literal gives for the value inherited
    under a name of [Js.objectPrototypeNames]. *)
Variable inheritedText : string -> string.

(** [object[k]] as a template literal prints it, for an object literal
    with the given entries; [None] is undefined. *)
Definition lookupText (entries : list (string * string)) (k : string) : option string :=
  match Js.ownProperty k entries with
  | Some v => Some v
  | None => if Js.isInherited k then Some (inheritedText k) else None
  end.

(** [mapColumnType], as the text that its callers put into a line. *)
Definition mapColumnType (col : Column) : string :=
  if String.eqb (type col) "string" && bool_decide (format col = Some "enum") then "enum"
  else if String.eqb (type col) "relationship" then "relationship"
  else
    let safeTypes := [("text", "longtext"); ("point", "geopoint");
                      ("polygon", "geopolygon")] in
    match lookupText safeTypes (type col) with
    | Some t => t
    | None => type col
    end.

(** [[a, b].sort().join(':')]: the default order of [sort] is the order
    of the code units. *)
Definition pairKey (a b : string) : string :=
  if String.ltb b a then (b ++ ":" ++ a)%string else (a ++ ":" ++ b)%string.

(** The three variables of [buildErDiagram]. *)
Record Building := mkBuilding {
  lines : list string;
  relationships : list string;
  renderedPairs : gset string
}.

Definition pushLine (line : string) (st : Building) : Building :=
  mkBuilding (lines st ++ [line]) (relationships st) (renderedPairs st).

(** A string that may be undefined, as a condition. *)
Definition nonEmpty (x : option string) : option string :=
  match x with
  | Some (String c r) => Some (String c r)
  | _ => None
  end.

(** The body of the loop over the columns of a table. *)
Definition addColumn (entityName : string) (st : Building) (col : Column) : Building :=
  if String.eqb (type col) "relationship" then
    match bool_decide (side col = Some "parent"), nonEmpty (relatedTable col) with
    | true, Some related =>
        let relatedName := sanitizeMermaid related in
        let pairKey := pairKey entityName relatedName in
        if bool_decide (pairKey ∈ renderedPairs st) then st
        else
          let cardinality :=
            match lookupText MERMAID_CARDINALITY
                             (default "oneToMany" (relationType col)) with
            | Some c => c
            | None => "||--||"
            end in
          let label := (String "034" (sanitizeMermaid (key col))
                        ++ String "034" EmptyString)%string in
          mkBuilding (lines st)
                     (relationships st
                      ++ [("    " ++ entityName ++ " " ++ cardinality ++ " "
                           ++ relatedName ++ " : " ++ label)%string])
                     ({[pairKey]} ∪ renderedPairs st)
    | _, _ => st
    end
  else
    let type := mapColumnType col in
    let colKey := sanitizeMermaid (key col) in
    let comment := if required col
                   then (String "034" "NOT NULL" ++ String "034" EmptyString)%string
                   else EmptyString in
    pushLine (Js.trimEnd ("        " ++ type ++ " " ++ colKey ++ " " ++ comment)%string) st.

(** The body of the loop over the tables. *)
Definition addTable (st : Building) (table : Table) : Building :=
  let entityName := sanitizeMermaid (name table) in
  let st := pushLine ("    " ++ entityName ++ " {")%string st in
  let st := pushLine "        string id PK" st in
  let st := fold_left (addColumn entityName) (columns table) st in
  pushLine "    }" st.

(** The state after the loop over the tables. *)
Definition built (tables : list Table) : Building :=
  fold_left addTable tables (mkBuilding ["```mermaid"; "erDiagram"] [] ∅).

Definition buildErDiagram (tables : list Table) : string :=
  let st := built tables in
  let lines :=
    match relationships st with
    | [] => lines st
    | _ :: _ => lines st ++ [EmptyString] ++ relationships st
    end in
  String.concat (String "010" EmptyString) (lines ++ ["```"]).
End Diagram.

End Diagram.
(** ** The security ledger (lib/security.ts) and the action of
    [exceptions add] *)

Module Security.

Record SecurityException := mkSecurityException {
  rule : string;
  justification : string;
  author : string;
  date : string
}.

Inductive SecurityRuleSeverity := error | warn | off.

Record SecurityRule := mkSecurityRule {
  enabled : bool;
  severity : SecurityRuleSeverity
}.

(** [Record<string, T>]: the own properties of a plain object. *)
Abbreviation SecurityExceptions := (gmap string (list SecurityException)).
Abbreviation SecurityRules := (gmap string SecurityRule).

(** A ledger of the declared type; an optional field is [None] when it
    is missing. *)
Record SecurityLedger := mkSecurityLedger {
  rules : option SecurityRules;
  collections : option SecurityExceptions;
  buckets : option SecurityExceptions
}.

Definition DEFAULT_RULES : SecurityRules :=
  <["require-row-security" := mkSecurityRule true error]>
  (<["forbid-role-all-write" := mkSecurityRule true error]>
   (<["forbid-role-all-delete" := mkSecurityRule true error]>
    (<["forbid-role-all-read" := mkSecurityRule true warn]>
     (<["forbid-role-all-create" := mkSecurityRule true warn]>
      (<["require-file-security" := mkSecurityRule true warn]> ∅))))).

(** The two values of the parameter [type]. *)
Inductive ExceptionsKey := Collections | Buckets.

#[global] Instance ExceptionsKey_eq_dec : EqDecision ExceptionsKey.
Proof. solve_decision. Defined.

(** [ledger.exceptions[type]] *)
Definition exceptionsOf (ledger : SecurityLedger) (type : ExceptionsKey)
    : option SecurityExceptions :=
  match type with
  | Collections => collections ledger
  | Buckets => buckets ledger
  end.

(** [ledger.exceptions[type] = value] *)
Definition setExceptions (ledger : SecurityLedger) (type : ExceptionsKey)
    (value : SecurityExceptions) : SecurityLedger :=
  match type with
  | Collections => mkSecurityLedger (rules ledger) (Some value) (buckets ledger)
  | Buckets => mkSecurityLedger (rules ledger) (collections ledger) (Some value)
  end.

(** [object[k]] on a plain object: an own property, or a value inherited
    from [Object.prototype], or undefined. *)
Inductive Property (V : Type) :=
| Own (v : V)
| Inherited
| Undefined.
Arguments Own {V} v.
Arguments Inherited {V}.
Arguments Undefined {V}.

Definition property {V} (object : gmap string V) (k : string) : Property V :=
  match object !! k with
  | Some v => Own v
  | None => if Js.isInherited k then Inherited else Undefined
  end.

(** [getExceptions]: the list, or [None] when the expression gives an
    inherited value, which is not a list. *)
Definition getExceptions (ledger : SecurityLedger) (type : ExceptionsKey) (id : string)
    : option (list SecurityException) :=
  match exceptionsOf ledger type with
  | None => Some []
  | Some object =>
      match property object id with
      | Own l => Some l
      | Inherited => None
      | Undefined => Some []
      end
  end.

(** The answers of the prompt of [exceptions add]. *)
Inductive ResourceType := Collection | Bucket.

Record Answers := mkAnswers {
  resourceType : ResourceType;
  resourceId : string;
  answeredRule : string;
  answeredJustification : string
}.

(** [answers.resourceType === 'Collection' ? 'collections' : 'buckets'] *)
Definition exceptionsKey (t : ResourceType) : ExceptionsKey :=
  match t with
  | Collection => Collections
  | Bucket => Buckets
  end.

(** What the action does to the ledger between the prompt and the call
    of [saveSecurityLedger]: the ledger it saves, or [None] when [push]
    is called on an inherited value and throws. *)
Definition addException (ledger : SecurityLedger) (answers : Answers)
    (author today : string) : option SecurityLedger :=
  let type := exceptionsKey (resourceType answers) in
  let bucket := default ∅ (exceptionsOf ledger type) in
  let entry := mkSecurityException (Js.trim (answeredRule answers))
                                   (Js.trim (answeredJustification answers))
                                   author today in
  match property bucket (resourceId answers) with
  | Own l => Some (setExceptions ledger type (<[resourceId answers := l ++ [entry]]> bucket))
  | Undefined => Some (setExceptions ledger type (<[resourceId answers := [entry]]> bucket))
  | Inherited => None
  end.

End Security.

(** * Vocabulary of the statements *)

(** ** The order of the run *)

(** Ascending and strictly ascending ordinals, for names that have one. *)
Definition ordinalLe (a b : string) : Prop :=
  ∃ x y, ordinal a = Some x ∧ ordinal b = Some y ∧ x <= y.
Definition ordinalLt (a b : string) : Prop :=
  ∃ x y, ordinal a = Some x ∧ ordinal b = Some y ∧ x < y.

(** Every version directory carries a number below 2^52 in magnitude:
    the ordinals, their differences in the comparator and the successor
    of the greatest are then integers that a JavaScript number holds
    exactly, and the comparator never gives [NaN]. *)
Definition numbered (fs : FileSystem) : Prop :=
  Forall (fun d => ∃ x, ordinal d = Some x ∧ Z.abs x < 2 ^ 52) (listedVersions fs).

(** The Applied-Set as the run loads it. *)
Definition loadedSet (r : Remote) : gset string := list_to_set (appliedId <$> documents r).

(** The version an event opens the processing of: every pass through
    the loop body starts with exactly one such event. *)
Definition versionOf (e : Event) : option string :=
  match e with
  | WarnNoIndex v | ErrImportFailed v | ErrInvalidMigration v
  | LogAlreadyApplied v _ | LogApplying v _ => Some v
  | _ => None
  end.

(** The versions a trace shows the loop to have taken up, in order. *)
Definition visited (t : list Event) : list string := omap versionOf t.

(** The events the processing of a version can emit: those that name
    it, and the events of the readiness loop. *)
Definition eventOf (version : string) (e : Event) : Prop :=
  match e with
  | EvPush v | EvUp v | EvRecord _ v | LogApplying v _ | LogAlreadyApplied v _
  | LogApplied v | WarnNoIndex v | WarnNoSnapshot v | ErrImportFailed v
  | ErrInvalidMigration v | ErrPushFailed v | ErrScriptFailed v => v = version
  | EvConfigure | LogStatus _ _ _ | LogNoMigrationsDir | ErrNoMigrationsDir
  | ErrStatusFailed => False
  | _ => True
  end.

(** A version is settled with respect to a list of applied ids when the
    loop has nothing to do for it: it has no index file, or its
    migration is well formed with an id in the list. *)
Definition settled (fs : FileSystem) (version : string) (ids : list string) : Prop :=
  match validIndexFile (versionDir fs version) with
  | None => True
  | Some file =>
      ∃ migration migrationId,
        imported file = Imported (Some migration)
        ∧ truthy (id migration) = Some migrationId
        ∧ migrationId ∈ ids
  end.

(** ** Events and counters *)

(** The events of the readiness loop. *)
Definition isPollingEvent (e : Event) : Prop :=
  match e with
  | EvListAttributes _ _ | EvSleep | WarnNoDatabaseId _ | WarnTimedOut _
  | WarnServerError _ _ | WarnRetrying _ _ | ErrSnapshotParse => True
  | _ => False
  end.

(** The events of steps 3 and 5. *)
Definition isSyncEvent (version : string) (e : Event) : Prop :=
  match e with
  | EvPush v | WarnNoSnapshot v => v = version
  | _ => isPollingEvent e
  end.

Definition isListAttributes (e : Event) : bool :=
  match e with
  | EvListAttributes _ _ => true
  | _ => false
  end.

(** The number of attribute queries in a trace. *)
Definition attemptsIn (t : list Event) : nat := length (List.filter isListAttributes t).

Definition isPush (e : Event) : bool :=
  match e with
  | EvPush _ => true
  | _ => false
  end.

Definition isUp (e : Event) : bool :=
  match e with
  | EvUp _ => true
  | _ => false
  end.

(** The number of schema pushes and of executions of [up] in a trace. *)
Definition pushes (t : list Event) : nat := length (List.filter isPush t).
Definition executions (t : list Event) : nat := length (List.filter isUp t).

(** The line the listing prints for a version. *)
Definition statusEvent (fs : FileSystem) (appliedSet : gset string) (version : string)
  : Event :=
  LogStatus version (statusId fs version) (bool_decide (statusId fs version ∈ appliedSet)).

(** The console output of the status action. *)
Definition isStatusOutput (e : Event) : Prop :=
  match e with
  | LogStatus _ _ _ | LogNoMigrationsDir | ErrStatusFailed => True
  | _ => False
  end.

(** The number of waits in a trace. *)
Definition isSleep (e : Event) : bool :=
  match e with
  | EvSleep => true
  | _ => false
  end.

Definition sleepsIn (t : list Event) : nat := length (List.filter isSleep t).

(** ** The shape of a snapshot *)

(** An array field that a loop of the readiness step goes through
    without throwing: an array without a null entry. *)
Definition iterable {A} (field : ArrayField A) : bool :=
  match field with
  | Entries l => forallb (fun x => bool_decide (is_Some x)) l
  | NotIterable => false
  end.

(** A snapshot file on which the readiness step does not throw: text
    that does not parse, which it logs, or a value that is not null
    whose [tablesDB] and [tables] are arrays without a null entry. *)
Definition wellShaped (snap : SnapshotFile) : bool :=
  match snap with
  | SnapshotUnparsable => true
  | SnapshotNull => false
  | Snapshot tablesDB tables => iterable tablesDB && iterable tables
  end.

(** Steps 3 and 5 go through for the version: it has no snapshot file,
    or the push succeeds and the file is well shaped. *)
Definition syncs (fs : FileSystem) (be : Backend) (version : string) : Prop :=
  snapshotFile (versionDir fs version) = None
  ∨ (pushSnapshotError be version = None
     ∧ ∀ snap, snapshotFile (versionDir fs version) = Some snap → wellShaped snap = true).

(** The remote state after a push of the version that failed. *)
Definition afterFailedPush (be : Backend) (version : string) (r : Remote) : Remote :=
  match pushFailureLeaves be version with
  | Some part => pushed version part r
  | None => r
  end.

(** ** Computations *)

(** The remote data the run is about: the Applied-Set and the schema. *)
Definition sameData (r r' : Remote) : Prop :=
  documents r = documents r' ∧ schema r = schema r'.

(** A computation [keeps R P] when its final remote state is related to
    the initial one by [R] and every event it emits satisfies [P],
    however it ends. *)
Definition keeps (R : relation Remote) (P : Event → Prop) {A} (m : M A) : Prop :=
  ∀ r, R r (final (m r)) ∧ Forall P (trace (m r)).

(** What one query leads to: the new [allAvailable] and what is logged
    after the call. *)
Definition pollAnswer (answer : ListAttributesResult) (databaseId collectionId : string)
  : bool * list Event :=
  match answer with
  | AttributesListed attributes =>
      if forallb isAvailable attributes then (true, []) else (false, [EvSleep])
  | ListAttributesThrows e =>
      if bool_decide (code e = Some 500)
      then (true, [WarnServerError collectionId databaseId])
      else (false, [WarnRetrying collectionId databaseId; EvSleep])
  end.

Definition alwaysPending (be : Backend) : Prop :=
  ∀ n databaseId collectionId, ∃ attributes,
    listAttributes be n databaseId collectionId = AttributesListed attributes
    ∧ forallb isAvailable attributes = false.

(** Steps 6 and 7 together. *)
Definition executeAndRecord (be : Backend) (version migrationId : string)
    (migration : Migration) : M unit :=
  _ ← execution version migration; finalization be version migrationId.

(** ** Sample worlds *)

(** A backend on which nothing fails and no attribute is pending. *)
Definition quietBackend : Backend :=
  mkBackend None None None (fun _ => None) (fun _ => None) (fun _ _ _ => AttributesListed [])
            (fun _ => None).

Definition emptyRemote : Remote := mkRemote [] None 0.

(** An index file that exports a migration with the given id and [up]. *)
Definition script (i : string) (run : option UpOutcome) : IndexFile :=
  mkIndexFile ("export default { id: '" ++ i ++ "' }")%string
              (Imported (Some (mkMigration (Some i) run))).

(** A version directory with an [index.ts] and, maybe, a snapshot. *)
Definition versionWith (f : IndexFile) (snap : option SnapshotFile) : DirEntry :=
  Directory (mkVersionDir (Some f) None snap).

Definition appliedA : Remote := mkRemote [mkApplied "A" "v1"] None 0.

(** Three versions listed out of order, next to a plain file; the
    migration of [v1] is in the Applied-Set of [appliedA]. *)
Definition threeVersions : FileSystem :=
  mkFileSystem true ["v2"; "v10"; "notes.txt"; "v1"]
    (<["v1" := versionWith (script "A" (Some UpResolves)) None]>
     (<["v2" := versionWith (script "B" (Some UpResolves)) None]>
      (<["v10" := versionWith (script "C" (Some UpResolves)) None]>
       (<["notes.txt" := PlainFile]> ∅)))).

(** Two directories whose names carry the same ordinal. *)
Definition tiedVersions : FileSystem :=
  mkFileSystem true ["v01"; "v1"]
    (<["v01" := versionWith (script "A" (Some UpResolves)) None]>
     (<["v1" := versionWith (script "B" (Some UpResolves)) None]> ∅)).

(** A directory [v1] with neither [index.ts] nor [index.js], followed by
    a well-formed [v2]. *)
Definition missingIndex : FileSystem :=
  mkFileSystem true ["v1"; "v2"]
    (<["v1" := Directory (mkVersionDir None None None)]>
     (<["v2" := versionWith (script "B" (Some UpResolves)) None]> ∅)).

(** Version [v1] goes through; the script of [v2] throws; [v3] waits. *)
Definition secondThrows : FileSystem :=
  mkFileSystem true ["v1"; "v2"; "v3"]
    (<["v1" := versionWith (script "A" (Some UpResolves)) None]>
     (<["v2" := versionWith (script "B" (Some (UpRejects (mkExn None "boom")))) None]>
      (<["v3" := versionWith (script "C" (Some UpResolves)) None]> ∅))).

(** A single version whose script throws. *)
Definition alwaysThrows : FileSystem :=
  mkFileSystem true ["v1"]
    (<["v1" := versionWith (script "A" (Some (UpRejects (mkExn None "boom")))) None]> ∅).

(** A version whose migration has an id and no [up]. *)
Definition noUp : FileSystem :=
  mkFileSystem true ["v1"] (<["v1" := versionWith (script "A" None) None]> ∅).

Definition twoTables : list Table :=
  [mkTable "users" "Users" (Some "main"); mkTable "posts" "Posts" (Some "main")].

Definition withSnapshot : FileSystem :=
  mkFileSystem true ["v1"]
    (<["v1" := versionWith (script "A" (Some UpResolves))
                           (Some (Snapshot (arrayOf [mkDatabase (Some "main")]) (arrayOf twoTables)))]> ∅).

(** A backend whose attribute queries all fail with a server error. *)
Definition serverErrors : Backend :=
  mkBackend None None None (fun _ => None) (fun _ => None)
            (fun _ _ _ => ListAttributesThrows (mkExn (Some 500) "Server Error"))
            (fun _ => None).

(** A backend whose attribute queries always report a pending
    attribute. *)
Definition stuckBackend : Backend :=
  mkBackend None None None (fun _ => None) (fun _ => None)
            (fun _ _ _ => AttributesListed [mkAttribute "title" "processing"])
            (fun _ => None).

(** A version that has only an [index.js]; its migration [A] is in the
    Applied-Set of [appliedA]. *)
Definition jsOnly : FileSystem :=
  mkFileSystem true ["v1"]
    (<["v1" := Directory (mkVersionDir None (Some (script "A" (Some UpResolves)))
                                       None)]> ∅).

(** A version that has only an [index.js], whose migration has the id
    [unknown] and is recorded as applied. *)
Definition jsOnlyUnknown : FileSystem :=
  mkFileSystem true ["v1"]
    (<["v1" := Directory (mkVersionDir None (Some (script "unknown" (Some UpResolves)))
                                       None)]> ∅).

Definition unknownRecorded : Remote := mkRemote [mkApplied "unknown" "v1"] None 0.

(** The scenario of the specification: [v1] with migration [A] and no
    snapshot, [v2] with migration [B] and a snapshot with one table. *)
Definition scenarioTable : Table := mkTable "T" "T" (Some "db").

Definition scenario (upB : UpOutcome) : FileSystem :=
  mkFileSystem true ["v1"; "v2"]
    (<["v1" := versionWith (script "A" (Some UpResolves)) None]>
     (<["v2" := versionWith (script "B" (Some upB))
                            (Some (Snapshot (arrayOf [mkDatabase (Some "db")]) (arrayOf [scenarioTable])))]> ∅)).

(** A backend whose attribute is pending for the first two queries and
    available from then on. *)
Definition settlesAfterTwo : Backend :=
  mkBackend None None None (fun _ => None) (fun _ => None)
            (fun n _ _ =>
               AttributesListed
                 [mkAttribute "title" (if (n <? 2)%nat then "processing" else "available")])
            (fun _ => None).

(** A backend whose schema tool rejects every push. *)
Definition pushRejected : Backend :=
  mkBackend None None None (fun _ => Some (mkExn None "push failed"))
            (fun _ => Some (Snapshot (arrayOf []) (arrayOf [mkTable "users" "Users" (Some "main")])))
            (fun _ _ _ => AttributesListed []) (fun _ => None).

(** A version whose script no longer imports, although the Applied-Set
    of [appliedA] holds the id it used to export; a second version
    follows. *)
Definition brokenScript : FileSystem :=
  mkFileSystem true ["v1"; "v2"]
    (<["v1" := versionWith (mkIndexFile "export default { id: 'A' }"
                                        (ImportThrows (mkExn None "SyntaxError")))
                           None]>
     (<["v2" := versionWith (script "B" (Some UpResolves)) None]> ∅)).

(** A version whose snapshot file is not valid JSON. *)
Definition brokenSnapshot : FileSystem :=
  mkFileSystem true ["v1"]
    (<["v1" := versionWith (script "A" (Some UpResolves)) (Some SnapshotUnparsable)]> ∅).

(** A backend whose attribute query fails twice with code 404, then
    reports a pending attribute once, then reports it available. *)
Definition flakyBackend : Backend :=
  mkBackend None None None (fun _ => None) (fun _ => None)
            (fun n _ _ =>
               if (n <? 2)%nat then ListAttributesThrows (mkExn (Some 404) "not found")
               else if (n <? 3)%nat then AttributesListed [mkAttribute "title" "processing"]
               else AttributesListed [mkAttribute "title" "available"])
            (fun _ => None).


(** ** Further vocabulary: the readiness loop and the ends of a run *)

(** An answer of the attribute query that ends the polling of a pair:
    every attribute is available, or the query failed with code 500. *)
Definition isFinalAnswer (answer : ListAttributesResult) : bool :=
  match answer with
  | AttributesListed attributes => forallb isAvailable attributes
  | ListAttributesThrows e => bool_decide (code e = Some 500)
  end.

(** The tables of a snapshot that the readiness loop polls. *)
Definition hasDatabaseId (table : Table) : bool :=
  match truthy (databaseId table) with
  | Some _ => true
  | None => false
  end.

(** The ways [runMigrations] can end: normally, by a thrown value, or by
    [process.exit(1)]. *)
Definition endsCleanly (res : Result unit) : Prop :=
  res = Ok tt ∨ (∃ e, res = Throw e) ∨ res = Exit 1.

(** ** Further vocabulary: names, numbers and the new version *)

(** A string of decimal digits. *)
Fixpoint allDigits (s : string) : Prop :=
  match s with
  | EmptyString => True
  | String c r => is_Some (Js.digitValue 10 c) ∧ allDigits r
  end.

(** A string without a double or a single quote. *)
Fixpoint noQuote (s : string) : Prop :=
  match s with
  | EmptyString => True
  | String c r => Js.isQuote c = false ∧ noQuote r
  end.

(** The file system after [mkdirSync] has made the directory [name],
    which did not exist, and the files of [d] have been written to it:
    the listing has one more name, at whatever place. *)
Definition created (fs : FileSystem) (name : string) (d : VersionDir)
    (fs' : FileSystem) : Prop :=
  (name ∉ readdir fs)
  ∧ migrationsDirExists fs' = true
  ∧ readdir fs' ≡ₚ name :: readdir fs
  ∧ entries fs' = <[name := Directory d]> (entries fs).

(** The version [v11] that the action adds to [threeVersions], with the
    id [uuid] in its index file. *)
Definition eleventh (uuid : string) : VersionDir :=
  mkVersionDir
    (Some (mkIndexFile (Create.indexContent uuid "migration_v11")
                       (Imported (Some (mkMigration (Some uuid) (Some UpResolves))))))
    None (Some (Snapshot (arrayOf []) (arrayOf []))).

Definition fourVersions (uuid : string) : FileSystem :=
  mkFileSystem true ["v11"; "v2"; "v10"; "notes.txt"; "v1"]
    (<["v11" := Directory (eleventh uuid)]> (entries threeVersions)).

(** ** Further vocabulary: the configuration *)

(** A string with no white space at either end. *)
Definition trimmed (s : string) : Prop := Js.trimStart s = s ∧ Js.trimEnd s = s.

(** Two results of [loadConfig] that differ at most in what comes from
    the config file. *)
Definition sameCredentials (a b : Config.Loaded) : Prop :=
  match a, b with
  | Config.Thrown e, Config.Thrown e' => e = e'
  | Config.Returned c _, Config.Returned c' _ =>
      Config.endpoint c = Config.endpoint c'
      ∧ Config.projectId c = Config.projectId c'
      ∧ Config.apiKey c = Config.apiKey c'
  | _, _ => False
  end.

(** A URL parser that knows the scheme of what it is given by the
    first letter: [h] for [https:], [f] for [ftp:], no URL otherwise. *)
Definition sampleProtocol (s : string) : option string :=
  match s with
  | String "h" _ => Some "https:"
  | String "f" _ => Some "ftp:"
  | _ => None
  end.

Definition sampleEnv (endpoint : string) : Config.Env :=
  Config.mkEnv (Some endpoint) (Some " project ") (Some "key").

(** A config file with the legacy key next to the current one. *)
Definition sampleConfigFile : Config.ConfigFile :=
  Config.Parsed (Config.JObject [("databaseId", Config.JString "old");
                                 ("database", Config.JString "tracking")]).

(** ** Further vocabulary: the diagram *)

(** No character of the string satisfies [p]. *)
Fixpoint noneOf (p : ascii → bool) (s : string) : bool :=
  match s with
  | String c r => negb (p c) && noneOf p r
  | EmptyString => true
  end.

(** The characters that the sanitizer is there to keep out: line
    breaks, braces, the double quote and the backtick. *)
Definition unsafeChar (c : ascii) : bool :=
  Diagram.isNewline c || Diagram.isBrace c || Ascii.eqb c "034" || Ascii.eqb c "`".

Definition mermaidSafe (s : string) : bool := noneOf unsafeChar s.

(** The pair keys of the relationship columns that a table declares
    from the parent side, and those of all the tables, in the order of
    the loops. *)
Definition pairsOfColumn (entityName : string) (col : Diagram.Column) : list string :=
  if String.eqb (Diagram.type col) "relationship" then
    match bool_decide (Diagram.side col = Some "parent"),
          Diagram.nonEmpty (Diagram.relatedTable col) with
    | true, Some related =>
        [Diagram.pairKey entityName (Diagram.sanitizeMermaid related)]
    | _, _ => []
    end
  else [].

Definition pairsOfTable (table : Diagram.Table) : list string :=
  flat_map (pairsOfColumn (Diagram.sanitizeMermaid (Diagram.name table)))
           (Diagram.columns table).

Definition parentPairs (tables : list Diagram.Table) : list string :=
  flat_map pairsOfTable tables.

(** The invariant of the loops of [buildErDiagram]: the set holds the
    pair keys met so far, and there is one relationship line for each. *)
Definition onePerPair (st : Diagram.Building) (met : list string) : Prop :=
  Diagram.renderedPairs st = list_to_set met
  ∧ length (Diagram.relationships st) = size (Diagram.renderedPairs st).

(** Two tables that each declare, from the parent side, a relationship
    to the other, and a third column that is plain data. *)
Definition mutualTables : list Diagram.Table :=
  [Diagram.mkTable "Authors"
     [Diagram.mkColumn "books" "relationship" None false (Some "Books")
                       (Some "oneToMany") (Some "parent");
      Diagram.mkColumn "bio" "text" None true None None None];
   Diagram.mkTable "Books"
     [Diagram.mkColumn "authors" "relationship" None false (Some "Authors")
                       (Some "manyToOne") (Some "parent")]].

(** ** Further vocabulary: the security ledger *)

(** The entry that [exceptions add] makes of the answers. *)
Definition entryOf (answers : Security.Answers) (author today : string)
    : Security.SecurityException :=
  Security.mkSecurityException (Js.trim (Security.answeredRule answers))
                               (Js.trim (Security.answeredJustification answers))
                               author today.

(** A ledger with one exception, on the collection [users]. *)
Definition sampleLedger : Security.SecurityLedger :=
  Security.mkSecurityLedger (Some Security.DEFAULT_RULES)
    (Some {["users" := [Security.mkSecurityException "forbid-role-all-read"
                          "public profile" "ana" "2025-01-10"]]})
    None.

Definition sampleAnswers (id : string) : Security.Answers :=
  Security.mkAnswers Security.Collection id " forbid-role-all-write " "wiki pages ".

(** * Properties *)

(** ** The scenarios of the specification, by evaluation *)

Example scenario_fresh :
  runMigrations (scenario UpResolves) settlesAfterTwo emptyRemote
  = (Ok tt,
     mkRemote [mkApplied "A" "v1"; mkApplied "B" "v2"]
              (Some ("v2", Snapshot (arrayOf [mkDatabase (Some "db")]) (arrayOf [scenarioTable]))) 3,
     [EvConfigure;
      LogApplying "v1" "A"; WarnNoSnapshot "v1"; EvUp "v1"; EvRecord "A" "v1";
      LogApplied "v1";
      LogApplying "v2" "B"; EvPush "v2";
      EvListAttributes "db" "T"; EvSleep; EvListAttributes "db" "T"; EvSleep;
      EvListAttributes "db" "T";
      EvUp "v2"; EvRecord "B" "v2"; LogApplied "v2"]).
Proof. by vm_compute. Qed.

Example scenario_one_applied :
  trace (runMigrations (scenario UpResolves) quietBackend appliedA)
  = [EvConfigure; LogAlreadyApplied "v1" "A";
     LogApplying "v2" "B"; EvPush "v2"; EvListAttributes "db" "T";
     EvUp "v2"; EvRecord "B" "v2"; LogApplied "v2"].
Proof. by vm_compute. Qed.

Example scenario_second_throws :
  let x := runMigrations (scenario (UpRejects (mkExn None "boom"))) quietBackend
                         emptyRemote in
  outcome x = Exit 1 ∧ documents (final x) = [mkApplied "A" "v1"].
Proof. by vm_compute. Qed.

Example parseInt_samples :
  Js.parseInt "12" = Some 12 ∧ Js.parseInt "01" = Some 1
  ∧ Js.parseInt "0x10" = Some 16 ∧ Js.parseInt " -3z" = Some (-3)
  ∧ Js.parseInt "endor" = None ∧ Js.parseInt "" = None.
Proof. by vm_compute. Qed.

Example matchId_samples :
  Js.matchId "const migration = { id: '6527-0cb7', description: 'x' }" = Some "6527-0cb7"
  ∧ Js.matchId "const migration = { id: makeId(), description: 'x' }" = None
  ∧ Js.matchId "id: '' id:'x'" = Some "x".
Proof. by vm_compute. Qed.

(** ** The order of discovery *)

Section SortFacts.
Context {A : Type} (cmp : A -> A -> option Z).

Lemma sortInsert_Permutation a l : Permutation (sortInsert cmp a l) (a :: l).
Proof.
  induction l as [|b l IH]; simpl; [reflexivity|].
  destruct (sortCompare cmp a b <=? 0); [reflexivity|].
  rewrite IH. apply perm_swap.
Qed.

Lemma jsSort_Permutation l : Permutation (jsSort cmp l) l.
Proof.
  induction l as [|a l IH]; simpl; [reflexivity|].
  rewrite sortInsert_Permutation. by constructor.
Qed.
End SortFacts.

Lemma sortCompare_ordinal a b x y :
  ordinal a = Some x → ordinal b = Some y →
  sortCompare compareVersions a b = x - y.
Proof. intros Ha Hb. unfold sortCompare, compareVersions. by rewrite Ha, Hb. Qed.

Lemma sortInsert_ordinalLe a l :
  is_Some (ordinal a) → Forall (fun d => is_Some (ordinal d)) l →
  StronglySorted ordinalLe l →
  StronglySorted ordinalLe (sortInsert compareVersions a l).
Proof.
  intros [x Hx] Hall Hs. induction l as [|b l IH]; simpl.
  - repeat constructor.
  - apply Forall_cons in Hall as [[y Hy] Hall].
    apply StronglySorted_inv in Hs as [Hs Hb].
    rewrite (sortCompare_ordinal a b x y Hx Hy).
    destruct (Z.leb_spec (x - y) 0) as [Hle|Hgt].
    + constructor; [by constructor|].
      constructor; [exists x, y; repeat split; [done..|lia]|].
      eapply Forall_impl; [exact Hb|].
      intros c (y' & z & Hy' & Hz & Hyz). rewrite Hy in Hy'. injection Hy' as <-.
      exists x, z. repeat split; [done..|lia].
    + constructor; [by apply IH|].
      rewrite (sortInsert_Permutation compareVersions a l).
      constructor; [exists y, x; repeat split; [done..|lia]|done].
Qed.

Lemma jsSort_ordinalLe l :
  Forall (fun d => is_Some (ordinal d)) l →
  StronglySorted ordinalLe (jsSort compareVersions l).
Proof.
  induction 1 as [|a l Ha Hall IH]; simpl; [constructor|].
  apply sortInsert_ordinalLe; [done| |done].
  by rewrite (jsSort_Permutation compareVersions l).
Qed.

Lemma ordinalLe_NoDup_Lt l :
  StronglySorted ordinalLe l → NoDup (ordinal <$> l) →
  StronglySorted ordinalLt l.
Proof.
  induction 1 as [|a l Hs IH Ha]; intros Hnd; [constructor|].
  simpl in Hnd. apply NoDup_cons in Hnd as [Hnotin Hnd].
  constructor; [by apply IH|].
  apply Forall_forall. intros b Hb.
  rewrite Forall_forall in Ha. destruct (Ha b Hb) as (x & y & Hx & Hy & Hxy).
  exists x, y. repeat split; [done..|].
  destruct (Z.eq_dec x y) as [->|]; [|lia].
  exfalso. apply Hnotin. rewrite Hx, <- Hy. by apply list_elem_of_fmap_2.
Qed.

Lemma versionDirs_Permutation fs : Permutation (versionDirs fs) (listedVersions fs).
Proof. apply jsSort_Permutation. Qed.

Lemma versionDirs_ascending fs :
  Forall (fun d => is_Some (ordinal d)) (listedVersions fs) →
  StronglySorted ordinalLe (versionDirs fs).
Proof. apply jsSort_ordinalLe. Qed.

Lemma numbered_is_Some fs :
  numbered fs → Forall (fun d => is_Some (ordinal d)) (listedVersions fs).
Proof.
  unfold numbered. intros H. eapply Forall_impl; [exact H|].
  intros d (x & Hx & _). by exists x.
Qed.

Lemma versionDirs_strictly_ascending fs :
  Forall (fun d => is_Some (ordinal d)) (listedVersions fs) →
  NoDup (ordinal <$> listedVersions fs) →
  StronglySorted ordinalLt (versionDirs fs).
Proof.
  intros Hall Hnd. apply ordinalLe_NoDup_Lt; [by apply versionDirs_ascending|].
  by rewrite (versionDirs_Permutation fs).
Qed.

(** ** Reasoning about computations of [M] *)

Lemma bind_run {A B} (m : M A) (k : A → M B) r :
  (m ≫= k) r =
  match m r with
  | (Ok a, r1, t1) => let '(res, r2, t2) := k a r1 in (res, r2, t1 ++ t2)
  | (Throw e, r1, t1) => (Throw e, r1, t1)
  | (Exit n, r1, t1) => (Exit n, r1, t1)
  | (Hang, r1, t1) => (Hang, r1, t1)
  end.
Proof. reflexivity. Qed.

Lemma bind_Ok {A B} (m : M A) (k : A → M B) r a r1 t1 :
  m r = (Ok a, r1, t1) →
  (m ≫= k) r = (outcome (k a r1), final (k a r1), t1 ++ trace (k a r1)).
Proof.
  intros H. rewrite bind_run, H. by destruct (k a r1) as [[??]?].
Qed.

Lemma bind_assoc {A B C} (m : M A) (k : A → M B) (k' : B → M C) r :
  ((m ≫= k) ≫= k') r = (m ≫= (fun a => k a ≫= k')) r.
Proof.
  rewrite !bind_run. destruct (m r) as [[[a|?|?|] r1] t1]; try done.
  rewrite bind_run. destruct (k a r1) as [[[b|?|?|] r2] t2]; try done.
  destruct (k' b r2) as [[res r3] t3]. by rewrite app_assoc.
Qed.

Lemma bind_emit {B} e (k : unit → M B) r :
  (emit e ≫= k) r = (outcome (k tt r), final (k tt r), e :: trace (k tt r)).
Proof. by rewrite (bind_Ok _ _ r tt r [e]). Qed.

Lemma forEach_cons {A} (body : A → M unit) x l r :
  forEach body (x :: l) r = (body x ≫= fun _ => forEach body l) r.
Proof. reflexivity. Qed.

Lemma forEach_app {A} (body : A → M unit) l1 l2 r :
  forEach body (l1 ++ l2) r = (forEach body l1 ≫= fun _ => forEach body l2) r.
Proof.
  revert r. induction l1 as [|x l1 IH]; intros r; simpl.
  - rewrite bind_run. simpl. by destruct (forEach body l2 r) as [[??]?].
  - rewrite !bind_run. destruct (body x r) as [[[[]|e|n|] r1] t1]; try done.
    rewrite IH, bind_run.
    destruct (forEach body l1 r1) as [[[[]|e|n|] r2] t2]; try done.
    destruct (forEach body l2 r2) as [[??]?]. by rewrite app_assoc.
Qed.

Section Keeps.
Context (R : relation Remote) `{!PreOrder R} (P : Event → Prop).

Lemma keeps_ret {A} (a : A) : keeps R P (ret a).
Proof. intros r. split; [reflexivity|constructor]. Qed.

Lemma keeps_emit e : P e → keeps R P (emit e).
Proof. intros He r. split; [reflexivity|by repeat constructor]. Qed.

Lemma keeps_throw {A} e : keeps R P (@throw A e).
Proof. intros r. split; [reflexivity|constructor]. Qed.

Lemma keeps_bind {A B} (m : M A) (k : A → M B) :
  keeps R P m → (∀ a, keeps R P (k a)) → keeps R P (m ≫= k).
Proof.
  intros Hm Hk r. rewrite bind_run. destruct (Hm r) as [HR HP].
  destruct (m r) as [[[a|e|n|] r1] t1]; simpl in *; try done.
  destruct (Hk a r1) as [HR' HP'].
  destruct (k a r1) as [[res r2] t2]; simpl in *.
  split; [by etrans|by apply Forall_app].
Qed.

Lemma keeps_forEach {A} (body : A → M unit) l :
  (∀ x, x ∈ l → keeps R P (body x)) → keeps R P (forEach body l).
Proof.
  induction l as [|x l IH]; intros Hbody; simpl; [apply keeps_ret|].
  apply keeps_bind; [apply Hbody; by left|].
  intros _. apply IH. intros y Hy. apply Hbody. by right.
Qed.
End Keeps.

(** ** The readiness loop *)

#[export] Instance sameData_PreOrder : PreOrder sameData.
Proof.
  split; [by intros r|].
  intros r1 r2 r3 [H1 H2] [H3 H4]. split; congruence.
Qed.

Lemma filter_pending_nil attributes :
  (length (List.filter (fun attr => negb (isAvailable attr)) attributes) =? 0)%nat
  = forallb isAvailable attributes.
Proof.
  induction attributes as [|a l IH]; simpl; [done|].
  destruct (isAvailable a); simpl; done.
Qed.

Section Readiness.
Variable be : Backend.

Lemma pollOnce_run databaseId collectionId r :
  pollOnce be databaseId collectionId r =
  let answer := pollAnswer (listAttributes be (queries r) databaseId collectionId)
                           databaseId collectionId in
  (Ok answer.1, tick r, EvListAttributes databaseId collectionId :: answer.2).
Proof.
  unfold pollOnce, tryCatch, callListAttributes, pollAnswer.
  unfold mbind, M_bind, bind, emit, getRemote, putRemote, ret, throw. simpl.
  destruct (listAttributes be (queries r) databaseId collectionId) as [l|e]; simpl.
  - rewrite filter_pending_nil. by destruct (forallb isAvailable l).
  - by destruct (bool_decide (code e = Some 500)).
Qed.

Lemma pollAnswer_no_query answer databaseId collectionId :
  attemptsIn (pollAnswer answer databaseId collectionId).2 = 0%nat.
Proof.
  destruct answer as [l|e]; simpl.
  - by destruct (forallb isAvailable l).
  - by destruct (bool_decide (code e = Some 500)).
Qed.

Lemma pollAnswer_polling answer databaseId collectionId :
  Forall isPollingEvent (pollAnswer answer databaseId collectionId).2.
Proof.
  destruct answer as [l|e]; simpl.
  - destruct (forallb isAvailable l); repeat constructor.
  - destruct (bool_decide (code e = Some 500)); repeat constructor.
Qed.

Lemma pollLoop_unfold fuel attempts databaseId collectionId r :
  pollLoop be (S fuel) attempts databaseId collectionId r =
  if (MAX_ATTEMPTS <=? attempts)%nat then (Ok tt, r, [WarnTimedOut collectionId])
  else
    let answer := pollAnswer (listAttributes be (queries r) databaseId collectionId)
                             databaseId collectionId in
    let rest := if answer.1 then (Ok tt, tick r, [])
                else pollLoop be fuel (S attempts) databaseId collectionId (tick r) in
    (outcome rest, final rest,
     EvListAttributes databaseId collectionId :: answer.2 ++ trace rest).
Proof.
  cbn [pollLoop]. destruct (MAX_ATTEMPTS <=? attempts)%nat; [done|].
  rewrite (bind_Ok _ _ _ _ _ _ (pollOnce_run databaseId collectionId r)).
  simpl. by destruct (pollAnswer _ _ _).1.
Qed.

(** With enough fuel the loop returns normally, after at most
    [MAX_ATTEMPTS - attempts] queries; it touches nothing but the
    query counter. *)
Lemma pollLoop_returns fuel attempts databaseId collectionId r :
  (MAX_ATTEMPTS - attempts < fuel)%nat →
  let x := pollLoop be fuel attempts databaseId collectionId r in
  outcome x = Ok tt
  ∧ (attemptsIn (trace x) <= MAX_ATTEMPTS - attempts)%nat
  ∧ sameData r (final x)
  ∧ queries (final x) = (queries r + attemptsIn (trace x))%nat
  ∧ Forall isPollingEvent (trace x).
Proof.
  revert attempts r. induction fuel as [|fuel IH]; intros attempts r Hfuel; [lia|].
  cbv zeta. rewrite pollLoop_unfold.
  destruct (Nat.leb_spec MAX_ATTEMPTS attempts) as [Hmax|Hlt].
  { unfold outcome, final, trace, attemptsIn. simpl.
    repeat split; [lia..|repeat constructor]. }
  cbv zeta.
  pose proof (pollAnswer_no_query
    (listAttributes be (queries r) databaseId collectionId) databaseId collectionId) as Hq.
  pose proof (pollAnswer_polling
    (listAttributes be (queries r) databaseId collectionId) databaseId collectionId) as Hp.
  destruct (pollAnswer _ _ _) as [b t].
  unfold outcome, final, trace, attemptsIn in *. simpl in *.
  rewrite List.filter_app, length_app, Hq.
  destruct b; simpl.
  - repeat split; [lia..|]. constructor; [done|]. by rewrite app_nil_r.
  - destruct (IH (S attempts) (tick r)) as (H1 & H2 & H3 & H4 & H5); [lia|].
    repeat split; [done|lia|apply H3..| |].
    + rewrite H4. simpl. lia.
    + constructor; [done|]. by apply Forall_app.
Qed.
End Readiness.

Lemma forEach_returns {A} (body : A → M unit) l r :
  (∀ x r, outcome (body x r) = Ok tt) → outcome (forEach body l r) = Ok tt.
Proof.
  intros Hbody. revert r. induction l as [|x l IH]; intros r; [done|].
  rewrite forEach_cons, bind_run. specialize (Hbody x r).
  destruct (body x r) as [[res r1] t1]. unfold outcome in *; simpl in *. subst res.
  specialize (IH r1). by destruct (forEach body l r1) as [[??]?].
Qed.

Section ReadinessBounds.
Variable be : Backend.

Lemma pollLoop_pending fuel attempts databaseId collectionId r :
  alwaysPending be →
  (MAX_ATTEMPTS - attempts < fuel)%nat →
  let x := pollLoop be fuel attempts databaseId collectionId r in
  attemptsIn (trace x) = (MAX_ATTEMPTS - attempts)%nat
  ∧ last (trace x) = Some (WarnTimedOut collectionId).
Proof.
  intros Hpending. revert attempts r.
  induction fuel as [|fuel IH]; intros attempts r Hfuel; [lia|].
  cbv zeta. rewrite pollLoop_unfold.
  destruct (Nat.leb_spec MAX_ATTEMPTS attempts) as [Hmax|Hlt].
  { unfold trace, attemptsIn. simpl. split; [lia|done]. }
  destruct (Hpending (queries r) databaseId collectionId) as (l & -> & Hl).
  cbv zeta. unfold pollAnswer. rewrite Hl.
  destruct (IH (S attempts) (tick r)) as [H1 H2]; [lia|].
  unfold trace, attemptsIn in *. simpl. split; [rewrite H1; lia|].
  destruct (pollLoop be fuel (S attempts) databaseId collectionId (tick r)) as [[??] t].
  simpl in *. by destruct t.
Qed.

Lemma pollTable_returns table r :
  let x := pollTable be table r in
  outcome x = Ok tt
  ∧ (attemptsIn (trace x) <= MAX_ATTEMPTS)%nat
  ∧ sameData r (final x)
  ∧ Forall isPollingEvent (trace x).
Proof.
  unfold pollTable. destruct (truthy (databaseId table)) as [db|].
  - destruct (pollLoop_returns be (S MAX_ATTEMPTS) 0 db (tableId table) r)
      as (H1 & H2 & H3 & H4 & H5); [lia|].
    repeat split; [done|lia|apply H3..|done].
  - unfold outcome, trace, final, attemptsIn. simpl.
    repeat split; [lia|repeat constructor].
Qed.

Lemma pollTable_keeps table : keeps sameData isPollingEvent (pollTable be table).
Proof. intros r. by destruct (pollTable_returns table r) as (_ & _ & ? & ?). Qed.

Lemma pollEntry_keeps entry : keeps sameData isPollingEvent (pollEntry be entry).
Proof.
  destruct entry as [table|]; [apply pollTable_keeps|].
  apply keeps_throw. apply _.
Qed.

Lemma registerDatabase_run db r :
  registerDatabase db r = (if bool_decide (is_Some db) then Ok tt else Throw typeError, r, []).
Proof. by destruct db. Qed.

Lemma forEach_registerDatabase l r :
  forEach registerDatabase l r
  = (if iterable (Entries l) then Ok tt else Throw typeError, r, []).
Proof.
  induction l as [|db l IH]; [done|].
  rewrite forEach_cons, bind_run, registerDatabase_run.
  destruct db as [db|]; [|done]. simpl in *. by rewrite IH.
Qed.

Lemma forOf_registerDatabase tablesDB r :
  forOf registerDatabase tablesDB r
  = (if iterable tablesDB then Ok tt else Throw typeError, r, []).
Proof. destruct tablesDB as [l|]; [apply forEach_registerDatabase|done]. Qed.

Lemma forEach_pollEntry_outcome l r :
  outcome (forEach (pollEntry be) l r)
  = if iterable (Entries l) then Ok tt else Throw typeError.
Proof.
  revert r. induction l as [|entry l IH]; intros r; [done|].
  rewrite forEach_cons, bind_run. destruct entry as [table|]; [|done].
  cbn [pollEntry]. destruct (pollTable_returns table r) as (Hok & _).
  destruct (pollTable be table r) as [[res r1] t1]. unfold outcome in Hok.
  simpl in Hok. subst res. specialize (IH r1).
  destruct (forEach (pollEntry be) l r1) as [[res r2] t2]. by simpl in *.
Qed.

Lemma forEach_pollEntry_arrayOf tables r :
  forEach (pollEntry be) (Some <$> tables) r = forEach (pollTable be) tables r.
Proof.
  revert r. induction tables as [|table tables IH]; intros r; [done|].
  cbn [fmap list_fmap]. rewrite !forEach_cons, !bind_run. cbn [pollEntry].
  destruct (pollTable be table r) as [[[[]|e|n|] r1] t1]; try done.
  fold (Some <$> tables). by rewrite IH.
Qed.

Lemma iterable_arrayOf {A} (l : list A) : iterable (arrayOf l) = true.
Proof. unfold arrayOf. simpl. by induction l. Qed.

(** On arrays without null entries the step is the loop over the
    tables. *)
Lemma waitForAttributes_arrays dbs tables r :
  waitForAttributes be (Some (Snapshot (arrayOf dbs) (arrayOf tables))) r
  = forEach (pollTable be) tables r.
Proof.
  cbn [waitForAttributes]. rewrite bind_run, forOf_registerDatabase, iterable_arrayOf.
  cbn [forOf arrayOf]. rewrite forEach_pollEntry_arrayOf.
  by destruct (forEach (pollTable be) tables r) as [[??]?].
Qed.

Lemma waitForAttributes_keeps snap :
  keeps sameData isPollingEvent (waitForAttributes be snap).
Proof.
  destruct snap as [[| |tablesDB tables]|]; simpl;
    [apply keeps_emit; [apply _|exact I]|apply keeps_throw; apply _|
     |apply keeps_emit; [apply _|exact I]].
  apply keeps_bind; [apply _| |].
  - intros r. rewrite forOf_registerDatabase. by split.
  - intros _. destruct tables as [l|]; [|apply keeps_throw; apply _].
    apply keeps_forEach; [apply _|]. intros entry _. apply pollEntry_keeps.
Qed.

(** The readiness step never ends the process and never hangs; it
    returns normally on a well-shaped snapshot file and throws on every
    other. *)
Lemma waitForAttributes_outcome snap r :
  outcome (waitForAttributes be (Some snap) r)
  = if wellShaped snap then Ok tt else Throw typeError.
Proof.
  destruct snap as [| |tablesDB tables]; [done..|].
  cbn [waitForAttributes wellShaped]. rewrite bind_run, forOf_registerDatabase.
  destruct (iterable tablesDB); [|done]. cbn [andb].
  destruct tables as [l|]; [|done]. cbn [forOf].
  pose proof (forEach_pollEntry_outcome l r) as Hout.
  destruct (forEach (pollEntry be) l r) as [[res r1] t1]. by simpl in *.
Qed.

Lemma waitForAttributes_returns snap r :
  wellShaped snap = true → outcome (waitForAttributes be (Some snap) r) = Ok tt.
Proof. intros Hshape. by rewrite waitForAttributes_outcome, Hshape. Qed.
End ReadinessBounds.

Lemma attemptsIn_app t1 t2 : attemptsIn (t1 ++ t2) = (attemptsIn t1 + attemptsIn t2)%nat.
Proof. unfold attemptsIn. by rewrite List.filter_app, length_app. Qed.

Section ReadinessCost.
Variable be : Backend.

Lemma pollTable_cost table r :
  let x := pollTable be table r in
  outcome x = Ok tt
  ∧ (attemptsIn (trace x) <= if hasDatabaseId table then MAX_ATTEMPTS else 0)%nat
  ∧ queries (final x) = (queries r + attemptsIn (trace x))%nat
  ∧ sameData r (final x)
  ∧ (hasDatabaseId table = false → WarnNoDatabaseId (tableId table) ∈ trace x).
Proof.
  cbv zeta. unfold pollTable, hasDatabaseId.
  destruct (truthy (databaseId table)) as [database|].
  - destruct (pollLoop_returns be (S MAX_ATTEMPTS) 0 database (tableId table) r)
      as (H1 & H2 & H3 & H4 & _); [lia|].
    repeat split; [done|lia|done|apply H3..|done].
  - unfold outcome, final, trace, attemptsIn. simpl.
    repeat split; [lia..|]. intros _. by left.
Qed.

End ReadinessCost.

Section PairByPair.
Variable be : Backend.

Lemma pollTable_pending table r :
  alwaysPending be →
  let x := pollTable be table r in
  attemptsIn (trace x) = (if hasDatabaseId table then MAX_ATTEMPTS else 0)%nat
  ∧ (hasDatabaseId table = true → last (trace x) = Some (WarnTimedOut (tableId table))).
Proof.
  intros Hpending. cbv zeta. unfold pollTable, hasDatabaseId.
  destruct (truthy (databaseId table)) as [database|]; [|done].
  destruct (pollLoop_pending be (S MAX_ATTEMPTS) 0 database (tableId table) r Hpending)
    as [Hn Hlast]; [lia|].
  split; [by rewrite Hn, Nat.sub_0_r|done].
Qed.

(** The trace of the loop over the tables is made of one segment for
    each table, in order: the trace of the polling of that table. *)
Lemma forEach_pollTable_segments tables r :
  ∃ polls,
    trace (forEach (pollTable be) tables r) = concat polls
    ∧ Forall2 (fun table t => ∃ r0, trace (pollTable be table r0) = t) tables polls.
Proof.
  revert r. induction tables as [|table tables IH]; intros r.
  { exists []. split; [done|constructor]. }
  rewrite forEach_cons, bind_run.
  destruct (pollTable_returns be table r) as (Hok & _).
  destruct (pollTable be table r) as [[res r1] t1] eqn:Hhead.
  unfold outcome in Hok. simpl in Hok. subst res.
  destruct (IH r1) as (polls & Hrest & Hall).
  destruct (forEach (pollTable be) tables r1) as [[res r2] t2].
  unfold trace in *. simpl in *. subst t2.
  exists (t1 :: polls). split; [done|]. constructor; [|done].
  exists r. by rewrite Hhead.
Qed.

Lemma segments_cost tables polls :
  Forall2 (fun table t => ∃ r0, trace (pollTable be table r0) = t) tables polls →
  (attemptsIn (concat polls) <= length (List.filter hasDatabaseId tables) * MAX_ATTEMPTS)%nat
  ∧ (alwaysPending be →
     attemptsIn (concat polls)
     = (length (List.filter hasDatabaseId tables) * MAX_ATTEMPTS)%nat).
Proof.
  induction 1 as [|table t tables polls [r0 <-] _ [IHle IHeq]]; [done|].
  cbn [concat List.filter]. rewrite attemptsIn_app.
  destruct (pollTable_cost be table r0) as (_ & Hle & _).
  split.
  - destruct (hasDatabaseId table); cbn [length Nat.mul]; lia.
  - intros Hpending. destruct (pollTable_pending table r0 Hpending) as [Hn _].
    rewrite Hn, (IHeq Hpending).
    destruct (hasDatabaseId table); cbn [length Nat.mul]; lia.
Qed.
End PairByPair.

(** ** The steps of one version *)

Lemma bind_Ok_inv {A B} (m : M A) (k : A → M B) r b r' t :
  (m ≫= k) r = (Ok b, r', t) →
  ∃ a r1 t1 t2, m r = (Ok a, r1, t1) ∧ k a r1 = (Ok b, r', t2) ∧ t = t1 ++ t2.
Proof.
  rewrite bind_run. destruct (m r) as [[[a|e|n|] r1] t1]; try done.
  destruct (k a r1) as [[res r2] t2] eqn:Hk. intros [= -> -> <-].
  by exists a, r1, t1, t2.
Qed.

Section Steps.
Variables (fs : FileSystem) (be : Backend).

Lemma schemaSync_run version r :
  schemaSync fs be version r =
  match snapshotFile (versionDir fs version) with
  | None => (Ok tt, r, [WarnNoSnapshot version])
  | Some snap =>
      match pushSnapshotError be version with
      | None => (Ok tt, pushed version snap r, [EvPush version])
      | Some _ => (Exit 1, afterFailedPush be version r,
                   [EvPush version; ErrPushFailed version])
      end
  end.
Proof.
  unfold schemaSync. destruct (snapshotFile _) as [snap|]; [|done].
  unfold tryCatch, pushSnapshot, afterFailedPush.
  destruct (pushSnapshotError be version); [|done].
  by destruct (pushFailureLeaves be version).
Qed.

Lemma attributePolling_run version r :
  ∃ r' t, attributePolling fs be version r
          = (match snapshotFile (versionDir fs version) with
             | Some snap => if wellShaped snap then Ok tt else Throw typeError
             | None => Ok tt
             end, r', t)
          ∧ sameData r r' ∧ Forall isPollingEvent t
          ∧ (snapshotFile (versionDir fs version) = None → r' = r ∧ t = []).
Proof.
  unfold attributePolling. destruct (snapshotFile _) as [snap|].
  - pose proof (waitForAttributes_outcome be snap r) as Hout.
    destruct (waitForAttributes_keeps be (Some snap) r) as [HR HP].
    destruct (waitForAttributes be (Some snap) r) as [[res r'] t].
    unfold outcome in Hout; simpl in *. subst res. by exists r', t.
  - by exists r, [].
Qed.

Lemma execution_run version migration r :
  execution version migration r =
  match up migration with
  | None => (Ok tt, r, [])
  | Some UpResolves => (Ok tt, r, [EvUp version])
  | Some (UpRejects _) => (Exit 1, r, [EvUp version; ErrScriptFailed version])
  end.
Proof. unfold execution. by destruct (up migration) as [[|e]|]. Qed.

Lemma finalization_run version migrationId r :
  finalization be version migrationId r =
  match recordMigrationError be migrationId with
  | None => (Ok tt, recorded migrationId version r,
             [EvRecord migrationId version; LogApplied version])
  | Some e => (Throw e, r, [EvRecord migrationId version])
  end.
Proof.
  unfold finalization, recordMigration, failing.
  by destruct (recordMigrationError be migrationId).
Qed.

(** A version that has a well-formed migration not in the Applied-Set
    goes through steps 3 to 7. *)
Lemma processVersion_apply appliedSet version file migration migrationId r :
  validIndexFile (versionDir fs version) = Some file →
  imported file = Imported (Some migration) →
  truthy (id migration) = Some migrationId →
  migrationId ∉ appliedSet →
  processVersion fs be appliedSet version r
  = applyVersion fs be version migrationId migration r.
Proof.
  intros Hfile Himp Hid Hnew. unfold processVersion.
  by rewrite Hfile, Himp, Hid, bool_decide_eq_false_2.
Qed.

(** A version whose migration id is in the Applied-Set: one log line,
    nothing else. *)
Lemma processVersion_applied appliedSet version file migration migrationId r :
  validIndexFile (versionDir fs version) = Some file →
  imported file = Imported (Some migration) →
  truthy (id migration) = Some migrationId →
  migrationId ∈ appliedSet →
  processVersion fs be appliedSet version r
  = (Ok tt, r, [LogAlreadyApplied version migrationId]).
Proof.
  intros Hfile Himp Hid Hin. unfold processVersion.
  by rewrite Hfile, Himp, Hid, bool_decide_eq_true_2.
Qed.

(** A version directory without an index file: one warning, nothing
    else. *)
Lemma processVersion_no_index appliedSet version r :
  validIndexFile (versionDir fs version) = None →
  processVersion fs be appliedSet version r = (Ok tt, r, [WarnNoIndex version]).
Proof. intros Hfile. unfold processVersion. by rewrite Hfile. Qed.
End Steps.

Section ApplyVersion.
Variables (fs : FileSystem) (be : Backend).

Lemma executeAndRecord_run version migrationId migration r :
  executeAndRecord be version migrationId migration r =
  match up migration with
  | Some (UpRejects _) => (Exit 1, r, [EvUp version; ErrScriptFailed version])
  | other =>
      let called := match other with Some _ => [EvUp version] | None => [] end in
      match recordMigrationError be migrationId with
      | None => (Ok tt, recorded migrationId version r,
                 called ++ [EvRecord migrationId version; LogApplied version])
      | Some e => (Throw e, r, called ++ [EvRecord migrationId version])
      end
  end.
Proof.
  unfold executeAndRecord. rewrite bind_run, execution_run.
  destruct (up migration) as [[|e]|]; try done;
    rewrite finalization_run; by destruct (recordMigrationError be migrationId).
Qed.

(** A version to be applied has a snapshot whose push fails, or a
    snapshot that is pushed and is not well shaped, or steps 3 and 5 go
    through. *)
Lemma sync_cases version :
  (∃ snap e, snapshotFile (versionDir fs version) = Some snap
             ∧ pushSnapshotError be version = Some e)
  ∨ (∃ snap, snapshotFile (versionDir fs version) = Some snap
             ∧ pushSnapshotError be version = None ∧ wellShaped snap = false)
  ∨ syncs fs be version.
Proof.
  unfold syncs. destruct (snapshotFile (versionDir fs version)) as [snap|]; [|by auto].
  destruct (pushSnapshotError be version) as [e|]; [left; by exists snap, e|].
  destruct (wellShaped snap) eqn:Hshape.
  - right. right. right. split; [done|]. by intros ? [= <-].
  - right. left. by exists snap.
Qed.

(** When the push fails the version ends there. *)
Lemma applyVersion_push_fails version migrationId migration snap e r :
  snapshotFile (versionDir fs version) = Some snap →
  pushSnapshotError be version = Some e →
  applyVersion fs be version migrationId migration r
  = (Exit 1, afterFailedPush be version r,
     [LogApplying version migrationId; EvPush version; ErrPushFailed version]).
Proof.
  intros Hsnap Hpush. unfold applyVersion.
  rewrite bind_emit, bind_run, schemaSync_run, Hsnap, Hpush. done.
Qed.

(** Steps 3 and 5, whatever the snapshot: the Applied-Set stays as it
    was, and step 5 returns or throws by the shape of the snapshot. *)
Lemma sync_steps version r :
  pushSnapshotError be version = None
  ∨ snapshotFile (versionDir fs version) = None →
  ∃ r' t,
    (_ ← schemaSync fs be version; attributePolling fs be version) r
    = (match snapshotFile (versionDir fs version) with
       | Some snap => if wellShaped snap then Ok tt else Throw typeError
       | None => Ok tt
       end, r', t)
    ∧ documents r' = documents r
    ∧ Forall (isSyncEvent version) t
    ∧ (snapshotFile (versionDir fs version) = None
       → r' = r ∧ t = [WarnNoSnapshot version]).
Proof.
  intros Hpush.
  assert (∃ r1 t1, schemaSync fs be version r = (Ok tt, r1, t1)
                   ∧ documents r1 = documents r
                   ∧ Forall (isSyncEvent version) t1
                   ∧ (snapshotFile (versionDir fs version) = None
                      → r1 = r ∧ t1 = [WarnNoSnapshot version]))
    as (r1 & t1 & Hs & Hd1 & Ht1 & Hnone1).
  { rewrite schemaSync_run. destruct (snapshotFile _) as [snap|].
    - destruct Hpush as [->|?]; [|done].
      eexists _, _. split; [done|]. split; [done|]. split; [|done].
      by repeat constructor.
    - eexists _, _. split; [done|]. split; [done|]. split; [|done].
      by repeat constructor. }
  destruct (attributePolling_run fs be version r1)
    as (r2 & t2 & Hp & [Hd2 _] & Ht2 & Hnone2).
  exists r2, (t1 ++ t2). rewrite (bind_Ok _ _ _ _ _ _ Hs), Hp.
  unfold outcome, final, trace. simpl. repeat split.
  - congruence.
  - apply Forall_app. split; [done|].
    eapply Forall_impl; [exact Ht2|]. intros ev Hev. by destruct ev.
  - destruct (Hnone1 H) as [-> _]. by destruct (Hnone2 H).
  - destruct (Hnone1 H) as [_ ->]. by destruct (Hnone2 H) as [_ ->].
Qed.

Lemma applyVersion_steps version migrationId migration r :
  applyVersion fs be version migrationId migration r
  = (_ ← emit (LogApplying version migrationId);
     _ ← (_ ← schemaSync fs be version; attributePolling fs be version);
     executeAndRecord be version migrationId migration) r.
Proof.
  unfold applyVersion, executeAndRecord. rewrite !bind_emit.
  by rewrite (bind_assoc (schemaSync fs be version)).
Qed.

(** When the snapshot is pushed and is not well shaped, the version
    ends in step 5 with the error thrown there. *)
Lemma applyVersion_throws version migrationId migration snap r :
  snapshotFile (versionDir fs version) = Some snap →
  pushSnapshotError be version = None →
  wellShaped snap = false →
  ∃ r' t,
    applyVersion fs be version migrationId migration r
    = (Throw typeError, r', LogApplying version migrationId :: t)
    ∧ documents r' = documents r
    ∧ Forall (isSyncEvent version) t.
Proof.
  intros Hsnap Hpush Hbad.
  destruct (sync_steps version r) as (r' & t & Heq & Hdocs & Ht & _); [by left|].
  rewrite Hsnap, Hbad in Heq. exists r', t. split; [|done].
  by rewrite applyVersion_steps, bind_emit, bind_run, Heq.
Qed.

(** Otherwise steps 3 and 5 return, leaving the Applied-Set as it was,
    and steps 6 and 7 follow. *)
Lemma applyVersion_synced version migrationId migration r :
  syncs fs be version →
  ∃ r' t,
    let rest := executeAndRecord be version migrationId migration r' in
    applyVersion fs be version migrationId migration r
    = (outcome rest, final rest, LogApplying version migrationId :: t ++ trace rest)
    ∧ documents r' = documents r
    ∧ Forall (isSyncEvent version) t
    ∧ (snapshotFile (versionDir fs version) = None
       → r' = r ∧ t = [WarnNoSnapshot version]).
Proof.
  intros Hsync.
  destruct (sync_steps version r) as (r' & t & Heq & Hdocs & Ht & Hnone).
  { destruct Hsync as [?|[? _]]; auto. }
  assert ((_ ← schemaSync fs be version; attributePolling fs be version) r
          = (Ok tt, r', t)) as Hok.
  { rewrite Heq. destruct (snapshotFile (versionDir fs version)) as [snap|] eqn:Hsnap;
      [|done].
    destruct Hsync as [?|[_ Hshape]]; [congruence|]. by rewrite (Hshape snap Hsnap). }
  exists r', t. cbv zeta. split; [|done].
  rewrite applyVersion_steps, bind_emit, (bind_Ok _ _ _ _ _ _ Hok).
  by unfold outcome, final, trace.
Qed.
End ApplyVersion.

(** ** The run as a whole *)

Lemma elem_of_loadedSet i r : i ∈ loadedSet r ↔ i ∈ appliedId <$> documents r.
Proof. unfold loadedSet. by rewrite elem_of_list_to_set. Qed.

Lemma runMigrations_run fs be r :
  runMigrations fs be r =
  match loadConfigError be with
  | Some e => (Throw e, r, [])
  | None =>
      match configureClientError be with
      | Some e => (Throw e, r, [EvConfigure])
      | None =>
          if negb (migrationsDirExists fs) then (Exit 1, r, [EvConfigure; ErrNoMigrationsDir])
          else
            match getAppliedMigrationsError be with
            | Some e => (Throw e, r, [EvConfigure])
            | None =>
                let x := forEach (processVersion fs be (loadedSet r)) (versionDirs fs) r in
                (outcome x, final x, EvConfigure :: trace x)
            end
      end
  end.
Proof.
  unfold runMigrations, loadConfig, configureClient, getAppliedMigrations, failing.
  destruct (loadConfigError be); [done|].
  destruct (configureClientError be); [done|].
  destruct (migrationsDirExists fs); simpl; [|done].
  destruct (getAppliedMigrationsError be); [done|].
  unfold mbind, M_bind, bind, ret, emit, getRemote. simpl.
  fold (loadedSet r).
  by destruct (forEach (processVersion fs be (loadedSet r)) (versionDirs fs) r) as [[??]?].
Qed.

Lemma visited_app t1 t2 : visited (t1 ++ t2) = visited t1 ++ visited t2.
Proof. apply omap_app. Qed.

Lemma visited_nil_Forall (P : Event → Prop) t :
  (∀ e, P e → versionOf e = None) → Forall P t → visited t = [].
Proof.
  intros HP. induction 1 as [|e t He _ IH]; [done|].
  unfold visited in *. simpl. by rewrite (HP e He).
Qed.

Section Loop.
Variables (fs : FileSystem) (be : Backend).

Lemma executeAndRecord_visited version migrationId migration r :
  visited (trace (executeAndRecord be version migrationId migration r)) = [].
Proof.
  rewrite executeAndRecord_run.
  destruct (up migration) as [[|e]|]; try done;
    by destruct (recordMigrationError be migrationId).
Qed.

Lemma applyVersion_visited version migrationId migration r :
  visited (trace (applyVersion fs be version migrationId migration r)) = [version].
Proof.
  destruct (sync_cases fs be version)
    as [(snap & e & Hsnap & Hpush)|[(snap & Hsnap & Hpush & Hbad)|Hsync]].
  - by rewrite (applyVersion_push_fails fs be _ _ _ snap e).
  - destruct (applyVersion_throws fs be version migrationId migration snap r)
      as (r' & t & -> & _ & Ht); [done..|].
    unfold trace. simpl.
    rewrite (visited_nil_Forall (isSyncEvent version) t); [done| |done].
    by intros [].
  - destruct (applyVersion_synced fs be version migrationId migration r)
      as (r' & t & -> & _ & Ht & _); [done|].
    unfold trace at 1. simpl.
    change (LogApplying version migrationId :: ?l)
      with ([LogApplying version migrationId] ++ l).
    rewrite !visited_app, executeAndRecord_visited.
    rewrite (visited_nil_Forall (isSyncEvent version) t); [done| |done].
    by intros [].
Qed.

Lemma processVersion_visited appliedSet version r :
  visited (trace (processVersion fs be appliedSet version r)) = [version].
Proof.
  unfold processVersion.
  destruct (validIndexFile _) as [file|]; [|done].
  destruct (imported file) as [e|[migration|]]; [done| |done].
  destruct (truthy (id migration)) as [migrationId|]; [|done].
  destruct (bool_decide _); [done|]. apply applyVersion_visited.
Qed.

(** The loop takes the versions up in the order of its list, and all
    of them when it completes. *)
Lemma forEach_visited appliedSet l r :
  let x := forEach (processVersion fs be appliedSet) l r in
  visited (trace x) `prefix_of` l
  ∧ (outcome x = Ok tt → visited (trace x) = l).
Proof.
  revert r. induction l as [|v l IH]; intros r; cbv zeta.
  { split; [by exists []|done]. }
  rewrite forEach_cons, bind_run.
  pose proof (processVersion_visited appliedSet v r) as Hv.
  destruct (processVersion fs be appliedSet v r) as [[[[]|e|n|] r1] t1];
    unfold trace, outcome in *; simpl in *;
    try (rewrite Hv; split; [by exists l|done]).
  specialize (IH r1). cbv zeta in IH.
  destruct (forEach (processVersion fs be appliedSet) l r1) as [[res r2] t2].
  unfold trace, outcome in *; simpl in *. rewrite visited_app, Hv. simpl.
  destruct IH as [Hpre Hall]. split; [by apply prefix_cons|].
  intros ->. by rewrite Hall.
Qed.

Lemma runMigrations_visited r :
  let x := runMigrations fs be r in
  visited (trace x) `prefix_of` versionDirs fs
  ∧ (outcome x = Ok tt → visited (trace x) = versionDirs fs).
Proof.
  cbv zeta. rewrite runMigrations_run.
  destruct (loadConfigError be); [split; [apply prefix_nil|done]|].
  destruct (configureClientError be); [split; [apply prefix_nil|done]|].
  destruct (migrationsDirExists fs); simpl; [|split; [apply prefix_nil|done]].
  destruct (getAppliedMigrationsError be); [split; [apply prefix_nil|done]|].
  apply (forEach_visited (loadedSet r) (versionDirs fs) r).
Qed.
End Loop.

Lemma forEach_trace_elem {A} (body : A → M unit) l r e :
  e ∈ trace (forEach body l r) → ∃ x r', x ∈ l ∧ e ∈ trace (body x r').
Proof.
  revert r. induction l as [|x l IH]; intros r.
  { unfold trace. simpl. by intros ?%elem_of_nil. }
  rewrite forEach_cons, bind_run.
  destruct (body x r) as [[[[]|e'|n|] r1] t1] eqn:Hx;
    try (unfold trace; simpl; intros He; exists x, r; split; [by left|];
         by rewrite Hx).
  destruct (forEach body l r1) as [[res r2] t2] eqn:Hl.
  unfold trace at 1. simpl. intros [He|He]%elem_of_app.
  - exists x, r. split; [by left|]. by rewrite Hx.
  - destruct (IH r1) as (y & r' & Hy & Hey); [by rewrite Hl|].
    exists y, r'. split; [by right|done].
Qed.

Section LoopEvents.
Variables (fs : FileSystem) (be : Backend).

Lemma executeAndRecord_eventOf version migrationId migration r :
  Forall (eventOf version) (trace (executeAndRecord be version migrationId migration r)).
Proof.
  rewrite executeAndRecord_run.
  destruct (up migration) as [[|e]|]; try by repeat constructor.
  all: destruct (recordMigrationError be migrationId); by repeat constructor.
Qed.

Lemma applyVersion_eventOf version migrationId migration r :
  Forall (eventOf version) (trace (applyVersion fs be version migrationId migration r)).
Proof.
  assert (∀ t, Forall (isSyncEvent version) t → Forall (eventOf version) t) as Hsync.
  { intros t Ht. eapply Forall_impl; [exact Ht|]. by intros []. }
  destruct (sync_cases fs be version)
    as [(snap & e & Hsnap & Hpush)|[(snap & Hsnap & Hpush & Hbad)|Hsyncs]].
  - rewrite (applyVersion_push_fails fs be _ _ _ snap e); by repeat constructor.
  - destruct (applyVersion_throws fs be version migrationId migration snap r)
      as (r' & t & -> & _ & Ht); [done..|].
    unfold trace. simpl. constructor; [done|]. by apply Hsync.
  - destruct (applyVersion_synced fs be version migrationId migration r)
      as (r' & t & -> & _ & Ht & _); [done|].
    unfold trace at 1. simpl. constructor; [done|].
    apply Forall_app. split; [by apply Hsync|apply executeAndRecord_eventOf].
Qed.

Lemma processVersion_eventOf appliedSet version r :
  Forall (eventOf version) (trace (processVersion fs be appliedSet version r)).
Proof.
  unfold processVersion.
  destruct (validIndexFile _) as [file|]; [|by repeat constructor].
  destruct (imported file) as [e|[migration|]]; try by repeat constructor.
  destruct (truthy (id migration)) as [migrationId|]; [|by repeat constructor].
  destruct (bool_decide _); [by repeat constructor|]. apply applyVersion_eventOf.
Qed.

(** A version the loop skips as already applied is neither pushed nor
    executed anywhere in the loop. *)
Lemma forEach_skipped_version appliedSet version file migration migrationId l r :
  validIndexFile (versionDir fs version) = Some file →
  imported file = Imported (Some migration) →
  truthy (id migration) = Some migrationId →
  migrationId ∈ appliedSet →
  let t := trace (forEach (processVersion fs be appliedSet) l r) in
  (EvPush version ∉ t) ∧ (EvUp version ∉ t).
Proof.
  intros Hfile Himp Hid Hin. cbv zeta.
  assert (∀ e, e ∈ trace (forEach (processVersion fs be appliedSet) l r) →
               e ≠ EvPush version ∧ e ≠ EvUp version) as Hall.
  { intros e (v & r' & _ & He)%forEach_trace_elem.
    pose proof (processVersion_eventOf appliedSet v r') as Hev.
    rewrite Forall_forall in Hev. specialize (Hev e He).
    split; intros ->; simpl in Hev; subst v;
      rewrite (processVersion_applied fs be _ _ _ _ _ _ Hfile Himp Hid Hin) in He;
      unfold trace in He; simpl in He; by apply list_elem_of_singleton in He. }
  split; intros He; by destruct (Hall _ He).
Qed.
End LoopEvents.

Lemma StronglySorted_prefix {A} (R : relation A) (l1 l2 : list A) :
  l1 `prefix_of` l2 → StronglySorted R l2 → StronglySorted R l1.
Proof. intros [k ->] Hs. by apply StronglySorted_app_1_l in Hs. Qed.

(** ** The status listing *)

Lemma forEach_statusLine fs appliedSet l r :
  forEach (statusLine fs appliedSet) l r = (Ok tt, r, statusEvent fs appliedSet <$> l).
Proof.
  induction l as [|v l IH]; [done|].
  rewrite forEach_cons, (bind_Ok _ _ r tt r [statusEvent fs appliedSet v]); [|done].
  by rewrite IH.
Qed.

Lemma statusCommand_run fs be r :
  statusCommand fs be r =
  match loadConfigError be, getAppliedMigrationsError be with
  | None, None =>
      if negb (migrationsDirExists fs) then (Ok tt, r, [LogNoMigrationsDir])
      else (Ok tt, r, statusEvent fs (loadedSet r) <$> versionDirs fs)
  | _, _ => (Exit 1, r, [ErrStatusFailed])
  end.
Proof.
  unfold statusCommand, tryCatch, loadConfig, getAppliedMigrations, failing.
  destruct (loadConfigError be); [done|].
  destruct (getAppliedMigrationsError be); [done|].
  unfold mbind, M_bind, bind, ret, getRemote, throw. simpl. fold (loadedSet r).
  destruct (migrationsDirExists fs); simpl; [|done].
  by rewrite forEach_statusLine.
Qed.

(** ** C1: the order of the run and the skipping of applied versions *)

(** C1, as stated, fails: the directories [v01] and [v1] both carry the
    ordinal 1, the run takes up both, and the ordinals of the versions it
    takes up are then not strictly ascending. *)
Lemma run_order_counterexample :
  ¬ StronglySorted ordinalLt
      (visited (trace (runMigrations tiedVersions quietBackend emptyRemote))).
Proof.
  assert (visited (trace (runMigrations tiedVersions quietBackend emptyRemote))
          = ["v01"; "v1"]) as -> by (by vm_compute).
  intros Hs. apply StronglySorted_inv in Hs as [_ Hf].
  apply Forall_cons in Hf as [(x & y & Hx & Hy & Hlt) _].
  vm_compute in Hx, Hy. injection Hx as <-. injection Hy as <-. lia.
Qed.

(** C1, amended: when every discovered directory name carries an integer
    ordinal below 2^52 in magnitude, the run takes the versions up in
    ascending order of that ordinal (a prefix of the sorted listing, all
    of it when the run completes), strictly ascending when the ordinals
    are pairwise distinct; and a version whose migration id is in the
    loaded Applied-Set costs one log line: no schema push, no polling, no
    [up], and the loop moves on. *)
Theorem run_ascending_and_skips fs be r
    (Hnum : numbered fs) :
  let x := runMigrations fs be r in
  visited (trace x) `prefix_of` versionDirs fs
  ∧ (outcome x = Ok tt → visited (trace x) ≡ₚ listedVersions fs)
  ∧ StronglySorted ordinalLe (visited (trace x))
  ∧ (NoDup (ordinal <$> listedVersions fs) →
     StronglySorted ordinalLt (visited (trace x)))
  ∧ ∀ version file migration migrationId,
      validIndexFile (versionDir fs version) = Some file →
      imported file = Imported (Some migration) →
      truthy (id migration) = Some migrationId →
      migrationId ∈ loadedSet r →
      (∀ r', processVersion fs be (loadedSet r) version r'
             = (Ok tt, r', [LogAlreadyApplied version migrationId]))
      ∧ (EvPush version ∉ trace x) ∧ (EvUp version ∉ trace x).
Proof.
  cbv zeta. destruct (runMigrations_visited fs be r) as [Hpre Hall].
  split; [done|]. split.
  { intros Hok. rewrite (Hall Hok). apply versionDirs_Permutation. }
  split.
  { eapply StronglySorted_prefix; [exact Hpre|].
    by apply versionDirs_ascending, numbered_is_Some. }
  split.
  { intros Hnd. eapply StronglySorted_prefix; [exact Hpre|].
    by apply versionDirs_strictly_ascending; [apply numbered_is_Some|]. }
  intros version file migration migrationId Hfile Himp Hid Hin. split.
  { intros r'. by eapply processVersion_applied. }
  rewrite runMigrations_run.
  destruct (loadConfigError be);
    [unfold trace; simpl; split; by intros ?%elem_of_nil|].
  destruct (configureClientError be);
    [unfold trace; simpl; split; by intros ?%list_elem_of_singleton|].
  destruct (migrationsDirExists fs); simpl.
  2: { unfold trace; simpl; split;
         intros [?|[?|?%elem_of_nil]%elem_of_cons]%elem_of_cons; done. }
  destruct (getAppliedMigrationsError be);
    [unfold trace; simpl; split; by intros ?%list_elem_of_singleton|].
  destruct (forEach_skipped_version fs be (loadedSet r) version file migration
              migrationId (versionDirs fs) r Hfile Himp Hid Hin) as [Hpush Hup].
  unfold trace at 1 3. simpl.
  split; intros [?|?]%elem_of_cons; done.
Qed.

Lemma run_ascending_and_skips_witness :
  StronglySorted ordinalLt
    (visited (trace (runMigrations threeVersions quietBackend appliedA)))
  ∧ (EvUp "v1" ∉ trace (runMigrations threeVersions quietBackend appliedA)).
Proof.
  assert (numbered threeVersions) as Hnum.
  { unfold numbered. change (listedVersions threeVersions) with ["v2"; "v10"; "v1"].
    repeat constructor; eexists; (split; reflexivity). }
  destruct (run_ascending_and_skips threeVersions quietBackend appliedA Hnum)
    as (_ & _ & _ & Hstrict & Hskip).
  split.
  - apply Hstrict. apply (bool_decide_unpack _). by vm_compute.
  - destruct (Hskip "v1" (script "A" (Some UpResolves))
                (mkMigration (Some "A") (Some UpResolves)) "A") as (_ & _ & Hup);
      [reflexivity..| |exact Hup].
    apply elem_of_loadedSet. apply (bool_decide_unpack _). by vm_compute.
Defined.

(** ** C2: a script that throws during [up] *)

Lemma executeAndRecord_rejects be version migrationId migration e r :
  up migration = Some (UpRejects e) →
  executeAndRecord be version migrationId migration r
  = (Exit 1, r, [EvUp version; ErrScriptFailed version]).
Proof. intros Hup. by rewrite executeAndRecord_run, Hup. Qed.

(** C2: when the loop reaches a version whose [up] rejects (the earlier
    versions went through, the version is well formed and not applied,
    and its snapshot, if any, was pushed and is well shaped, so that the
    readiness step returned), the run ends with [process.exit(1)]
    right after logging the failure; from the moment the version is
    taken up [recordMigration] is not called and the Applied-Set stays as
    it was; no later version is taken up. *)
Theorem up_failure_aborts fs be r pre version post file migration migrationId e r1 t1
    (Hconfig : loadConfigError be = None)
    (Hcli : configureClientError be = None)
    (Hdir : migrationsDirExists fs = true)
    (Hload : getAppliedMigrationsError be = None)
    (Hdirs : versionDirs fs = pre ++ version :: post)
    (Hpre : forEach (processVersion fs be (loadedSet r)) pre r = (Ok tt, r1, t1))
    (Hfile : validIndexFile (versionDir fs version) = Some file)
    (Himp : imported file = Imported (Some migration))
    (Hid : truthy (id migration) = Some migrationId)
    (Hnew : migrationId ∉ loadedSet r)
    (Hsync : snapshotFile (versionDir fs version) = None
             ∨ (pushSnapshotError be version = None
                ∧ ∀ snap, snapshotFile (versionDir fs version) = Some snap →
                          wellShaped snap = true))
    (Hup : up migration = Some (UpRejects e)) :
  let x := runMigrations fs be r in
  outcome x = Exit 1
  ∧ documents (final x) = documents r1
  ∧ ∃ t, trace x = EvConfigure :: t1 ++ t
         ∧ visited t = [version]
         ∧ EvUp version ∈ t
         ∧ last t = Some (ErrScriptFailed version)
         ∧ ∀ i v, EvRecord i v ∉ t.
Proof.
  cbv zeta. rewrite runMigrations_run, Hconfig, Hcli, Hdir, Hload, Hdirs. simpl.
  rewrite forEach_app, (bind_Ok _ _ _ _ _ _ Hpre), forEach_cons, bind_run.
  rewrite (processVersion_apply fs be _ _ _ _ _ _ Hfile Himp Hid Hnew).
  pose proof (applyVersion_visited fs be version migrationId migration r1) as Hvis.
  destruct (applyVersion_synced fs be version migrationId migration r1 Hsync)
    as (r' & t & Heq & Hdocs & Ht & _).
  cbv zeta in Heq. rewrite (executeAndRecord_rejects be _ _ _ e r' Hup) in Heq.
  rewrite Heq in Hvis |- *. unfold outcome, final, trace in *. simpl in *.
  split; [done|]. split; [done|].
  eexists. split; [done|]. split; [done|]. split; [|split].
  - apply elem_of_cons. right. apply elem_of_app. right. by left.
  - by rewrite last_cons, last_app.
  - intros i v [?|[Hin|Hin]%elem_of_app]%elem_of_cons; [done| |].
    + rewrite Forall_forall in Ht. by apply Ht in Hin.
    + by apply elem_of_cons in Hin as [?|?%list_elem_of_singleton].
Qed.

Lemma up_failure_aborts_witness :
  outcome (runMigrations secondThrows quietBackend emptyRemote) = Exit 1
  ∧ documents (final (runMigrations secondThrows quietBackend emptyRemote))
    = [mkApplied "A" "v1"].
Proof.
  destruct (up_failure_aborts secondThrows quietBackend emptyRemote
              ["v1"] "v2" ["v3"]
              (script "B" (Some (UpRejects (mkExn None "boom"))))
              (mkMigration (Some "B") (Some (UpRejects (mkExn None "boom"))))
              "B" (mkExn None "boom")
              (mkRemote [mkApplied "A" "v1"] None 0)
              [LogApplying "v1" "A"; WarnNoSnapshot "v1"; EvUp "v1";
               EvRecord "A" "v1"; LogApplied "v1"])
    as (Hout & Hdocs & _); try reflexivity.
  - apply (bool_decide_unpack _). by vm_compute.
  - by left.
  - by split.
Defined.

(** ** C3: running twice *)

Lemma settled_mono fs version ids ids' :
  (∀ i, i ∈ ids → i ∈ ids') → settled fs version ids → settled fs version ids'.
Proof.
  unfold settled. intros Hsub. destruct (validIndexFile _) as [file|]; [|done].
  intros (migration & migrationId & ? & ? & ?). exists migration, migrationId. auto.
Qed.

Lemma appliedIds_grow (r r' : Remote) i :
  documents r `prefix_of` documents r' →
  i ∈ appliedId <$> documents r → i ∈ appliedId <$> documents r'.
Proof. intros [k ->]. rewrite fmap_app, elem_of_app. by left. Qed.

Section Rerun.
Variables (fs : FileSystem).

(** A pass through the loop body that returns normally leaves the
    version settled, and only adds to the Applied-Set. *)
Lemma processVersion_Ok_inv be appliedSet version r r1 t1 :
  processVersion fs be appliedSet version r = (Ok tt, r1, t1) →
  (∀ i, i ∈ appliedSet → i ∈ appliedId <$> documents r) →
  documents r `prefix_of` documents r1
  ∧ settled fs version (appliedId <$> documents r1).
Proof.
  intros Hrun Hset. unfold settled.
  destruct (validIndexFile (versionDir fs version)) as [file|] eqn:Hfile.
  2: { rewrite (processVersion_no_index fs be _ _ _ Hfile) in Hrun.
       by injection Hrun as <- _. }
  unfold processVersion in Hrun. rewrite Hfile in Hrun.
  destruct (imported file) as [e|[migration|]] eqn:Himp; [done| |done].
  destruct (truthy (id migration)) as [migrationId|] eqn:Hid; [|done].
  destruct (bool_decide_reflect (migrationId ∈ appliedSet)) as [Hin|Hnew].
  { injection Hrun as <- _. split; [done|].
    exists migration, migrationId. auto. }
  destruct (sync_cases fs be version)
    as [(snap & e & Hsnap & Hpush)|[(snap & Hsnap & Hpush & Hbad)|Hsync]].
  { by rewrite (applyVersion_push_fails fs be _ _ _ snap e) in Hrun. }
  { destruct (applyVersion_throws fs be version migrationId migration snap r)
      as (r' & t & Heq & _); [done..|]. by rewrite Heq in Hrun. }
  destruct (applyVersion_synced fs be version migrationId migration r)
    as (r' & t & Heq & Hdocs & _); [done|].
  rewrite Heq, executeAndRecord_run in Hrun; clear Heq.
  destruct (up migration) as [[|e]|];
    destruct (recordMigrationError be migrationId); try done.
  all: unfold outcome, final, trace in Hrun; simpl in Hrun; injection Hrun as <- _.
  all: simpl; rewrite Hdocs; split; [by apply prefix_app_r|].
  all: exists migration, migrationId; split; [done|]; split; [done|].
  all: rewrite fmap_app, elem_of_app; right; by left.
Qed.

Lemma forEach_Ok_settled be appliedSet l r r' t :
  forEach (processVersion fs be appliedSet) l r = (Ok tt, r', t) →
  (∀ i, i ∈ appliedSet → i ∈ appliedId <$> documents r) →
  documents r `prefix_of` documents r'
  ∧ ∀ version, version ∈ l → settled fs version (appliedId <$> documents r').
Proof.
  revert r t. induction l as [|v l IH]; intros r t Hrun Hset.
  { injection Hrun as <- _. split; [done|]. by intros ? ?%elem_of_nil. }
  rewrite forEach_cons in Hrun.
  apply bind_Ok_inv in Hrun as ([] & r1 & t1 & t2 & Hv & Hl & _).
  destruct (processVersion_Ok_inv be appliedSet v r r1 t1 Hv Hset) as [Hgrow1 Hsettled].
  destruct (IH r1 t2 Hl) as [Hgrow2 Hrest].
  { intros i Hi. eapply appliedIds_grow; [exact Hgrow1|]. by apply Hset. }
  split; [by etrans|].
  intros version [->|Hin]%elem_of_cons; [|by apply Hrest].
  eapply settled_mono; [|exact Hsettled]. intros i. by apply appliedIds_grow.
Qed.

(** Over settled versions the loop pushes nothing, executes nothing and
    changes nothing. *)
Lemma forEach_settled_idle be l r0 r :
  (∀ version, version ∈ l → settled fs version (appliedId <$> documents r0)) →
  let x := forEach (processVersion fs be (loadedSet r0)) l r in
  outcome x = Ok tt ∧ final x = r
  ∧ pushes (trace x) = 0%nat ∧ executions (trace x) = 0%nat.
Proof.
  intros Hl. cbv zeta. induction l as [|v l IH]; [done|].
  assert (∃ e, processVersion fs be (loadedSet r0) v r = (Ok tt, r, [e])
               ∧ isPush e = false ∧ isUp e = false) as (e & Hv & Hpush & Hup).
  { specialize (Hl v (list_elem_of_here _ _)). unfold settled in Hl.
    destruct (validIndexFile (versionDir fs v)) as [file|] eqn:Hfile.
    - destruct Hl as (migration & migrationId & Himp & Hid & Hin).
      exists (LogAlreadyApplied v migrationId). split; [|done].
      eapply processVersion_applied; [done..|]. by apply elem_of_loadedSet.
    - exists (WarnNoIndex v). split; [|done]. by apply processVersion_no_index. }
  rewrite forEach_cons, (bind_Ok _ _ _ _ _ _ Hv).
  destruct IH as (H1 & H2 & H3 & H4).
  { intros version Hin. apply Hl. by right. }
  unfold outcome, final, trace, pushes, executions in *. simpl.
  rewrite Hpush, Hup. done.
Qed.
End Rerun.

(** C3, as stated, fails: the first run aborts in the script of [v1]
    and records nothing, and the second run, over the same versions,
    executes that script again. *)
Lemma rerun_counterexample :
  let first := runMigrations alwaysThrows quietBackend emptyRemote in
  let second := runMigrations alwaysThrows quietBackend (final first) in
  ¬ (pushes (trace second) = 0%nat ∧ executions (trace second) = 0%nat).
Proof. cbv zeta. intros [_ Hexec]. vm_compute in Hexec. discriminate. Qed.

(** C3, amended: after a run that completes without aborting, a second
    run over the same versions performs no schema push and no execution
    of [up], and leaves the remote state as the first run left it:
    every version is either without an index file or has its migration
    id in the Applied-Set, and is skipped. *)
Theorem rerun_is_idle fs be1 be2 r
    (Hdone : outcome (runMigrations fs be1 r) = Ok tt) :
  let r1 := final (runMigrations fs be1 r) in
  let second := runMigrations fs be2 r1 in
  pushes (trace second) = 0%nat
  ∧ executions (trace second) = 0%nat
  ∧ final second = r1
  ∧ ∀ version, version ∈ versionDirs fs → settled fs version (appliedId <$> documents r1).
Proof.
  cbv zeta.
  assert (∀ version, version ∈ versionDirs fs →
            settled fs version
              (appliedId <$> documents (final (runMigrations fs be1 r)))) as Hsettled.
  { revert Hdone. rewrite runMigrations_run.
    destruct (loadConfigError be1); [done|].
    destruct (configureClientError be1); [done|].
    destruct (migrationsDirExists fs); simpl; [|done].
    destruct (getAppliedMigrationsError be1); [done|].
    destruct (forEach (processVersion fs be1 (loadedSet r)) (versionDirs fs) r)
      as [[res r1] t1] eqn:Hloop.
    unfold outcome, final. simpl. intros ->.
    apply (forEach_Ok_settled fs be1 _ _ _ _ _ Hloop).
    intros i. by rewrite elem_of_loadedSet. }
  split_and!; [..|done].
  all: rewrite runMigrations_run.
  all: destruct (loadConfigError be2); [done|].
  all: destruct (configureClientError be2); [done|].
  all: destruct (migrationsDirExists fs); simpl; [|done].
  all: destruct (getAppliedMigrationsError be2); [done|].
  all: destruct (forEach_settled_idle fs be2 (versionDirs fs)
                   (final (runMigrations fs be1 r)) (final (runMigrations fs be1 r))
                   Hsettled) as (H1 & H2 & H3 & H4).
  all: unfold pushes, executions, trace, final in *; simpl in *; done.
Qed.

Lemma rerun_is_idle_witness :
  let first := runMigrations (scenario UpResolves) settlesAfterTwo emptyRemote in
  let second := runMigrations (scenario UpResolves) stuckBackend (final first) in
  pushes (trace first) = 1%nat ∧ executions (trace first) = 2%nat
  ∧ pushes (trace second) = 0%nat ∧ executions (trace second) = 0%nat.
Proof.
  destruct (rerun_is_idle (scenario UpResolves) settlesAfterTwo stuckBackend emptyRemote)
    as (Hpush & Hexec & _); [by vm_compute|].
  cbv zeta. split; [by vm_compute|]. split; [by vm_compute|]. by split.
Defined.

(** ** C4: the bound on the attempts *)

Lemma executeAndRecord_no_query be version migrationId migration r :
  attemptsIn (trace (executeAndRecord be version migrationId migration r)) = 0%nat.
Proof.
  rewrite executeAndRecord_run.
  destruct (up migration) as [[|e]|]; try done;
    by destruct (recordMigrationError be migrationId).
Qed.

(** C4: in the run of a version whose snapshot, with arrays of tables
    and of databases that hold no null entry, was pushed, the readiness
    step polls the tables one after the other and then the run goes on to
    the call of [up]: the trace is the push, then one segment for each
    table of the snapshot, in order, then the execution step, which
    begins with the call of [up].  The segment of a table is the trace of
    its polling; it returns normally and holds at most 60 attribute
    queries, whatever the queries answer; when every query reports an
    attribute that is not available, the segment of a table with a
    database id holds exactly 60 queries and ends on the timed-out
    warning.  So the step costs at most 60 queries for each table with a
    database id, and exactly that many when every query reports a pending
    attribute. *)
Theorem polling_is_bounded fs be appliedSet version file migration migrationId run
    dbs tables r
    (Hfile : validIndexFile (versionDir fs version) = Some file)
    (Himp : imported file = Imported (Some migration))
    (Hid : truthy (id migration) = Some migrationId)
    (Hnew : migrationId ∉ appliedSet)
    (Hsnap : snapshotFile (versionDir fs version)
             = Some (Snapshot (arrayOf dbs) (arrayOf tables)))
    (Hpush : pushSnapshotError be version = None)
    (Hup : up migration = Some run) :
  let x := processVersion fs be appliedSet version r in
  ∃ polls r',
    let rest := executeAndRecord be version migrationId migration r' in
    x = (outcome rest, final rest,
         LogApplying version migrationId :: EvPush version :: concat polls ++ trace rest)
    ∧ head (trace rest) = Some (EvUp version)
    ∧ Forall2
        (fun table t =>
           (∃ r0, trace (pollTable be table r0) = t
                  ∧ outcome (pollTable be table r0) = Ok tt)
           ∧ (attemptsIn t <= 60)%nat
           ∧ (alwaysPending be → is_Some (truthy (databaseId table)) →
              attemptsIn t = 60%nat
              ∧ last t = Some (WarnTimedOut (tableId table))))
        tables polls
    ∧ (attemptsIn (trace x) <= 60 * length (List.filter hasDatabaseId tables))%nat
    ∧ (alwaysPending be →
       attemptsIn (trace x) = (60 * length (List.filter hasDatabaseId tables))%nat).
Proof.
  cbv zeta.
  rewrite (processVersion_apply fs be _ _ _ _ _ _ Hfile Himp Hid Hnew).
  rewrite applyVersion_steps, bind_emit.
  assert (schemaSync fs be version r
          = (Ok tt, pushed version (Snapshot (arrayOf dbs) (arrayOf tables)) r,
             [EvPush version])) as Hs.
  { by rewrite schemaSync_run, Hsnap, Hpush. }
  set (r1 := pushed version (Snapshot (arrayOf dbs) (arrayOf tables)) r) in *.
  destruct (forEach_pollTable_segments be tables r1) as (polls & Htrace & Hsegs).
  pose proof (forEach_returns (pollTable be) tables r1) as Hok.
  assert (attributePolling fs be version r1
          = (Ok tt, final (forEach (pollTable be) tables r1), concat polls)) as Hp.
  { unfold attributePolling. rewrite Hsnap, waitForAttributes_arrays.
    rewrite <- Htrace, <- Hok; [by destruct (forEach _ _ _) as [[??]?]|].
    intros table r0. apply pollTable_returns. }
  set (r2 := final (forEach (pollTable be) tables r1)) in *.
  assert ((_ ← schemaSync fs be version; attributePolling fs be version) r
          = (Ok tt, r2, EvPush version :: concat polls)) as Hsync.
  { by rewrite (bind_Ok _ _ _ _ _ _ Hs), Hp. }
  exists polls, r2.
  rewrite (bind_Ok _ _ _ _ _ _ Hsync).
  unfold outcome at 1 2, final at 1 2, trace at 1 2. cbn [fst snd app].
  destruct (segments_cost be tables polls Hsegs) as [Hle Heq].
  split; [done|]. split; [|split; [|split]].
  - rewrite executeAndRecord_run, Hup.
    destruct run; [destruct (recordMigrationError be migrationId)|]; done.
  - eapply Forall2_impl; [exact Hsegs|]. intros table t [r0 <-].
    destruct (pollTable_returns be table r0) as (Hret & Hbound & _).
    split; [by exists r0|]. split; [exact Hbound|].
    intros Hpending [database Hdb].
    destruct (pollTable_pending be table r0 Hpending) as [Hn Hlast].
    unfold hasDatabaseId in Hn, Hlast. rewrite Hdb in Hn, Hlast.
    split; [exact Hn|by apply Hlast].
  - pose proof (executeAndRecord_no_query be version migrationId migration r2) as Hq.
    unfold trace in *. cbn [snd] in *.
    change (LogApplying version migrationId :: EvPush version :: ?l)
      with ([LogApplying version migrationId; EvPush version] ++ l).
    rewrite !attemptsIn_app, Hq.
    change (attemptsIn [LogApplying version migrationId; EvPush version]) with 0%nat.
    unfold MAX_ATTEMPTS in Hle. lia.
  - intros Hpending.
    pose proof (executeAndRecord_no_query be version migrationId migration r2) as Hq.
    unfold trace in *. cbn [snd] in *.
    change (LogApplying version migrationId :: EvPush version :: ?l)
      with ([LogApplying version migrationId; EvPush version] ++ l).
    rewrite !attemptsIn_app, Hq, (Heq Hpending).
    change (attemptsIn [LogApplying version migrationId; EvPush version]) with 0%nat.
    unfold MAX_ATTEMPTS. lia.
Qed.

Lemma polling_is_bounded_witness :
  attemptsIn (trace (processVersion withSnapshot stuckBackend ∅ "v1" emptyRemote))
  = 120%nat
  ∧ EvUp "v1" ∈ trace (processVersion withSnapshot stuckBackend ∅ "v1" emptyRemote).
Proof.
  destruct (polling_is_bounded withSnapshot stuckBackend ∅ "v1"
              (script "A" (Some UpResolves))
              (mkMigration (Some "A") (Some UpResolves)) "A" UpResolves
              [mkDatabase (Some "main")] twoTables emptyRemote)
    as (polls & r' & Hx & Hhead & _ & _ & Hstuck);
    try reflexivity; [apply not_elem_of_empty|].
  split.
  - apply Hstuck. intros n database collectionId. eexists. split; reflexivity.
  - rewrite Hx. unfold trace at 1. cbn [snd].
    apply elem_of_cons. right. apply elem_of_cons. right. apply elem_of_app. right.
    destruct (trace (executeAndRecord stuckBackend "v1" "A"
                       (mkMigration (Some "A") (Some UpResolves)) r')) as [|ev t];
      [done|]. injection Hhead as ->. by left.
Defined.

(** ** C5: a version directory without an index file *)

(** C5, as stated, fails: [v1] has no index file, yet the run does not
    abort; it completes, and it has executed the later version [v2]. *)
Lemma missing_index_counterexample :
  ¬ (∀ version,
       version ∈ versionDirs missingIndex →
       validIndexFile (versionDir missingIndex version) = None →
       outcome (runMigrations missingIndex quietBackend emptyRemote) ≠ Ok tt)
  ∧ EvUp "v2" ∈ trace (runMigrations missingIndex quietBackend emptyRemote).
Proof.
  split.
  - intros Hclaim. apply (Hclaim "v1"); [|done..].
    apply (bool_decide_unpack _). by vm_compute.
  - apply (bool_decide_unpack _). by vm_compute.
Qed.

(** C5, amended: a version directory with neither [index.ts] nor
    [index.js] is skipped with a warning, with no other effect, and the
    loop goes on with the later versions; the run does not abort. *)
Theorem missing_index_skipped fs be appliedSet version later r
    (Hmissing : indexTs (versionDir fs version) = None
                ∧ indexJs (versionDir fs version) = None) :
  processVersion fs be appliedSet version r = (Ok tt, r, [WarnNoIndex version])
  ∧ let rest := forEach (processVersion fs be appliedSet) later r in
    forEach (processVersion fs be appliedSet) (version :: later) r
    = (outcome rest, final rest, WarnNoIndex version :: trace rest).
Proof.
  destruct Hmissing as [Hts Hjs].
  assert (validIndexFile (versionDir fs version) = None) as Hfile.
  { unfold validIndexFile. by rewrite Hts, Hjs. }
  split; [by apply processVersion_no_index|].
  cbv zeta. rewrite forEach_cons.
  by rewrite (bind_Ok _ _ _ _ _ _ (processVersion_no_index fs be appliedSet version r Hfile)).
Qed.

Lemma missing_index_skipped_witness :
  forEach (processVersion missingIndex quietBackend ∅) ["v1"; "v2"] emptyRemote
  = (Ok tt, mkRemote [mkApplied "B" "v2"] None 0,
     [WarnNoIndex "v1"; LogApplying "v2" "B"; WarnNoSnapshot "v2"; EvUp "v2";
      EvRecord "B" "v2"; LogApplied "v2"]).
Proof.
  destruct (missing_index_skipped missingIndex quietBackend ∅ "v1" ["v2"] emptyRemote)
    as [_ ->]; [split; reflexivity|].
  reflexivity.
Defined.

(** ** C6: a server failure of the attribute query *)

(** C6: when the attribute query of a pair fails with code 500 the loop
    stops polling that pair after a warning, without throwing, and the
    loop over the tables goes on with the entry that follows; and
    whatever the queries answer, the polling of a pair returns normally,
    and so does [waitForAttributes] on a well-shaped snapshot file: no
    failure of a query reaches [runMigrations]. *)
Theorem server_error_abandons_pair be database collectionId e fuel attempts r
    (Hattempts : (attempts < MAX_ATTEMPTS)%nat)
    (Hanswer : listAttributes be (queries r) database collectionId
               = ListAttributesThrows e)
    (Hcode : code e = Some 500) :
  pollLoop be (S fuel) attempts database collectionId r
  = (Ok tt, tick r,
     [EvListAttributes database collectionId; WarnServerError collectionId database])
  ∧ (∀ table dbs entries,
       truthy (databaseId table) = Some database → tableId table = collectionId →
       let rest := forEach (pollEntry be) entries (tick r) in
       waitForAttributes be
         (Some (Snapshot (arrayOf dbs) (Entries (Some table :: entries)))) r
       = (outcome rest, final rest,
          EvListAttributes database collectionId
          :: WarnServerError collectionId database :: trace rest))
  ∧ (∀ table r', outcome (pollTable be table r') = Ok tt)
  ∧ (∀ snap r', wellShaped snap = true →
                outcome (waitForAttributes be (Some snap) r') = Ok tt).
Proof.
  assert (∀ fuel' attempts', (attempts' < MAX_ATTEMPTS)%nat →
            pollLoop be (S fuel') attempts' database collectionId r
            = (Ok tt, tick r,
               [EvListAttributes database collectionId;
                WarnServerError collectionId database])) as Hloop.
  { intros fuel' attempts' Hlt. rewrite pollLoop_unfold.
    destruct (Nat.leb_spec MAX_ATTEMPTS attempts') as [?|_]; [lia|].
    cbv zeta. unfold pollAnswer. rewrite Hanswer.
    by rewrite (bool_decide_eq_true_2 _ Hcode). }
  split; [by apply Hloop|]. split; [|split].
  - intros table dbs entries Hdb Hid. cbv zeta.
    assert (pollEntry be (Some table) r
            = (Ok tt, tick r,
               [EvListAttributes database collectionId;
                WarnServerError collectionId database])) as Hhead.
    { cbn [pollEntry]. unfold pollTable. rewrite Hdb, Hid. apply Hloop.
      unfold MAX_ATTEMPTS. lia. }
    cbn [waitForAttributes]. rewrite bind_run, forOf_registerDatabase, iterable_arrayOf.
    cbn [forOf]. rewrite forEach_cons, (bind_Ok _ _ _ _ _ _ Hhead).
    by destruct (forEach (pollEntry be) entries (tick r)) as [[??]?].
  - intros table r'. apply pollTable_returns.
  - intros snap r'. apply waitForAttributes_returns.
Qed.

Lemma server_error_abandons_pair_witness :
  waitForAttributes serverErrors
    (Some (Snapshot (arrayOf [mkDatabase (Some "main")]) (arrayOf twoTables))) emptyRemote
  = (Ok tt, mkRemote [] None 2,
     [EvListAttributes "main" "users"; WarnServerError "users" "main";
      EvListAttributes "main" "posts"; WarnServerError "posts" "main"]).
Proof.
  destruct (server_error_abandons_pair serverErrors "main" "users"
              (mkExn (Some 500) "Server Error") MAX_ATTEMPTS 0 emptyRemote)
    as (_ & Hnext & _); [unfold MAX_ATTEMPTS; lia|reflexivity..|].
  unfold twoTables, arrayOf at 2. cbn [fmap list_fmap].
  rewrite (Hnext (mkTable "users" "Users" (Some "main")) [mkDatabase (Some "main")]
                 [Some (mkTable "posts" "Posts" (Some "main"))]); [|reflexivity..].
  by vm_compute.
Defined.

(** ** C7: a version without a snapshot file *)

(** C7: a version to be applied that has no snapshot file gets a
    warning in place of the push and no readiness polling: the remote
    schema and the query counter stay as they were, and what follows the
    warning is the execution of [up] and the recording; the missing
    snapshot makes nothing fail. *)
Theorem missing_snapshot_skips_sync fs be appliedSet version file migration migrationId r
    (Hfile : validIndexFile (versionDir fs version) = Some file)
    (Himp : imported file = Imported (Some migration))
    (Hid : truthy (id migration) = Some migrationId)
    (Hnew : migrationId ∉ appliedSet)
    (Hnone : snapshotFile (versionDir fs version) = None) :
  let x := processVersion fs be appliedSet version r in
  let rest := executeAndRecord be version migrationId migration r in
  x = (outcome rest, final rest,
       LogApplying version migrationId :: WarnNoSnapshot version :: trace rest)
  ∧ (∀ e, e ∈ trace x → isPush e = false ∧ isListAttributes e = false)
  ∧ schema (final x) = schema r
  ∧ queries (final x) = queries r
  ∧ (∀ run, up migration = Some run → trace x !! 2%nat = Some (EvUp version))
  ∧ (up migration = None ∨ up migration = Some UpResolves →
     recordMigrationError be migrationId = None → outcome x = Ok tt).
Proof.
  cbv zeta.
  rewrite (processVersion_apply fs be _ _ _ _ _ _ Hfile Himp Hid Hnew).
  destruct (applyVersion_synced fs be version migrationId migration r)
    as (r' & t & -> & _ & _ & Hexact); [by left|].
  destruct (Hexact Hnone) as [-> ->]. clear Hexact. split; [done|].
  rewrite executeAndRecord_run. unfold outcome, final, trace.
  destruct (up migration) as [[|e]|]; simpl;
    destruct (recordMigrationError be migrationId); simpl.
  all: split;
    [intros ev Hev;
     repeat (apply elem_of_cons in Hev as [->|Hev]; [by split|]);
     by apply elem_of_nil in Hev|].
  all: repeat split; try done.
  all: try (intros run [= <-]; done).
  all: try (intros [?|?]; done).
  all: try (intros ? [= <-]; done).
Qed.

Lemma missing_snapshot_skips_sync_witness :
  processVersion missingIndex quietBackend ∅ "v2" emptyRemote
  = (Ok tt, mkRemote [mkApplied "B" "v2"] None 0,
     [LogApplying "v2" "B"; WarnNoSnapshot "v2"; EvUp "v2"; EvRecord "B" "v2";
      LogApplied "v2"]).
Proof.
  destruct (missing_snapshot_skips_sync missingIndex quietBackend ∅ "v2"
              (script "B" (Some UpResolves))
              (mkMigration (Some "B") (Some UpResolves)) "B" emptyRemote)
    as [-> _]; try reflexivity.
  apply not_elem_of_empty.
Defined.

(** ** C8: the status action only reads *)

(** C8: the status action leaves the remote state as it found it, the
    Applied-Set and the schema included, however it ends, and all it
    emits is console output. *)
Theorem status_is_read_only fs be r :
  let x := statusCommand fs be r in
  final x = r
  ∧ documents (final x) = documents r
  ∧ schema (final x) = schema r
  ∧ Forall isStatusOutput (trace x).
Proof.
  cbv zeta. rewrite statusCommand_run.
  destruct (loadConfigError be); [by repeat constructor|].
  destruct (getAppliedMigrationsError be); [by repeat constructor|].
  destruct (migrationsDirExists fs); simpl; [|by repeat constructor].
  repeat split. unfold trace. simpl. apply Forall_fmap, Forall_true. done.
Qed.

(** ** C9: the well-formedness check, and a migration without [up] *)

Lemma truthy_None field : truthy field = None ↔ field = None ∨ field = Some "".
Proof.
  unfold truthy. destruct field as [s|]; [|by split; [left|]].
  destruct (String.eqb_spec s "") as [->|Hne].
  - by split; [right|].
  - split; [done|]. intros [?|[= ?]]; done.
Qed.

Lemma applyVersion_not_invalid fs be version migrationId migration r :
  applyVersion fs be version migrationId migration r
  ≠ (Exit 1, r, [ErrInvalidMigration version]).
Proof.
  intros Heq.
  pose proof (f_equal (fun x => head (trace x)) Heq) as Hhead.
  unfold applyVersion in Hhead. by rewrite bind_emit in Hhead.
Qed.

(** C9: for a version whose index file loads, the check rejects exactly
    a missing default export and a missing or empty [id]; a migration
    that passes it without an [up], not yet applied, goes through the
    remaining steps without any execution of [up] and is recorded in the
    Applied-Set (its snapshot, if any, being pushed and well shaped, and
    the write succeeding). *)
Theorem absent_up_still_recorded fs be appliedSet version file default r
    (Hfile : validIndexFile (versionDir fs version) = Some file)
    (Himp : imported file = Imported default) :
  let x := processVersion fs be appliedSet version r in
  (x = (Exit 1, r, [ErrInvalidMigration version]) ↔
   default = None ∨ ∃ m, default = Some m ∧ (id m = None ∨ id m = Some ""))
  ∧ ∀ m migrationId,
      default = Some m → truthy (id m) = Some migrationId → up m = None →
      migrationId ∉ appliedSet →
      snapshotFile (versionDir fs version) = None
      ∨ (pushSnapshotError be version = None
         ∧ ∀ snap, snapshotFile (versionDir fs version) = Some snap →
                   wellShaped snap = true) →
      recordMigrationError be migrationId = None →
      outcome x = Ok tt
      ∧ (∀ v, EvUp v ∉ trace x)
      ∧ documents (final x) = documents r ++ [mkApplied migrationId version].
Proof.
  cbv zeta. split.
  - unfold processVersion. rewrite Hfile, Himp.
    destruct default as [m|]; [|by split; [left|]].
    destruct (truthy (id m)) as [migrationId|] eqn:Hid.
    + split.
      * destruct (bool_decide _); [done|].
        intros Heq. by apply applyVersion_not_invalid in Heq.
      * intros [?|(m' & [= <-] & Hbad%truthy_None)]; congruence.
    + apply truthy_None in Hid. split; [|done]. intros _. right. by exists m.
  - intros m migrationId -> Hid Hup Hnew Hsync Hwrite.
    rewrite (processVersion_apply fs be _ _ _ _ _ _ Hfile Himp Hid Hnew).
    destruct (applyVersion_synced fs be version migrationId m r Hsync)
      as (r' & t & -> & Hdocs & Ht & _).
    rewrite executeAndRecord_run, Hup, Hwrite.
    unfold outcome, final, trace. simpl. rewrite Hdocs.
    split; [done|]. split; [|done].
    intros v [?|[Hin|Hin]%elem_of_app]%elem_of_cons; [done| |].
    + rewrite Forall_forall in Ht. by apply Ht in Hin.
    + by apply elem_of_cons in Hin as [?|?%list_elem_of_singleton].
Qed.

Lemma absent_up_still_recorded_witness :
  documents (final (processVersion noUp quietBackend ∅ "v1" emptyRemote))
  = [mkApplied "A" "v1"].
Proof.
  destruct (absent_up_still_recorded noUp quietBackend ∅ "v1" (script "A" None)
              (Some (mkMigration (Some "A") None)) emptyRemote)
    as [_ Hrec]; [reflexivity..|].
  destruct (Hrec (mkMigration (Some "A") None) "A") as (_ & _ & ->);
    try reflexivity; [apply not_elem_of_empty|by left].
Defined.

(** ** C10: the id shown by the status listing *)

(** C10, as stated, fails: the version has no [index.ts], so the listing
    shows the id [unknown]; but that word is itself an applied id here,
    and the line reads APPLIED, not PENDING. *)
Lemma status_unknown_counterexample :
  ¬ (∀ version,
       version ∈ versionDirs jsOnlyUnknown →
       indexTs (versionDir jsOnlyUnknown version) = None →
       LogStatus version "unknown" false
       ∈ trace (statusCommand jsOnlyUnknown quietBackend unknownRecorded))
  ∧ trace (statusCommand jsOnlyUnknown quietBackend unknownRecorded)
    = [LogStatus "v1" "unknown" true].
Proof.
  assert (trace (statusCommand jsOnlyUnknown quietBackend unknownRecorded)
          = [LogStatus "v1" "unknown" true]) as Htrace by (by vm_compute).
  split; [|done]. intros Hclaim.
  specialize (Hclaim "v1"). rewrite Htrace in Hclaim.
  assert ("v1" ∈ versionDirs jsOnlyUnknown) as Hin
    by (apply (bool_decide_unpack _); by vm_compute).
  specialize (Hclaim Hin eq_refl).
  by apply list_elem_of_singleton in Hclaim.
Qed.

(** C10, amended: the listing takes the id of a version from the text of
    its [index.ts] through the pattern, whatever the module exports; for
    a version with no [index.ts], or none the pattern matches, it shows
    the id [unknown], and the line reads PENDING whenever [unknown] is
    not itself an applied id, even when the run finds the migration of
    that version in the Applied-Set and skips it. *)
Theorem status_reads_literal_id fs be r version
    (Hconfig : loadConfigError be = None)
    (Hload : getAppliedMigrationsError be = None)
    (Hdir : migrationsDirExists fs = true)
    (Hin : version ∈ versionDirs fs) :
  let t := trace (statusCommand fs be r) in
  (∀ f g, indexTs (versionDir fs version) = Some f → Js.matchId (content f) = Some g →
          LogStatus version g (bool_decide (g ∈ loadedSet r)) ∈ t)
  ∧ ((∀ f, indexTs (versionDir fs version) = Some f → Js.matchId (content f) = None) →
     statusId fs version = "unknown"
     ∧ ("unknown" ∉ loadedSet r →
        LogStatus version "unknown" false ∈ t
        ∧ ∀ file migration migrationId,
            validIndexFile (versionDir fs version) = Some file →
            imported file = Imported (Some migration) →
            truthy (id migration) = Some migrationId →
            migrationId ∈ loadedSet r →
            processVersion fs be (loadedSet r) version r
            = (Ok tt, r, [LogAlreadyApplied version migrationId]))).
Proof.
  cbv zeta. rewrite statusCommand_run, Hconfig, Hload, Hdir. unfold trace. simpl.
  assert (statusEvent fs (loadedSet r) version
          ∈ statusEvent fs (loadedSet r) <$> versionDirs fs) as Hline
    by (by apply list_elem_of_fmap_2).
  split.
  - intros f g Hts Hmatch. unfold statusEvent, statusId in Hline.
    by rewrite Hts, Hmatch in Hline.
  - intros Hnone.
    assert (statusId fs version = "unknown") as Hunknown.
    { unfold statusId. destruct (indexTs (versionDir fs version)) as [f|]; [|done].
      by rewrite (Hnone f eq_refl). }
    split; [done|]. intros Hfresh. split.
    + unfold statusEvent in Hline. by rewrite Hunknown, bool_decide_eq_false_2 in Hline.
    + intros file migration migrationId Hfile Himp Hid Happlied.
      by eapply processVersion_applied.
Qed.

Lemma status_reads_literal_id_witness :
  LogStatus "v1" "unknown" false ∈ trace (statusCommand jsOnly quietBackend appliedA)
  ∧ processVersion jsOnly quietBackend (loadedSet appliedA) "v1" appliedA
    = (Ok tt, appliedA, [LogAlreadyApplied "v1" "A"]).
Proof.
  assert ("v1" ∈ versionDirs jsOnly) as Hin
    by (apply (bool_decide_unpack _); by vm_compute).
  destruct (status_reads_literal_id jsOnly quietBackend appliedA "v1"
              eq_refl eq_refl eq_refl Hin) as [_ Hunknown].
  destruct Hunknown as [_ Hpending]; [by intros f [=]|].
  destruct Hpending as [Hline Hrun].
  { apply (bool_decide_unpack _). by vm_compute. }
  split; [exact Hline|].
  apply (Hrun (script "A" (Some UpResolves)) (mkMigration (Some "A") (Some UpResolves)));
    reflexivity.
Defined.

(** * Further properties of the runner and of the status listing *)

(** ** Discovery *)

Lemma elem_of_listedVersions fs d :
  d ∈ listedVersions fs ↔
  d ∈ readdir fs ∧ Js.startsWith_v d = true ∧ isDirectory fs d = true.
Proof.
  unfold listedVersions. rewrite !list_elem_of_In, filter_In, andb_true_iff. tauto.
Qed.

Lemma elem_of_versionDirs fs d : d ∈ versionDirs fs ↔ d ∈ listedVersions fs.
Proof. by rewrite (versionDirs_Permutation fs). Qed.

(** X1: the run takes up nothing but entries of the listing that are
    directories and whose names start with [v]; and a run that completes
    has taken up every one of them. *)
Theorem only_version_directories_visited fs be r version :
  let x := runMigrations fs be r in
  (version ∈ visited (trace x) →
   version ∈ readdir fs ∧ Js.startsWith_v version = true ∧ isDirectory fs version = true)
  ∧ (outcome x = Ok tt →
     version ∈ readdir fs → Js.startsWith_v version = true →
     isDirectory fs version = true → version ∈ visited (trace x)).
Proof.
  cbv zeta. destruct (runMigrations_visited fs be r) as [[k Hpre] Hall]. split.
  - intros Hin. apply elem_of_listedVersions, elem_of_versionDirs.
    rewrite Hpre. apply elem_of_app. by left.
  - intros Hok H1 H2 H3. rewrite (Hall Hok).
    by apply elem_of_versionDirs, elem_of_listedVersions.
Qed.

Lemma only_version_directories_visited_witness :
  "v10" ∈ visited (trace (runMigrations threeVersions quietBackend appliedA))
  ∧ "notes.txt" ∉ visited (trace (runMigrations threeVersions quietBackend appliedA)).
Proof.
  destruct (only_version_directories_visited threeVersions quietBackend appliedA "v10")
    as [_ Hall].
  destruct (only_version_directories_visited threeVersions quietBackend appliedA
              "notes.txt") as [Honly _].
  split.
  - apply Hall; [by vm_compute| |reflexivity..].
    apply (bool_decide_unpack _). by vm_compute.
  - intros Hin. destruct (Honly Hin) as (_ & Hv & _). discriminate Hv.
Defined.

(** ** Aborts before the execution step *)

Lemma forEach_aborts {A} (body : A → M unit) x l r r1 t1 n :
  body x r = (Exit n, r1, t1) → forEach body (x :: l) r = (Exit n, r1, t1).
Proof. intros Hx. by rewrite forEach_cons, bind_run, Hx. Qed.

Lemma pushSnapshot_fails be version snap e r :
  pushSnapshotError be version = Some e →
  pushSnapshot be version snap r = (Throw e, afterFailedPush be version r, [EvPush version]).
Proof.
  intros Hpush. unfold pushSnapshot, afterFailedPush. rewrite bind_emit.
  unfold mbind, M_bind, bind, getRemote, putRemote, throw. simpl. rewrite Hpush.
  by destruct (pushFailureLeaves be version).
Qed.

(** X2: when the push of a version's snapshot fails, the loop ends there
    with [process.exit(1)], right after the failure is logged.  Nothing
    is done after the failed push, for this version or for a later one:
    the remote state is the one the push left, and the trace holds the
    events of the push followed by the failure message only, so no
    attribute query, no execution of [up] and no call of
    [recordMigration]. *)
Theorem push_failure_aborts fs be appliedSet version file migration migrationId snap e
    later r
    (Hfile : validIndexFile (versionDir fs version) = Some file)
    (Himp : imported file = Imported (Some migration))
    (Hid : truthy (id migration) = Some migrationId)
    (Hnew : migrationId ∉ appliedSet)
    (Hsnap : snapshotFile (versionDir fs version) = Some snap)
    (Hpush : pushSnapshotError be version = Some e) :
  let push := pushSnapshot be version snap r in
  let x := forEach (processVersion fs be appliedSet) (version :: later) r in
  x = (Exit 1, final push,
       LogApplying version migrationId :: trace push ++ [ErrPushFailed version])
  ∧ attemptsIn (trace x) = 0%nat
  ∧ executions (trace x) = 0%nat
  ∧ ∀ i v, EvRecord i v ∉ trace x.
Proof.
  cbv zeta.
  assert (forEach (processVersion fs be appliedSet) (version :: later) r
          = (Exit 1, afterFailedPush be version r,
             [LogApplying version migrationId; EvPush version; ErrPushFailed version]))
    as ->.
  { apply forEach_aborts.
    rewrite (processVersion_apply fs be _ _ _ _ _ _ Hfile Himp Hid Hnew).
    by apply (applyVersion_push_fails fs be _ _ _ snap e). }
  rewrite (pushSnapshot_fails be version snap e r Hpush).
  repeat split.
  intros i v. unfold trace. cbn [snd].
  intros [?|[?|?%list_elem_of_singleton]%elem_of_cons]%elem_of_cons; done.
Qed.

Lemma push_failure_aborts_witness :
  runMigrations withSnapshot pushRejected emptyRemote
  = (Exit 1,
     mkRemote [] (Some ("v1", Snapshot (arrayOf [])
                                       (arrayOf [mkTable "users" "Users" (Some "main")])))
              0,
     [EvConfigure; LogApplying "v1" "A"; EvPush "v1"; ErrPushFailed "v1"]).
Proof.
  rewrite runMigrations_run. simpl.
  change (versionDirs withSnapshot) with ["v1"].
  destruct (push_failure_aborts withSnapshot pushRejected (loadedSet emptyRemote) "v1"
              (script "A" (Some UpResolves)) (mkMigration (Some "A") (Some UpResolves))
              "A" (Snapshot (arrayOf [mkDatabase (Some "main")]) (arrayOf twoTables))
              (mkExn None "push failed") [] emptyRemote) as [-> _];
    try reflexivity.
  apply not_elem_of_empty.
Defined.

(** X3: the script of a version is imported and checked before the
    Applied-Set is consulted: a version whose import throws, or whose
    export has no default or no id, ends the loop with [process.exit(1)]
    whatever the Applied-Set holds, with no remote effect and without
    touching a later version. *)
Theorem unloadable_version_aborts fs be appliedSet version file later r
    (Hfile : validIndexFile (versionDir fs version) = Some file)
    (Hbad : (∃ e, imported file = ImportThrows e)
            ∨ imported file = Imported None
            ∨ ∃ m, imported file = Imported (Some m) ∧ truthy (id m) = None) :
  ∃ ev, forEach (processVersion fs be appliedSet) (version :: later) r = (Exit 1, r, [ev])
        ∧ (ev = ErrImportFailed version ∨ ev = ErrInvalidMigration version).
Proof.
  destruct Hbad as [[e He]|[Hnone|(m & Hm & Hid)]].
  - exists (ErrImportFailed version). split; [|by left].
    apply forEach_aborts. unfold processVersion. by rewrite Hfile, He.
  - exists (ErrInvalidMigration version). split; [|by right].
    apply forEach_aborts. unfold processVersion. by rewrite Hfile, Hnone.
  - exists (ErrInvalidMigration version). split; [|by right].
    apply forEach_aborts. unfold processVersion. by rewrite Hfile, Hm, Hid.
Qed.

Lemma unloadable_version_aborts_witness :
  ∃ ev, forEach (processVersion brokenScript quietBackend (loadedSet appliedA))
                ["v1"; "v2"] appliedA = (Exit 1, appliedA, [ev])
        ∧ (ev = ErrImportFailed "v1" ∨ ev = ErrInvalidMigration "v1").
Proof.
  apply (unloadable_version_aborts brokenScript quietBackend (loadedSet appliedA) "v1"
           (mkIndexFile "export default { id: 'A' }"
                        (ImportThrows (mkExn None "SyntaxError")))).
  - reflexivity.
  - left. by eexists.
Defined.

(** X4: a snapshot file that cannot be parsed does not stop the version:
    it is pushed, the readiness step logs the parse failure and makes no
    attribute query, and the execution and the record follow. *)
Theorem unparsable_snapshot_still_executes fs be appliedSet version file migration
    migrationId r
    (Hfile : validIndexFile (versionDir fs version) = Some file)
    (Himp : imported file = Imported (Some migration))
    (Hid : truthy (id migration) = Some migrationId)
    (Hnew : migrationId ∉ appliedSet)
    (Hsnap : snapshotFile (versionDir fs version) = Some SnapshotUnparsable)
    (Hpush : pushSnapshotError be version = None) :
  let rest := executeAndRecord be version migrationId migration
                (pushed version SnapshotUnparsable r) in
  processVersion fs be appliedSet version r
  = (outcome rest, final rest,
     LogApplying version migrationId :: EvPush version :: ErrSnapshotParse :: trace rest).
Proof.
  cbv zeta. rewrite (processVersion_apply fs be _ _ _ _ _ _ Hfile Himp Hid Hnew).
  unfold applyVersion. rewrite bind_emit.
  assert (schemaSync fs be version r
          = (Ok tt, pushed version SnapshotUnparsable r, [EvPush version])) as Hs.
  { by rewrite schemaSync_run, Hsnap, Hpush. }
  rewrite (bind_Ok _ _ _ _ _ _ Hs). unfold outcome at 1, final at 1, trace at 1. simpl.
  assert (attributePolling fs be version (pushed version SnapshotUnparsable r)
          = (Ok tt, pushed version SnapshotUnparsable r, [ErrSnapshotParse])) as Hp.
  { unfold attributePolling. by rewrite Hsnap. }
  rewrite (bind_Ok _ _ _ _ _ _ Hp). unfold outcome at 1, final at 1, trace at 1. simpl.
  done.
Qed.

Lemma unparsable_snapshot_still_executes_witness :
  processVersion brokenSnapshot stuckBackend ∅ "v1" emptyRemote
  = (Ok tt, mkRemote [mkApplied "A" "v1"] (Some ("v1", SnapshotUnparsable)) 0,
     [LogApplying "v1" "A"; EvPush "v1"; ErrSnapshotParse; EvUp "v1";
      EvRecord "A" "v1"; LogApplied "v1"]).
Proof.
  rewrite (unparsable_snapshot_still_executes brokenSnapshot stuckBackend ∅ "v1"
             (script "A" (Some UpResolves)) (mkMigration (Some "A") (Some UpResolves))
             "A" emptyRemote); try reflexivity.
  apply not_elem_of_empty.
Defined.

(** ** The ends of a run *)

Lemma executeAndRecord_endsCleanly be version migrationId migration r :
  endsCleanly (outcome (executeAndRecord be version migrationId migration r)).
Proof.
  rewrite executeAndRecord_run. unfold endsCleanly.
  destruct (up migration) as [[|e]|]; try (by right; right).
  all: destruct (recordMigrationError be migrationId) as [e'|];
    [right; left; by exists e'|by left].
Qed.

Lemma processVersion_endsCleanly fs be appliedSet version r :
  endsCleanly (outcome (processVersion fs be appliedSet version r)).
Proof.
  unfold processVersion.
  destruct (validIndexFile _) as [file|]; [|by left].
  destruct (imported file) as [e|[migration|]]; try (by right; right).
  destruct (truthy (id migration)) as [migrationId|]; [|by right; right].
  destruct (bool_decide _); [by left|].
  destruct (sync_cases fs be version)
    as [(snap & e & Hsnap & Hpush)|[(snap & Hsnap & Hpush & Hbad)|Hsync]].
  - rewrite (applyVersion_push_fails fs be _ _ _ snap e); [by right; right|done..].
  - destruct (applyVersion_throws fs be version migrationId migration snap r)
      as (r' & t & -> & _); [done..|]. right. left. by eexists.
  - destruct (applyVersion_synced fs be version migrationId migration r)
      as (r' & t & -> & _); [done|]. apply executeAndRecord_endsCleanly.
Qed.

Lemma forEach_endsCleanly {A} (body : A → M unit) l r :
  (∀ x r', endsCleanly (outcome (body x r'))) →
  endsCleanly (outcome (forEach body l r)).
Proof.
  intros Hbody. revert r. induction l as [|x l IH]; intros r; [by left|].
  rewrite forEach_cons, bind_run. specialize (Hbody x r).
  destruct (body x r) as [[[[]|e|n|] r1] t1]; unfold outcome in *; simpl in *;
    try done.
  specialize (IH r1). by destruct (forEach body l r1) as [[??]?].
Qed.

Lemma runMigrations_endsCleanly fs be r :
  endsCleanly (outcome (runMigrations fs be r)).
Proof.
  rewrite runMigrations_run.
  destruct (loadConfigError be) as [e|]; [right; left; by exists e|].
  destruct (configureClientError be) as [e|]; [right; left; by exists e|].
  destruct (migrationsDirExists fs); simpl; [|by right; right].
  destruct (getAppliedMigrationsError be) as [e|]; [right; left; by exists e|].
  apply (forEach_endsCleanly (processVersion fs be (loadedSet r))).
  intros. apply processVersion_endsCleanly.
Qed.

(** X5: the [migrations run] action ends normally or with
    [process.exit(1)], never by an escaping exception, by another status
    or by hanging; it ends normally exactly when [runMigrations] does, and
    it does to the remote state what [runMigrations] does. *)
Theorem runCommand_exit_status fs be r :
  let x := runCommand fs be r in
  (outcome x = Ok tt ∨ outcome x = Exit 1)
  ∧ (outcome x = Ok tt ↔ outcome (runMigrations fs be r) = Ok tt)
  ∧ final x = final (runMigrations fs be r)
  ∧ trace x = trace (runMigrations fs be r).
Proof.
  cbv zeta. unfold runCommand, tryCatch.
  pose proof (runMigrations_endsCleanly fs be r) as Hend.
  destruct (runMigrations fs be r) as [[res r1] t1].
  unfold outcome, final, trace in *. simpl in *.
  destruct Hend as [->|[[e ->]| ->]]; simpl.
  - by repeat split; [left|..].
  - rewrite app_nil_r. by repeat split; [right|..].
  - by repeat split; [right|..].
Qed.

(** ** The readiness loop, answer by answer *)

Lemma pollAnswer_final answer databaseId collectionId :
  (pollAnswer answer databaseId collectionId).1 = isFinalAnswer answer.
Proof.
  destruct answer as [l|e]; simpl.
  - by destruct (forallb isAvailable l).
  - by destruct (bool_decide (code e = Some 500)).
Qed.

Lemma pollAnswer_no_timeout answer databaseId collectionId c :
  WarnTimedOut c ∉ (pollAnswer answer databaseId collectionId).2.
Proof.
  destruct answer as [l|e]; simpl.
  - destruct (forallb isAvailable l); [apply not_elem_of_nil|].
    by intros ?%list_elem_of_singleton.
  - destruct (bool_decide (code e = Some 500)).
    + by intros ?%list_elem_of_singleton.
    + by intros [?|?%list_elem_of_singleton]%elem_of_cons.
Qed.

Lemma sleepsIn_app t1 t2 : sleepsIn (t1 ++ t2) = (sleepsIn t1 + sleepsIn t2)%nat.
Proof. unfold sleepsIn. by rewrite List.filter_app, length_app. Qed.

Lemma pollAnswer_sleeps answer databaseId collectionId :
  sleepsIn (pollAnswer answer databaseId collectionId).2
  = if isFinalAnswer answer then 0%nat else 1%nat.
Proof.
  destruct answer as [l|e]; simpl.
  - by destruct (forallb isAvailable l).
  - by destruct (bool_decide (code e = Some 500)).
Qed.

Section FirstFinalAnswer.
Variable be : Backend.

Lemma pollLoop_step fuel attempts database collectionId r :
  (attempts < MAX_ATTEMPTS)%nat →
  let answer := listAttributes be (queries r) database collectionId in
  let x := pollLoop be (S fuel) attempts database collectionId r in
  ∃ t, attemptsIn t = 0%nat
       ∧ sleepsIn t = (if isFinalAnswer answer then 0 else 1)%nat
       ∧ (WarnTimedOut collectionId ∉ t)
       ∧ if isFinalAnswer answer
         then x = (Ok tt, tick r, EvListAttributes database collectionId :: t)
         else let rest := pollLoop be fuel (S attempts) database collectionId (tick r) in
              x = (outcome rest, final rest,
                   (EvListAttributes database collectionId :: t) ++ trace rest).
Proof.
  intros Hlt. cbv zeta. rewrite pollLoop_unfold.
  destruct (Nat.leb_spec MAX_ATTEMPTS attempts) as [?|_]; [lia|]. cbv zeta.
  pose proof (pollAnswer_final (listAttributes be (queries r) database collectionId)
                database collectionId) as Hfst.
  pose proof (pollAnswer_no_query (listAttributes be (queries r) database collectionId)
                database collectionId) as Hq.
  pose proof (pollAnswer_sleeps (listAttributes be (queries r) database collectionId)
                database collectionId) as Hs.
  pose proof (pollAnswer_no_timeout (listAttributes be (queries r) database collectionId)
                database collectionId collectionId) as Hto.
  destruct (pollAnswer _ _ _) as [b t]. simpl in *. subst b.
  exists t. repeat split; [done..|].
  destruct (isFinalAnswer _); [by rewrite app_nil_r|done].
Qed.

Lemma pollLoop_first_final k fuel attempts database collectionId r :
  (attempts + k < MAX_ATTEMPTS)%nat → (k < fuel)%nat →
  (∀ j, (j < k)%nat →
        isFinalAnswer (listAttributes be (queries r + j) database collectionId) = false) →
  isFinalAnswer (listAttributes be (queries r + k) database collectionId) = true →
  let x := pollLoop be fuel attempts database collectionId r in
  outcome x = Ok tt
  ∧ attemptsIn (trace x) = S k
  ∧ sleepsIn (trace x) = k
  ∧ queries (final x) = (queries r + S k)%nat
  ∧ WarnTimedOut collectionId ∉ trace x.
Proof.
  revert fuel attempts r.
  induction k as [|k IH]; intros fuel attempts r Hmax Hfuel Hnot Hfin;
    (destruct fuel as [|fuel]; [lia|]); cbv zeta;
    (destruct (pollLoop_step fuel attempts database collectionId r)
       as (t & Hq & Hs & Hto & Hx); [lia|]).
  - rewrite Nat.add_0_r in Hfin. rewrite Hfin in Hx, Hs. rewrite Hx.
    unfold outcome, final, trace. cbn [fst snd].
    change (EvListAttributes database collectionId :: t)
      with ([EvListAttributes database collectionId] ++ t).
    rewrite attemptsIn_app, sleepsIn_app, Hq, Hs. repeat split; try (cbn [queries tick]; lia);
      try (unfold attemptsIn, sleepsIn;
           cbn [List.filter isListAttributes isSleep length]; lia).
    by intros [?|?]%elem_of_cons.
  - rewrite <- (Nat.add_0_r (queries r)) in Hx, Hs.
    rewrite (Hnot 0%nat) in Hx, Hs by lia. cbv zeta in Hx. rewrite Hx.
    destruct (IH fuel (S attempts) (tick r)) as (H1 & H2 & H3 & H4 & H5); [lia..| | |].
    { intros j Hj. simpl. rewrite <- Nat.add_succ_r. apply Hnot. lia. }
    { simpl. by rewrite <- Nat.add_succ_r. }
    destruct (pollLoop be fuel (S attempts) database collectionId (tick r))
      as [[res r2] t2].
    unfold outcome, final, trace in *. cbn [fst snd] in *.
    change (EvListAttributes database collectionId :: t)
      with ([EvListAttributes database collectionId] ++ t).
    rewrite !attemptsIn_app, !sleepsIn_app, Hq, Hs, H2, H3, H4.
    repeat split; try done; try (cbn [queries tick]; lia);
      try (unfold attemptsIn, sleepsIn;
           cbn [List.filter isListAttributes isSleep length]; lia).
    intros [[?|?]%elem_of_cons|?]%elem_of_app; done.
Qed.

Lemma pollLoop_never_final fuel attempts database collectionId r :
  (MAX_ATTEMPTS - attempts < fuel)%nat →
  (∀ j, (j < MAX_ATTEMPTS - attempts)%nat →
        isFinalAnswer (listAttributes be (queries r + j) database collectionId) = false) →
  let x := pollLoop be fuel attempts database collectionId r in
  attemptsIn (trace x) = (MAX_ATTEMPTS - attempts)%nat
  ∧ sleepsIn (trace x) = (MAX_ATTEMPTS - attempts)%nat
  ∧ last (trace x) = Some (WarnTimedOut collectionId).
Proof.
  revert attempts r. induction fuel as [|fuel IH]; intros attempts r Hfuel Hnot; [lia|].
  cbv zeta.
  destruct (Nat.leb_spec MAX_ATTEMPTS attempts) as [Hmax|Hlt].
  { rewrite pollLoop_unfold.
    destruct (Nat.leb_spec MAX_ATTEMPTS attempts) as [_|?]; [|lia].
    unfold trace, attemptsIn, sleepsIn. simpl. repeat split; lia. }
  destruct (pollLoop_step fuel attempts database collectionId r)
    as (t & Hq & Hs & Hto & Hx); [lia|].
  rewrite <- (Nat.add_0_r (queries r)) in Hx, Hs.
  rewrite (Hnot 0%nat) in Hx, Hs by lia. cbv zeta in Hx. rewrite Hx.
  destruct (IH (S attempts) (tick r)) as (H1 & H2 & H3); [lia| |].
  { intros j Hj. simpl. rewrite <- Nat.add_succ_r. apply Hnot. lia. }
  destruct (pollLoop be fuel (S attempts) database collectionId (tick r))
    as [[res r2] t2].
  unfold trace in *. cbn [snd] in *.
  change (EvListAttributes database collectionId :: t)
    with ([EvListAttributes database collectionId] ++ t).
  rewrite !attemptsIn_app, !sleepsIn_app, Hq, Hs, H1, H2.
  repeat split; try (cbn [queries tick]; lia);
      try (unfold attemptsIn, sleepsIn;
           cbn [List.filter isListAttributes isSleep length]; lia).
  by rewrite last_app, H3.
Qed.
End FirstFinalAnswer.

(** X6: the polling of a table with a database id stops at the first
    answer that has every attribute available or is a failure with code
    500.  If that is answer number [k] (counting from 0, [k] below 60),
    the table costs exactly [k + 1] queries and [k] waits, one after each
    earlier answer, and no timed-out warning, and no query is made after
    it; if none of the first 60 answers is such, the table costs exactly
    60 queries and 60 waits and ends on the timed-out warning. *)
Theorem polling_stops_at_first_final_answer be table database r
    (Hdb : truthy (databaseId table) = Some database) :
  let answer j := listAttributes be (queries r + j) database (tableId table) in
  let x := pollTable be table r in
  (∀ k, (k < 60)%nat →
        (∀ j, (j < k)%nat → isFinalAnswer (answer j) = false) →
        isFinalAnswer (answer k) = true →
        outcome x = Ok tt
        ∧ attemptsIn (trace x) = S k
        ∧ sleepsIn (trace x) = k
        ∧ queries (final x) = (queries r + S k)%nat
        ∧ WarnTimedOut (tableId table) ∉ trace x)
  ∧ ((∀ j, (j < 60)%nat → isFinalAnswer (answer j) = false) →
     attemptsIn (trace x) = 60%nat
     ∧ sleepsIn (trace x) = 60%nat
     ∧ last (trace x) = Some (WarnTimedOut (tableId table))).
Proof.
  cbv zeta. unfold pollTable. rewrite Hdb. split.
  - intros k Hk Hnot Hfin.
    apply pollLoop_first_final; [unfold MAX_ATTEMPTS; lia..|done|done].
  - intros Hnot. apply (pollLoop_never_final be (S MAX_ATTEMPTS) 0); [lia|].
    intros j Hj. apply Hnot. unfold MAX_ATTEMPTS in Hj. lia.
Qed.

Lemma polling_stops_at_first_final_answer_witness :
  (attemptsIn (trace (pollTable flakyBackend scenarioTable emptyRemote)) = 4%nat
   ∧ sleepsIn (trace (pollTable flakyBackend scenarioTable emptyRemote)) = 3%nat)
  ∧ attemptsIn (trace (pollTable stuckBackend scenarioTable emptyRemote)) = 60%nat.
Proof.
  destruct (polling_stops_at_first_final_answer flakyBackend scenarioTable "db"
              emptyRemote eq_refl) as [Hfirst _].
  destruct (polling_stops_at_first_final_answer stuckBackend scenarioTable "db"
              emptyRemote eq_refl) as [_ Hnever].
  split.
  - destruct (Hfirst 3%nat) as (_ & Hn & Hs & _); [lia| |reflexivity|by split].
    intros j Hj. destruct j as [|[|[|j]]]; [reflexivity..|lia].
  - by apply Hnever.
Defined.

(** ** The cost of the readiness step *)




(** ** What is recorded, and what the listing shows *)

Section RecordCalls.
Variables (fs : FileSystem) (be : Backend).

Lemma processVersion_record appliedSet version r i v :
  EvRecord i v ∈ trace (processVersion fs be appliedSet version r) →
  v = version ∧ (i ∉ appliedSet)
  ∧ ∃ file m,
      validIndexFile (versionDir fs version) = Some file
      ∧ imported file = Imported (Some m)
      ∧ truthy (id m) = Some i
      ∧ (∀ e, up m ≠ Some (UpRejects e))
      ∧ (snapshotFile (versionDir fs version) = None
         ∨ pushSnapshotError be version = None).
Proof.
  unfold processVersion.
  destruct (validIndexFile (versionDir fs version)) as [file|] eqn:Hfile;
    [|by intros ?%list_elem_of_singleton].
  destruct (imported file) as [e|[m|]] eqn:Himp;
    try by (unfold trace; simpl; intros ?%list_elem_of_singleton).
  destruct (truthy (id m)) as [migrationId|] eqn:Hid;
    [|by (unfold trace; simpl; intros ?%list_elem_of_singleton)].
  destruct (bool_decide_reflect (migrationId ∈ appliedSet)) as [Hin|Hnew];
    [by intros ?%list_elem_of_singleton|].
  destruct (sync_cases fs be version)
    as [(snap & e & Hsnap & Hpush)|[(snap & Hsnap & Hpush & Hbad)|Hsync]].
  { rewrite (applyVersion_push_fails fs be _ _ _ snap e r Hsnap Hpush).
    unfold trace. simpl.
    intros [?|[?|?%list_elem_of_singleton]%elem_of_cons]%elem_of_cons; done. }
  { destruct (applyVersion_throws fs be version migrationId m snap r)
      as (r' & t & -> & _ & Ht); [done..|].
    unfold trace. simpl. intros [?|Hin]%elem_of_cons; [done|].
    rewrite Forall_forall in Ht. by apply Ht in Hin. }
  assert (snapshotFile (versionDir fs version) = None
          ∨ pushSnapshotError be version = None) as Hs.
  { destruct Hsync as [?|[? _]]; auto. }
  destruct (applyVersion_synced fs be version migrationId m r)
    as (r' & t & -> & _ & Ht & _); [done|].
  unfold trace at 1; cbn [fst snd]; rewrite executeAndRecord_run.
  intros [?|[Hin|Hin]%elem_of_app]%elem_of_cons; [done| |].
  { rewrite Forall_forall in Ht. by apply Ht in Hin. }
  destruct (up m) as [[|e]|] eqn:Hup;
    destruct (recordMigrationError be migrationId); unfold trace in Hin; cbn [fst snd] in Hin.
  all: repeat (apply elem_of_cons in Hin as [Hin|Hin]; [try done|]);
    try (by apply elem_of_nil in Hin).
  all: injection Hin as -> ->; split; [done|]; split; [done|]; exists file, m.
  all: repeat split; try done; auto.
  all: intros e'; rewrite Hup; congruence.
Qed.
End RecordCalls.

(** X8: [recordMigration] is called only for a discovered version, with
    the id its own script exports, an id that was not in the loaded
    Applied-Set; never for a version whose [up] rejected or whose push
    failed. *)
Theorem record_calls_are_justified fs be r i v
    (Hcall : EvRecord i v ∈ trace (runMigrations fs be r)) :
  v ∈ versionDirs fs ∧ (i ∉ loadedSet r)
  ∧ ∃ file m,
      validIndexFile (versionDir fs v) = Some file
      ∧ imported file = Imported (Some m)
      ∧ truthy (id m) = Some i
      ∧ (∀ e, up m ≠ Some (UpRejects e))
      ∧ (snapshotFile (versionDir fs v) = None ∨ pushSnapshotError be v = None).
Proof.
  revert Hcall. rewrite runMigrations_run.
  destruct (loadConfigError be); [by intros ?%elem_of_nil|].
  destruct (configureClientError be); [by intros ?%list_elem_of_singleton|].
  destruct (migrationsDirExists fs); simpl.
  2: { by intros [?|?%list_elem_of_singleton]%elem_of_cons. }
  destruct (getAppliedMigrationsError be); [by intros ?%list_elem_of_singleton|].
  unfold trace at 1. cbn [fst snd]. intros [?|Hin]%elem_of_cons; [done|].
  apply forEach_trace_elem in Hin as (version & r' & Hv & Hin).
  apply processVersion_record in Hin as (-> & Hnew & Hrest). by split.
Qed.

Lemma record_calls_are_justified_witness :
  "v2" ∈ versionDirs (scenario UpResolves) ∧ ("B" ∉ loadedSet appliedA).
Proof.
  destruct (record_calls_are_justified (scenario UpResolves) quietBackend appliedA
              "B" "v2") as (Hin & Hnew & _); [|by split].
  apply (bool_decide_unpack _). by vm_compute.
Defined.

(** X9: when the text of [index.ts] states the id that the script
    exports, the listing and the run agree on the version: the line reads
    APPLIED exactly when the run skips the version as already applied,
    and PENDING exactly when the run goes on to apply it. *)
Theorem status_agrees_with_run fs be r version f m g
    (Hconfig : loadConfigError be = None)
    (Hload : getAppliedMigrationsError be = None)
    (Hdir : migrationsDirExists fs = true)
    (Hin : version ∈ versionDirs fs)
    (Hts : indexTs (versionDir fs version) = Some f)
    (Hlit : Js.matchId (content f) = Some g)
    (Himp : imported f = Imported (Some m))
    (Hid : truthy (id m) = Some g) :
  let applied := bool_decide (g ∈ loadedSet r) in
  LogStatus version g applied ∈ trace (statusCommand fs be r)
  ∧ (applied = true →
     processVersion fs be (loadedSet r) version r
     = (Ok tt, r, [LogAlreadyApplied version g]))
  ∧ (applied = false →
     processVersion fs be (loadedSet r) version r = applyVersion fs be version g m r).
Proof.
  cbv zeta.
  assert (validIndexFile (versionDir fs version) = Some f) as Hfile.
  { unfold validIndexFile. by rewrite Hts. }
  split; [|split].
  - rewrite statusCommand_run, Hconfig, Hload, Hdir. unfold trace. simpl.
    assert (statusEvent fs (loadedSet r) version
            ∈ statusEvent fs (loadedSet r) <$> versionDirs fs) as Hline
      by (by apply list_elem_of_fmap_2).
    unfold statusEvent, statusId in Hline. by rewrite Hts, Hlit in Hline.
  - intros Happlied%bool_decide_eq_true. by eapply processVersion_applied.
  - intros Hpending%bool_decide_eq_false. by eapply processVersion_apply.
Qed.

Lemma status_agrees_with_run_witness :
  LogStatus "v1" "A" true ∈ trace (statusCommand threeVersions quietBackend appliedA)
  ∧ LogStatus "v2" "B" false ∈ trace (statusCommand threeVersions quietBackend appliedA).
Proof.
  split.
  - apply (status_agrees_with_run threeVersions quietBackend appliedA "v1"
             (script "A" (Some UpResolves)) (mkMigration (Some "A") (Some UpResolves)) "A");
      try reflexivity.
    apply (bool_decide_unpack _). by vm_compute.
  - apply (status_agrees_with_run threeVersions quietBackend appliedA "v2"
             (script "B" (Some UpResolves)) (mkMigration (Some "B") (Some UpResolves)) "B");
      try reflexivity.
    apply (bool_decide_unpack _). by vm_compute.
Defined.

(** * Further properties: the action of [migrations create] *)

(** ** Printing a number and reading it back *)

Example numberToString_samples :
  Js.numberToString 0 = "0" ∧ Js.numberToString 120 = "120"
  ∧ Js.numberToString (-45) = "-45"
  ∧ Js.numberToString 9007199254740991 = "9007199254740991".
Proof. by vm_compute. Qed.

Lemma digitValue_digitChar d : 0 <= d < 10 → Js.digitValue 10 (Js.digitChar d) = Some d.
Proof.
  intros Hd. unfold Js.digitValue, Js.digitChar, Js.codeUnit.
  rewrite N_ascii_embedding by lia.
  rewrite Z2N.id by lia.
  replace ((48 <=? 48 + d) && (48 + d <=? 57)) with true.
  2: { symmetry. apply andb_true_iff. split; apply Z.leb_le; lia. }
  replace (48 + d - 48) with d by lia.
  destruct (Z.ltb_spec d 10); [done|lia].
Qed.

Lemma parseDigits_digitsOf fuel n acc :
  0 <= n < 2 ^ Z.of_nat fuel →
  ∃ k, 0 < k ∧ ∀ a, Js.parseDigits 10 (Js.digitsOf fuel n acc) a
                    = Js.parseDigits 10 acc (a * k + n).
Proof.
  revert n acc. induction fuel as [|fuel IH]; intros n acc Hn.
  { exists 1. split; [lia|]. intros a. simpl. f_equal. simpl in Hn. lia. }
  cbn [Js.digitsOf]. cbv zeta.
  destruct (Z.ltb_spec n 10) as [Hlt|Hge].
  - exists 10. split; [lia|]. intros a. cbn [Js.parseDigits].
    rewrite Z.mod_small by lia. rewrite digitValue_digitChar by lia. done.
  - destruct (IH (n / 10) (String (Js.digitChar (n mod 10)) acc)) as (k & Hk & Heq).
    { split; [apply Z.div_pos; lia|].
      rewrite Nat2Z.inj_succ, Z.pow_succ_r in Hn by lia.
      apply Z.div_lt_upper_bound; lia. }
    exists (k * 10). split; [lia|]. intros a. rewrite Heq. cbn [Js.parseDigits].
    rewrite digitValue_digitChar by (apply Z.mod_pos_bound; lia).
    f_equal. pose proof (Z.div_mod n 10). lia.
Qed.

Lemma digit_code c : is_Some (Js.digitValue 10 c) → (48 <= Js.codeUnit c <= 57)%N.
Proof.
  unfold Js.digitValue. intros [v Hv].
  set (n := Z.of_N (Js.codeUnit c)) in *.
  destruct (Z.leb_spec 48 n); destruct (Z.leb_spec n 57); simpl in Hv; try lia.
  all: destruct (Z.leb_spec 97 n); destruct (Z.leb_spec n 122); simpl in Hv.
  all: try (destruct (Z.ltb_spec (n - 97 + 10) 10); [lia|done]).
  all: destruct (Z.leb_spec 65 n); destruct (Z.leb_spec n 90); simpl in Hv.
  all: try (destruct (Z.ltb_spec (n - 65 + 10) 10); [lia|done]).
  all: try (destruct (Z.ltb_spec 10 10); [lia|done]).
Qed.

Lemma digitsOf_allDigits fuel n acc :
  0 <= n → allDigits acc → allDigits (Js.digitsOf fuel n acc).
Proof.
  revert n acc. induction fuel as [|fuel IH]; intros n acc Hn Hacc; [done|].
  cbn [Js.digitsOf]. cbv zeta.
  assert (allDigits (String (Js.digitChar (n mod 10)) acc)) as Hacc'.
  { split; [|done]. rewrite digitValue_digitChar; [done|]. apply Z.mod_pos_bound. lia. }
  destruct (n <? 10); [done|]. apply IH; [|done]. apply Z.div_pos; lia.
Qed.

Lemma digitsOf_nonempty fuel n acc : Js.digitsOf (S fuel) n acc ≠ "".
Proof.
  revert n acc. induction fuel as [|fuel IH]; intros n acc; cbn [Js.digitsOf]; cbv zeta.
  - by destruct (n <? 10).
  - destruct (n <? 10); [done|]. apply IH.
Qed.

Lemma parseInt_digits s :
  s ≠ "" → allDigits s → Js.parseInt s = Some (Js.parseDigits 10 s 0).
Proof.
  destruct s as [|c r]; [done|]. intros _ [Hc Hr].
  pose proof (digit_code c Hc) as Hcode.
  unfold Js.parseInt. cbn [Js.trimStart].
  assert (Js.isWhiteSpace c = false) as ->.
  { unfold Js.isWhiteSpace. 
    destruct (N.leb_spec 9 (Js.codeUnit c)); destruct (N.leb_spec (Js.codeUnit c) 13);
      destruct (N.eqb_spec (Js.codeUnit c) 32); destruct (N.eqb_spec (Js.codeUnit c) 160);
      simpl; lia. }
  destruct (N.eqb_spec (Js.codeUnit c) 45); [lia|].
  destruct (N.eqb_spec (Js.codeUnit c) 43); [lia|].
  assert (match r with
          | String x r0 =>
              if (Js.codeUnit c =? 48)%N && ((Js.codeUnit x =? 120)%N || (Js.codeUnit x =? 88)%N)
              then (16, r0) else (10, String c r)
          | EmptyString => (10, String c r)
          end = (10, String c r)) as ->.
  { destruct r as [|x r0]; [done|]. destruct Hr as [Hx _].
    pose proof (digit_code x Hx).
    destruct (N.eqb_spec (Js.codeUnit x) 120); [lia|].
    destruct (N.eqb_spec (Js.codeUnit x) 88); [lia|].
    by rewrite andb_false_r. }
  destruct Hc as [v ->]. f_equal. lia.
Qed.

Lemma no_hex_prefix c r :
  allDigits (String c r) →
  match String c r with
  | String z (String x r0) =>
      if (Js.codeUnit z =? 48)%N && ((Js.codeUnit x =? 120)%N || (Js.codeUnit x =? 88)%N)
      then (16, r0) else (10, String c r)
  | _ => (10, String c r)
  end = (10, String c r).
Proof.
  intros [_ Hr]. destruct r as [|x r0]; [done|]. destruct Hr as [Hx _].
  pose proof (digit_code x Hx).
  destruct (N.eqb_spec (Js.codeUnit x) 120); [lia|].
  destruct (N.eqb_spec (Js.codeUnit x) 88); [lia|].
  by rewrite andb_false_r.
Qed.

Lemma parseInt_minus_digits s :
  s ≠ "" → allDigits s → Js.parseInt (String "-" s) = Some (- Js.parseDigits 10 s 0).
Proof.
  destruct s as [|c r]; [done|]. intros _ Hs.
  unfold Js.parseInt. cbn [Js.trimStart].
  change (Js.isWhiteSpace "-") with false. cbv iota.
  change (Js.codeUnit "-" =? 45)%N with true. cbv iota.
  rewrite (no_hex_prefix c r Hs). destruct Hs as [[v ->] _]. f_equal; lia.
Qed.

Lemma parseInt_numberToString n : Js.parseInt (Js.numberToString n) = Some n.
Proof.
  unfold Js.numberToString. destruct (Z.ltb_spec n 0) as [Hneg|Hpos].
  - rewrite parseInt_minus_digits;
      [|apply digitsOf_nonempty|apply digitsOf_allDigits; [lia|done]].
    destruct (parseDigits_digitsOf (S (Z.to_nat (Z.log2 (- n)))) (- n) "") as (k & _ & ->).
    { split; [lia|]. rewrite Nat2Z.inj_succ, Z2Nat.id by apply Z.log2_nonneg.
      apply Z.log2_spec. lia. }
    simpl. f_equal. lia.
  - rewrite parseInt_digits;
      [|apply digitsOf_nonempty|by apply digitsOf_allDigits].
    destruct (parseDigits_digitsOf (S (Z.to_nat (Z.log2 n))) n "") as (k & _ & ->).
    { split; [lia|]. rewrite Nat2Z.inj_succ, Z2Nat.id by apply Z.log2_nonneg.
      destruct (Z.eq_dec n 0) as [->|]; [done|]. apply Z.log2_spec. lia. }
    simpl. f_equal.
Qed.

(** ** The next version *)

(** After [v1], [v2] and [v10] comes [v11]; after [v01] and [v1], [v2];
    without a migrations directory, [v1]; and after a directory whose
    name carries no number, [vNaN]. *)
Example nextVersion_samples :
  Create.versionName (Create.nextVersion threeVersions) = "v11"
  ∧ Create.versionName (Create.nextVersion tiedVersions) = "v2"
  ∧ Create.versionName (Create.nextVersion (mkFileSystem false [] ∅)) = "v1"
  ∧ Create.versionName
      (Create.nextVersion
         (mkFileSystem true ["vnext"]
            (<["vnext" := Directory (mkVersionDir None None None)]> ∅))) = "vNaN".
Proof. by vm_compute. Qed.

Lemma sortInsert_fmap {A B} (f : A → B) cmp cmp' a l :
  (∀ x y, cmp x y = cmp' (f x) (f y)) →
  sortInsert cmp' (f a) (f <$> l) = f <$> sortInsert cmp a l.
Proof.
  intros Hcmp. induction l as [|b l IH]; [done|].
  cbn [sortInsert fmap list_fmap]. unfold sortCompare. rewrite <- Hcmp.
  destruct (match cmp a b with Some v => v | None => 0 end <=? 0); [done|].
  cbn [fmap list_fmap]. f_equal. apply IH.
Qed.

Lemma jsSort_fmap {A B} (f : A → B) cmp cmp' l :
  (∀ x y, cmp x y = cmp' (f x) (f y)) →
  jsSort cmp' (f <$> l) = f <$> jsSort cmp l.
Proof.
  intros Hcmp. induction l as [|a l IH]; [done|].
  cbn [jsSort fmap list_fmap]. fold (f <$> l). rewrite IH.
  by apply sortInsert_fmap.
Qed.

(** The sorted numbers of [create] are the ordinals of the sorted names
    of [run] and [status]. *)
Lemma Create_versionDirs_ordinals fs :
  migrationsDirExists fs = true →
  Create.versionDirs fs = ordinal <$> versionDirs fs.
Proof.
  intros Hdir. unfold Create.versionDirs, versionDirs. rewrite Hdir.
  by apply jsSort_fmap.
Qed.

Lemma sorted_last_is_greatest l z :
  StronglySorted ordinalLe l → last l = Some z →
  ∀ d, d ∈ l → d = z ∨ ordinalLe d z.
Proof.
  intros Hs [l' ->]%last_Some d [Hd|Hd%list_elem_of_singleton]%elem_of_app; [|by left].
  right. eapply StronglySorted_app_1_elem_of; [exact Hs|done|by left].
Qed.

Lemma ordinal_versionName n : ordinal (Create.versionName (Some n)) = Some n.
Proof. apply parseInt_numberToString. Qed.

Lemma nextVersion_greatest fs :
  numbered fs → migrationsDirExists fs = true →
  ∃ n, Create.nextVersion fs = Some n
       ∧ Z.abs n < 2 ^ 53
       ∧ ∀ d, d ∈ listedVersions fs → ∃ x, ordinal d = Some x ∧ x < n.
Proof.
  intros Hnum Hdir. unfold Create.nextVersion.
  rewrite (Create_versionDirs_ordinals fs Hdir), fmap_last.
  destruct (last (versionDirs fs)) as [z|] eqn:Hlast; simpl.
  - assert (z ∈ versionDirs fs) as Hz.
    { apply last_Some in Hlast as [l' ->]. apply elem_of_app. right. by left. }
    pose proof Hnum as Hnum'. unfold numbered in Hnum'. rewrite Forall_forall in Hnum'.
    destruct (Hnum' z) as (n & Hn & Hsafe); [by apply elem_of_versionDirs|].
    rewrite Hn. exists (n + 1). split; [done|]. split; [lia|].
    intros d Hd%elem_of_versionDirs.
    destruct (sorted_last_is_greatest (versionDirs fs) z) with (d := d)
      as [->|(x & y & Hx & Hy & Hxy)]; [|done..| |].
    + by apply versionDirs_ascending, numbered_is_Some.
    + exists n. split; [done|lia].
    + exists x. split; [done|]. rewrite Hn in Hy. injection Hy as <-. lia.
  - exists 1. split; [done|]. split; [done|].
    assert (listedVersions fs = []) as ->.
    { apply last_None in Hlast. apply Permutation_nil_r.
      rewrite <- Hlast. symmetry. apply versionDirs_Permutation. }
    by intros d ?%elem_of_nil.
Qed.

Lemma List_filter_Permutation {A} (p : A → bool) l l' :
  l ≡ₚ l' → List.filter p l ≡ₚ List.filter p l'.
Proof.
  induction 1 as [|x l l' _ IH|x y l|l l' l'' _ IH1 _ IH2]; simpl.
  - done.
  - destruct (p x); by rewrite IH.
  - destruct (p x), (p y); by try apply perm_swap.
  - by rewrite IH1.
Qed.

Lemma created_listedVersions fs name d fs' :
  created fs name d fs' → Js.startsWith_v name = true →
  listedVersions fs' ≡ₚ name :: listedVersions fs.
Proof.
  intros (Hnew & _ & Hperm & Hent) Hv. unfold listedVersions.
  rewrite (List_filter_Permutation _ _ _ Hperm). cbn [List.filter].
  assert (isDirectory fs' name = true) as Hdir.
  { unfold isDirectory. by rewrite Hent, lookup_insert_eq. }
  rewrite Hv, Hdir. cbn [andb]. constructor.
  erewrite filter_ext_in; [done|]. intros a Ha%list_elem_of_In. f_equal.
  unfold isDirectory. rewrite Hent, lookup_insert_ne; [done|].
  intros ->. contradiction.
Qed.

(** ** The template and the pattern of the status listing *)

Lemma spanNonQuote_app s q rest :
  noQuote s → Js.isQuote q = true →
  Js.spanNonQuote (s ++ String q rest)%string = (s, String q rest).
Proof.
  intros Hs Hq. induction s as [|c s IH]; simpl.
  - by rewrite Hq.
  - destruct Hs as [-> Hs]. by rewrite IH.
Qed.

Lemma matchId_header X c run q t :
  Js.spanNonQuote X = (String c run, String q t) →
  Js.matchId (Create.header ++ "  id: " ++ Create.dq ++ X)%string = Some (String c run).
Proof.
  intros H. cbv -[Js.spanNonQuote]. rewrite H. reflexivity.
Qed.

Lemma matchId_indexContent uuid name :
  uuid ≠ "" → noQuote uuid →
  Js.matchId (Create.indexContent uuid name) = Some uuid.
Proof.
  intros Hne Hq. unfold Create.indexContent.
  destruct uuid as [|c run]; [done|].
  apply (matchId_header _ c run "034" (Create.footer name)).
  by apply (spanNonQuote_app (String c run) "034").
Qed.

(** ** The new version, the run and the listing *)

(** X10: the name that [create] gives to version number [n] starts with
    [v] and carries the ordinal [n] for [run] and [status]: printing the
    number and reading the name back with [parseInt] is the identity. *)
Theorem version_name_reads_back n (Hsafe : Z.abs n < 2 ^ 53) :
  Js.startsWith_v (Create.versionName (Some n)) = true
  ∧ ordinal (Create.versionName (Some n)) = Some n.
Proof. split; [done|apply ordinal_versionName]. Qed.

Lemma version_name_reads_back_witness :
  Js.startsWith_v (Create.versionName (Some 11)) = true
  ∧ ordinal (Create.versionName (Some 11)) = Some 11.
Proof. apply version_name_reads_back. reflexivity. Defined.

(** X11: when the migrations directory exists and every version
    directory carries a number below 2^52 in magnitude, the number of the
    next version, itself below 2^53 in magnitude, is greater than the
    ordinal of every one of them, so the
    name of the new directory is not the name of a version directory;
    with no version directory the number is 1. *)
Theorem next_version_is_fresh fs
    (Hnum : numbered fs) (Hdir : migrationsDirExists fs = true) :
  ∃ n, Create.nextVersion fs = Some n
       ∧ Z.abs n < 2 ^ 53
       ∧ (∀ d, d ∈ listedVersions fs → ∃ x, ordinal d = Some x ∧ x < n)
       ∧ (Create.versionName (Some n) ∉ listedVersions fs)
       ∧ (listedVersions fs = [] → n = 1).
Proof.
  destruct (nextVersion_greatest fs Hnum Hdir) as (n & Hn & Hsafe & Hlt).
  exists n. split; [done|]. split; [done|]. repeat split; [done| |].
  - intros (x & Hx & Hxn)%Hlt. rewrite ordinal_versionName in Hx. injection Hx. lia.
  - intros Hnil. unfold Create.nextVersion, Create.versionDirs in Hn.
    rewrite Hdir, Hnil in Hn. by injection Hn.
Qed.

Lemma next_version_is_fresh_witness :
  ∃ n, Create.nextVersion threeVersions = Some n
       ∧ Z.abs n < 2 ^ 53
       ∧ (∀ d, d ∈ listedVersions threeVersions → ∃ x, ordinal d = Some x ∧ x < n)
       ∧ (Create.versionName (Some n) ∉ listedVersions threeVersions)
       ∧ (listedVersions threeVersions = [] → n = 1).
Proof.
  apply next_version_is_fresh; [|reflexivity].
  unfold numbered. change (listedVersions threeVersions) with ["v2"; "v10"; "v1"].
  repeat constructor; eexists; (split; reflexivity).
Defined.

(** X12: when the migrations directory exists and every version
    directory carries a number below 2^52 in magnitude, the version that
    [create] adds, under the name of the next number, is the last of the
    sorted versions, strictly after every other one, and so the last
    version that a complete run takes up. *)
Theorem created_version_runs_last fs fs' n d be r
    (Hnum : numbered fs) (Hdir : migrationsDirExists fs = true)
    (Hnext : Create.nextVersion fs = Some n)
    (Hcreated : created fs (Create.versionName (Some n)) d fs') :
  let version := Create.versionName (Some n) in
  last (versionDirs fs') = Some version
  ∧ (∀ other, other ∈ versionDirs fs' → other ≠ version → ordinalLt other version)
  ∧ (outcome (runMigrations fs' be r) = Ok tt →
     last (visited (trace (runMigrations fs' be r))) = Some version).
Proof.
  cbv zeta. set (version := Create.versionName (Some n)).
  destruct (nextVersion_greatest fs Hnum Hdir) as (n' & Hn' & _ & Hlt).
  rewrite Hnext in Hn'. injection Hn' as <-.
  pose proof (created_listedVersions fs version d fs' Hcreated eq_refl) as Hadded.
  pose proof (ordinal_versionName n) as Hord. fold version in Hord.
  assert (∀ other, other ∈ versionDirs fs' → other ≠ version → ordinalLt other version)
    as Hothers.
  { intros other Hin%elem_of_versionDirs Hne. rewrite Hadded in Hin.
    apply elem_of_cons in Hin as [->|Hold]; [done|].
    destruct (Hlt other Hold) as (x & Hx & Hxn). by exists x, n. }
  assert (Forall (fun d => is_Some (ordinal d)) (listedVersions fs')) as Hnum'.
  { rewrite Hadded. constructor; [by rewrite Hord|by apply numbered_is_Some]. }
  assert (last (versionDirs fs') = Some version) as Hlast.
  { assert (version ∈ versionDirs fs') as Hin.
    { apply elem_of_versionDirs. rewrite Hadded. by left. }
    destruct (last (versionDirs fs')) as [z|] eqn:Hz.
    2: { apply last_None in Hz. rewrite Hz in Hin. by apply elem_of_nil in Hin. }
    destruct (decide (z = version)) as [->|Hne]; [done|].
    assert (z ∈ versionDirs fs') as Hzin.
    { apply last_Some in Hz as [l' ->]. apply elem_of_app. right. by left. }
    destruct (Hothers z Hzin Hne) as (x & y & Hx & Hy & Hxy).
    destruct (sorted_last_is_greatest (versionDirs fs') z) with (d := version)
      as [Heq|(x' & y' & Hx' & Hy' & Hxy')]; [by apply versionDirs_ascending|done..| |].
    - by rewrite Heq in Hne.
    - rewrite Hx in Hy'. rewrite Hy in Hx'. injection Hy' as <-. injection Hx' as <-. lia. }
  repeat split; [done..|]. intros Hok.
  destruct (runMigrations_visited fs' be r) as [_ Hall]. by rewrite (Hall Hok).
Qed.

Lemma created_version_runs_last_witness :
  last (versionDirs (fourVersions "1b9d6bcd")) = Some "v11"
  ∧ (∀ other, other ∈ versionDirs (fourVersions "1b9d6bcd") → other ≠ "v11" →
              ordinalLt other "v11")
  ∧ (outcome (runMigrations (fourVersions "1b9d6bcd") quietBackend appliedA) = Ok tt →
     last (visited (trace (runMigrations (fourVersions "1b9d6bcd") quietBackend appliedA)))
     = Some "v11").
Proof.
  apply (created_version_runs_last threeVersions (fourVersions "1b9d6bcd") 11
           (eleventh "1b9d6bcd") quietBackend appliedA).
  - unfold numbered. change (listedVersions threeVersions) with ["v2"; "v10"; "v1"].
    repeat constructor; eexists; (split; reflexivity).
  - reflexivity.
  - reflexivity.
  - repeat split; [apply (bool_decide_unpack _); by vm_compute|reflexivity].
Defined.

(** X13: the listing of [status] shows, for a version made by [create],
    the id that [create] wrote into its index file: the pattern finds the
    [id] line of the template, whatever the name, provided the id is not
    empty and holds no quote. *)
Theorem status_shows_created_id fs fs' version d uuid name imp
    (Hcreated : created fs version d fs')
    (Hindex : indexTs d = Some (mkIndexFile (Create.indexContent uuid name) imp))
    (Hne : uuid ≠ "") (Hq : noQuote uuid) :
  statusId fs' version = uuid
  ∧ ∀ appliedSet r,
      statusLine fs' appliedSet version r
      = (Ok tt, r, [LogStatus version uuid (bool_decide (uuid ∈ appliedSet))]).
Proof.
  destruct Hcreated as (_ & _ & _ & Hent).
  assert (statusId fs' version = uuid) as Hid.
  { unfold statusId, versionDir. rewrite Hent, lookup_insert_eq, Hindex.
    cbn [content]. by rewrite matchId_indexContent. }
  split; [done|]. intros appliedSet r. unfold statusLine. by rewrite Hid.
Qed.

Lemma status_shows_created_id_witness :
  statusId (fourVersions "1b9d6bcd-bbfd-4b2d-9b5d-ab8dfbbd4bed") "v11"
  = "1b9d6bcd-bbfd-4b2d-9b5d-ab8dfbbd4bed"
  ∧ ∀ appliedSet r,
      statusLine (fourVersions "1b9d6bcd-bbfd-4b2d-9b5d-ab8dfbbd4bed") appliedSet "v11" r
      = (Ok tt, r,
         [LogStatus "v11" "1b9d6bcd-bbfd-4b2d-9b5d-ab8dfbbd4bed"
            (bool_decide ("1b9d6bcd-bbfd-4b2d-9b5d-ab8dfbbd4bed" ∈ appliedSet))]).
Proof.
  apply (status_shows_created_id threeVersions
           (fourVersions "1b9d6bcd-bbfd-4b2d-9b5d-ab8dfbbd4bed") "v11"
           (eleventh "1b9d6bcd-bbfd-4b2d-9b5d-ab8dfbbd4bed")
           "1b9d6bcd-bbfd-4b2d-9b5d-ab8dfbbd4bed" "migration_v11"
           (Imported (Some (mkMigration (Some "1b9d6bcd-bbfd-4b2d-9b5d-ab8dfbbd4bed")
                                        (Some UpResolves))))).
  - repeat split; [apply (bool_decide_unpack _); by vm_compute|reflexivity].
  - reflexivity.
  - discriminate.
  - by vm_compute.
Defined.
(** * Further properties: [loadConfig] *)

(** An endpoint that is only white space counts as missing; the legacy
    key is read when the current one is missing, and a config file that
    holds [null] gives the defaults and the warning. *)
Example loadConfig_samples :
  Config.loadConfig sampleProtocol (sampleEnv "   ") Config.Missing
  = Config.Thrown (mkExn None Config.missingVariables)
  ∧ Config.loadConfig sampleProtocol (sampleEnv "https://cloud.example/v1")
      (Config.Parsed (Config.JObject [("databaseId", Config.JString "old")]))
    = Config.Returned
        (Config.mkAppConfig "https://cloud.example/v1" "project" "key"
           (Config.JString "migrations") (Config.JString "old")) false
  ∧ Config.loadConfig sampleProtocol (sampleEnv "https://cloud.example/v1")
      (Config.Parsed Config.JNull)
    = Config.Returned
        (Config.mkAppConfig "https://cloud.example/v1" "project" "key"
           (Config.JString "migrations") (Config.JString "system")) true.
Proof. by vm_compute. Qed.

Lemma trimStart_head s :
  match Js.trimStart s with
  | String c _ => Js.isWhiteSpace c = false
  | EmptyString => True
  end.
Proof.
  induction s as [|c r IH]; [done|]. cbn [Js.trimStart].
  by destruct (Js.isWhiteSpace c) eqn:Hc.
Qed.

Lemma trimEnd_idempotent s : Js.trimEnd (Js.trimEnd s) = Js.trimEnd s.
Proof.
  induction s as [|c r IH]; [done|]. cbn [Js.trimEnd].
  destruct (Js.trimEnd r) as [|c' r'] eqn:Hr.
  - destruct (Js.isWhiteSpace c) eqn:Hc; [done|]. cbn [Js.trimEnd]. by rewrite Hc.
  - cbn [Js.trimEnd]. cbn [Js.trimEnd] in IH. by rewrite IH.
Qed.

Lemma trim_trimmed s : trimmed (Js.trim s).
Proof.
  unfold trimmed, Js.trim. split; [|apply trimEnd_idempotent].
  pose proof (trimStart_head s) as Hhead.
  destruct (Js.trimStart s) as [|c r]; [done|].
  cbn [Js.trimEnd]. destruct (Js.trimEnd r).
  - rewrite Hhead. cbn [Js.trimStart]. by rewrite Hhead.
  - cbn [Js.trimStart]. by rewrite Hhead.
Qed.

Lemma present_Some x s : Config.present x = Some s → x = Some s ∧ s ≠ "".
Proof. destruct x as [[|c r]|]; [done| |done]. by intros [= <-]. Qed.

Lemma readVariable_Some x s :
  Config.readVariable x = Some s → ∃ raw, x = Some raw ∧ s = Js.trim raw.
Proof. destruct x as [raw|]; [|done]. intros [= <-]. by exists raw. Qed.

Lemma truthy_Some v w : Config.truthy v = Some w → Config.truthy (Some w) = Some w.
Proof.
  destruct v as [[| [|] | [| |] | [|] | |]|]; simpl; try done; by intros [= <-].
Qed.

Lemma readFields_truthy v :
  let '(collection, database, _) := Config.readFields v in
  Config.truthy (Some collection) = Some collection
  ∧ Config.truthy (Some database) = Some database.
Proof.
  unfold Config.readFields.
  destruct (Config.get v "collection") as [collection|]; [|done].
  assert (Config.truthy (Some match Config.truthy collection with
                              | Some c => c
                              | None => Config.JString "migrations"
                              end)
          = Some match Config.truthy collection with
                 | Some c => c
                 | None => Config.JString "migrations"
                 end) as Hc.
  { destruct (Config.truthy collection) eqn:H; [by apply truthy_Some in H|done]. }
  destruct (Config.get v "database") as [d|]; [|done].
  destruct (Config.truthy d) eqn:Hd; [by apply truthy_Some in Hd|].
  destruct (Config.get v "databaseId") as [legacy|]; [|done].
  destruct (Config.truthy legacy) eqn:Hl; [by apply truthy_Some in Hl|done].
Qed.

Lemma loadConfig_cases protocol env file :
  (∃ e, Config.loadConfig protocol env file = Config.Thrown e
        ∧ ∀ file', Config.loadConfig protocol env file' = Config.Thrown e)
  ∨ (∃ endpoint projectId apiKey,
       Config.present (Config.readVariable (Config.APPWRITE_ENDPOINT env)) = Some endpoint
       ∧ Config.present (Config.readVariable (Config.APPWRITE_PROJECT_ID env))
         = Some projectId
       ∧ Config.present (Config.readVariable (Config.APPWRITE_API_KEY env)) = Some apiKey
       ∧ Config.checkProtocol protocol endpoint = None
       ∧ ∀ file',
           Config.loadConfig protocol env file'
           = Config.Returned
               (Config.mkAppConfig endpoint projectId apiKey
                  (Config.readConfigFile file').1.1 (Config.readConfigFile file').1.2)
               (Config.readConfigFile file').2).
Proof.
  unfold Config.loadConfig.
  destruct (Config.present (Config.readVariable (Config.APPWRITE_ENDPOINT env)))
    as [endpoint|]; [|left; by eexists].
  destruct (Config.present (Config.readVariable (Config.APPWRITE_PROJECT_ID env)))
    as [projectId|]; [|left; by eexists].
  destruct (Config.present (Config.readVariable (Config.APPWRITE_API_KEY env)))
    as [apiKey|]; [|left; by eexists].
  unfold Config.validateEndpoint.
  destruct (Config.checkProtocol protocol endpoint) as [e|] eqn:Hcheck;
    [left; by eexists|].
  right. exists endpoint, projectId, apiKey. repeat split; [done|].
  intros file'. by destruct (Config.readConfigFile file') as [[c d] w].
Qed.

(** X14: [loadConfig] throws one of two messages, the one about the
    missing variables or the one that quotes the trimmed endpoint as not
    a valid URL; the message about the protocol, thrown inside the [try]
    of the URL check, never leaves the function. *)
Theorem loadConfig_error_messages protocol env file e
    (Hthrown : Config.loadConfig protocol env file = Config.Thrown e) :
  (message e = Config.missingVariables
   ∨ ∃ raw, Config.APPWRITE_ENDPOINT env = Some raw
            ∧ message e = Config.invalidUrl (Js.trim raw))
  ∧ message e ≠ Config.protocolMessage.
Proof.
  assert (message e = Config.missingVariables
          ∨ ∃ raw, Config.APPWRITE_ENDPOINT env = Some raw
                   ∧ message e = Config.invalidUrl (Js.trim raw)) as Hcases.
  { unfold Config.loadConfig in Hthrown.
    destruct (Config.present (Config.readVariable (Config.APPWRITE_ENDPOINT env)))
      as [endpoint|] eqn:He; [|left; by injection Hthrown as <-].
    destruct (Config.present (Config.readVariable (Config.APPWRITE_PROJECT_ID env)));
      [|left; by injection Hthrown as <-].
    destruct (Config.present (Config.readVariable (Config.APPWRITE_API_KEY env)));
      [|left; by injection Hthrown as <-].
    unfold Config.validateEndpoint in Hthrown.
    destruct (Config.checkProtocol protocol endpoint).
    - right. injection Hthrown as <-.
      apply present_Some in He as [(raw & Hraw & ->)%readVariable_Some _].
      by exists raw.
    - by destruct (Config.readConfigFile file) as [[c d] w]. }
  split; [done|].
  destruct Hcases as [->|(raw & _ & ->)]; discriminate.
Qed.

Lemma loadConfig_error_messages_witness :
  (Config.invalidUrl "ftp://host" = Config.missingVariables
   ∨ ∃ raw, Some " ftp://host " = Some raw
            ∧ Config.invalidUrl "ftp://host" = Config.invalidUrl (Js.trim raw))
  ∧ Config.invalidUrl "ftp://host" ≠ Config.protocolMessage.
Proof.
  apply (loadConfig_error_messages sampleProtocol (sampleEnv " ftp://host ")
           Config.Missing (mkExn None (Config.invalidUrl "ftp://host"))).
  reflexivity.
Defined.

(** X15: the config file has no part in whether [loadConfig] throws, in
    what it throws, or in the credentials it returns: two calls in the
    same environment, with whatever config files, throw the same error
    or return the same endpoint, project id and API key. *)
Theorem config_file_leaves_credentials protocol env file file' :
  sameCredentials (Config.loadConfig protocol env file)
                  (Config.loadConfig protocol env file').
Proof.
  destruct (loadConfig_cases protocol env file)
    as [(e & _ & He)|(endpoint & projectId & apiKey & _ & _ & _ & _ & Hr)].
  - by rewrite (He file), (He file').
  - by rewrite (Hr file), (Hr file').
Qed.

(** X16: a configuration that [loadConfig] returns is complete: its
    endpoint, project id and API key are the variables of the
    environment with the white space at both ends removed, none is
    empty, the URL parser gives the endpoint the protocol [http:] or
    [https:], and the collection and database ids are truthy, whatever
    the config file holds. *)
Theorem loaded_config_is_complete protocol env file config warned
    (Hreturned : Config.loadConfig protocol env file = Config.Returned config warned) :
  (∃ e p k,
     env = Config.mkEnv (Some e) (Some p) (Some k)
     ∧ Config.endpoint config = Js.trim e
     ∧ Config.projectId config = Js.trim p
     ∧ Config.apiKey config = Js.trim k)
  ∧ (trimmed (Config.endpoint config) ∧ Config.endpoint config ≠ "")
  ∧ (trimmed (Config.projectId config) ∧ Config.projectId config ≠ "")
  ∧ (trimmed (Config.apiKey config) ∧ Config.apiKey config ≠ "")
  ∧ (protocol (Config.endpoint config) = Some "http:"
     ∨ protocol (Config.endpoint config) = Some "https:")
  ∧ Config.truthy (Some (Config.migrationCollectionId config))
    = Some (Config.migrationCollectionId config)
  ∧ Config.truthy (Some (Config.database config)) = Some (Config.database config).
Proof.
  destruct (loadConfig_cases protocol env file)
    as [(e & He & _)|(endpoint & projectId & apiKey & H1 & H2 & H3 & Hcheck & Hr)].
  { by rewrite He in Hreturned. }
  rewrite (Hr file) in Hreturned. injection Hreturned as <- <-. cbn.
  apply present_Some in H1 as [(e & He & ->)%readVariable_Some Hne1].
  apply present_Some in H2 as [(p & Hp & ->)%readVariable_Some Hne2].
  apply present_Some in H3 as [(k & Hk & ->)%readVariable_Some Hne3].
  split.
  { exists e, p, k. destruct env as [a b c]. cbn in He, Hp, Hk. by subst. }
  repeat split; try done; try apply trim_trimmed.
  - unfold Config.checkProtocol in Hcheck.
    destruct (protocol (Js.trim e)) as [pr|]; [|done].
    destruct (String.eqb pr "http:") eqn:E1;
      [apply String.eqb_eq in E1; left; by subst|].
    destruct (String.eqb pr "https:") eqn:E2;
      [apply String.eqb_eq in E2; right; by subst|done].
  - destruct file as [| |v]; [done..|]. cbn [Config.readConfigFile].
    pose proof (readFields_truthy v) as H.
    destruct (Config.readFields v) as [[c d] w]. by destruct H.
  - destruct file as [| |v]; [done..|]. cbn [Config.readConfigFile].
    pose proof (readFields_truthy v) as H.
    destruct (Config.readFields v) as [[c d] w]. by destruct H.
Qed.

Lemma loaded_config_is_complete_witness :
  Config.loadConfig sampleProtocol (sampleEnv " https://cloud.example/v1 ") sampleConfigFile
  = Config.Returned
      (Config.mkAppConfig "https://cloud.example/v1" "project" "key"
         (Config.JString "migrations") (Config.JString "tracking")) false
  ∧ trimmed "https://cloud.example/v1".
Proof.
  split; [reflexivity|].
  apply (loaded_config_is_complete sampleProtocol (sampleEnv " https://cloud.example/v1 ")
           sampleConfigFile
           (Config.mkAppConfig "https://cloud.example/v1" "project" "key"
              (Config.JString "migrations") (Config.JString "tracking")) false).
  reflexivity.
Defined.
(** * Further properties: the Mermaid diagram *)

(** ** The sanitizer *)

Example sanitizeMermaid_sample :
  Diagram.sanitizeMermaid ("a{b}" ++ String "010" (String "013" "c`d"))%string = "ab c'd".
Proof. reflexivity. Qed.

Lemma noneOf_orb p q s : noneOf (fun c => p c || q c) s = noneOf p s && noneOf q s.
Proof.
  induction s as [|c r IH]; [done|]. cbn [noneOf]. rewrite IH.
  destruct (p c), (q c), (noneOf p r), (noneOf q r); done.
Qed.

Lemma noneOf_replaceNewlines b s :
  noneOf Diagram.isNewline (Diagram.replaceNewlines b s) = true.
Proof.
  revert b. induction s as [|c r IH]; intros b; [done|]. cbn [Diagram.replaceNewlines].
  destruct (Diagram.isNewline c) eqn:Hc.
  - destruct b; [apply IH|]. cbn [noneOf]. by rewrite IH.
  - cbn [noneOf]. by rewrite Hc, IH.
Qed.

Lemma noneOf_removeBraces_keeps p s :
  noneOf p s = true → noneOf p (Diagram.removeBraces s) = true.
Proof.
  induction s as [|c r IH]; [done|]. cbn [noneOf Diagram.removeBraces].
  intros [Hc Hr]%andb_true_iff. destruct (Diagram.isBrace c); [by apply IH|].
  cbn [noneOf]. by rewrite Hc, IH.
Qed.

Lemma noneOf_removeBraces s : noneOf Diagram.isBrace (Diagram.removeBraces s) = true.
Proof.
  induction s as [|c r IH]; [done|]. cbn [Diagram.removeBraces].
  destruct (Diagram.isBrace c) eqn:Hc; [done|]. cbn [noneOf]. by rewrite Hc, IH.
Qed.

Lemma noneOf_replaceChar_keeps p x y s :
  p y = false → noneOf p s = true → noneOf p (Diagram.replaceChar x y s) = true.
Proof.
  intros Hy. induction s as [|c r IH]; [done|]. cbn [noneOf Diagram.replaceChar].
  intros [Hc Hr]%andb_true_iff. rewrite IH by done.
  destruct (Ascii.eqb c x); [by rewrite Hy|by rewrite Hc].
Qed.

Lemma noneOf_replaceChar x y s :
  Ascii.eqb y x = false →
  noneOf (fun c => Ascii.eqb c x) (Diagram.replaceChar x y s) = true.
Proof.
  intros Hy. induction s as [|c r IH]; [done|]. cbn [noneOf Diagram.replaceChar].
  rewrite IH. destruct (Ascii.eqb c x) eqn:Hc; [by rewrite Hy|by rewrite Hc].
Qed.

Lemma mermaidSafe_parts s :
  mermaidSafe s = true ↔
  noneOf Diagram.isNewline s = true ∧ noneOf Diagram.isBrace s = true
  ∧ noneOf (fun c => Ascii.eqb c "034") s = true
  ∧ noneOf (fun c => Ascii.eqb c "`") s = true.
Proof.
  unfold mermaidSafe, unsafeChar. rewrite !noneOf_orb, !andb_true_iff. tauto.
Qed.

Lemma replaceNewlines_id b s :
  noneOf Diagram.isNewline s = true → Diagram.replaceNewlines b s = s.
Proof.
  revert b. induction s as [|c r IH]; intros b; [done|].
  cbn [noneOf Diagram.replaceNewlines]. intros [Hc Hr]%andb_true_iff.
  destruct (Diagram.isNewline c); [done|]. by rewrite IH.
Qed.

Lemma removeBraces_id s : noneOf Diagram.isBrace s = true → Diagram.removeBraces s = s.
Proof.
  induction s as [|c r IH]; [done|].
  cbn [noneOf Diagram.removeBraces]. intros [Hc Hr]%andb_true_iff.
  destruct (Diagram.isBrace c); [done|]. by rewrite IH.
Qed.

Lemma replaceChar_id x y s :
  noneOf (fun c => Ascii.eqb c x) s = true → Diagram.replaceChar x y s = s.
Proof.
  induction s as [|c r IH]; [done|].
  cbn [noneOf Diagram.replaceChar]. intros [Hc Hr]%andb_true_iff.
  destruct (Ascii.eqb c x); [done|]. by rewrite IH.
Qed.

Lemma sanitizeMermaid_mermaidSafe value :
  mermaidSafe (Diagram.sanitizeMermaid value) = true.
Proof.
  apply mermaidSafe_parts. unfold Diagram.sanitizeMermaid. repeat split.
  - do 2 (apply noneOf_replaceChar_keeps; [done|]).
    apply noneOf_removeBraces_keeps, noneOf_replaceNewlines.
  - do 2 (apply noneOf_replaceChar_keeps; [done|]). apply noneOf_removeBraces.
  - apply noneOf_replaceChar_keeps; [done|]. by apply noneOf_replaceChar.
  - by apply noneOf_replaceChar.
Qed.

Lemma sanitizeMermaid_id value :
  mermaidSafe value = true → Diagram.sanitizeMermaid value = value.
Proof.
  intros (H1 & H2 & H3 & H4)%mermaidSafe_parts. unfold Diagram.sanitizeMermaid.
  by rewrite (replaceNewlines_id _ _ H1), (removeBraces_id _ H2),
    (replaceChar_id _ _ _ H3), (replaceChar_id _ _ _ H4).
Qed.

(** X17: whatever the value, the sanitized text holds no line break, no
    brace, no double quote and no backtick. *)
Theorem sanitized_text_is_safe value :
  mermaidSafe (Diagram.sanitizeMermaid value) = true.
Proof. apply sanitizeMermaid_mermaidSafe. Qed.

(** X18: the sanitizer changes a value exactly when the value holds one
    of the characters it is there to keep out; so sanitizing twice is
    sanitizing once. *)
Theorem sanitizer_fixed_points value :
  (Diagram.sanitizeMermaid value = value ↔ mermaidSafe value = true)
  ∧ Diagram.sanitizeMermaid (Diagram.sanitizeMermaid value)
    = Diagram.sanitizeMermaid value.
Proof.
  split; [split|].
  - intros <-. apply sanitizeMermaid_mermaidSafe.
  - apply sanitizeMermaid_id.
  - apply sanitizeMermaid_id, sanitizeMermaid_mermaidSafe.
Qed.

(** ** Column types *)

(** X19: for a column whose type is not a name that objects inherit,
    [mapColumnType] never gives one of the three words that it is there
    to replace. *)
Theorem column_type_avoids_reserved_words inheritedText col
    (Hown : Js.isInherited (Diagram.type col) = false) :
  Diagram.mapColumnType inheritedText col ∉ ["text"; "point"; "polygon"].
Proof.
  unfold Diagram.mapColumnType, Diagram.lookupText. rewrite Hown.
  destruct (String.eqb (Diagram.type col) "string"
            && bool_decide (Diagram.format col = Some "enum"));
    [apply (bool_decide_unpack _); by vm_compute|].
  destruct (String.eqb_spec (Diagram.type col) "relationship") as [_|_];
    [apply (bool_decide_unpack _); by vm_compute|].
  cbn [Js.ownProperty].
  destruct (String.eqb_spec (Diagram.type col) "text") as [_|H1];
    [apply (bool_decide_unpack _); by vm_compute|].
  destruct (String.eqb_spec (Diagram.type col) "point") as [_|H2];
    [apply (bool_decide_unpack _); by vm_compute|].
  destruct (String.eqb_spec (Diagram.type col) "polygon") as [_|H3];
    [apply (bool_decide_unpack _); by vm_compute|].
  rewrite !not_elem_of_cons. repeat split; [done..|apply not_elem_of_nil].
Qed.

Lemma column_type_avoids_reserved_words_witness :
  Diagram.mapColumnType (fun _ => "[object Object]")
    (Diagram.mkColumn "bio" "text" None true None None None)
  ∉ ["text"; "point"; "polygon"].
Proof. apply column_type_avoids_reserved_words. reflexivity. Defined.

(** ** Relationships *)

(** Two tables that each declare the relationship to the other: after
    the two opening lines, an entity block of four lines and one of
    three, and one relationship. *)
Example mutualTables_built :
  length (Diagram.lines (Diagram.built (fun _ => EmptyString) mutualTables)) = 9%nat
  ∧ length (Diagram.relationships (Diagram.built (fun _ => EmptyString) mutualTables))
    = 1%nat.
Proof. by vm_compute. Qed.

Lemma pairKey_symmetric a b : Diagram.pairKey a b = Diagram.pairKey b a.
Proof.
  unfold Diagram.pairKey, String.ltb. rewrite (String.compare_antisym a b).
  destruct (String.compare b a) eqn:Hba; simpl; [|done..].
  by apply String.compare_eq_iff in Hba as ->.
Qed.

Section Relationships.
Variable inheritedText : string → string.

Lemma onePerPair_pushLine line st met :
  onePerPair st met → onePerPair (Diagram.pushLine line st) met.
Proof. done. Qed.

Lemma onePerPair_addColumn entityName st met col :
  onePerPair st met →
  onePerPair (Diagram.addColumn inheritedText entityName st col)
             (met ++ pairsOfColumn entityName col).
Proof.
  intros [Hset Hlen]. unfold Diagram.addColumn, pairsOfColumn.
  destruct (String.eqb (Diagram.type col) "relationship").
  2: { rewrite app_nil_r. by apply onePerPair_pushLine. }
  destruct (bool_decide (Diagram.side col = Some "parent"));
    [|by rewrite app_nil_r].
  destruct (Diagram.nonEmpty (Diagram.relatedTable col)) as [related|];
    [|by rewrite app_nil_r].
  set (k := Diagram.pairKey entityName (Diagram.sanitizeMermaid related)).
  destruct (decide (k ∈ Diagram.renderedPairs st)) as [Hin|Hnotin].
  - rewrite (bool_decide_eq_true_2 _ Hin). split; [|done].
    rewrite list_to_set_app_L, <- Hset. simpl.
    rewrite union_empty_r_L, union_comm_L. symmetry.
    by apply subseteq_union_1_L, singleton_subseteq_l.
  - rewrite (bool_decide_eq_false_2 _ Hnotin). split; cbn.
    + rewrite list_to_set_app_L, <- Hset. simpl.
      by rewrite union_empty_r_L, union_comm_L.
    + rewrite length_app, size_union, size_singleton
        by (by apply disjoint_singleton_l).
      simpl. lia.
Qed.

Lemma onePerPair_columns entityName cols st met :
  onePerPair st met →
  onePerPair (fold_left (Diagram.addColumn inheritedText entityName) cols st)
             (met ++ flat_map (pairsOfColumn entityName) cols).
Proof.
  revert st met. induction cols as [|col cols IH]; intros st met Hinv; simpl.
  - by rewrite app_nil_r.
  - rewrite app_assoc. by apply IH, onePerPair_addColumn.
Qed.

Lemma onePerPair_addTable st met table :
  onePerPair st met →
  onePerPair (Diagram.addTable inheritedText st table) (met ++ pairsOfTable table).
Proof.
  intros Hinv. unfold Diagram.addTable, pairsOfTable.
  by apply onePerPair_pushLine, onePerPair_columns, onePerPair_pushLine,
    onePerPair_pushLine.
Qed.

Lemma onePerPair_tables tables st met :
  onePerPair st met →
  onePerPair (fold_left (Diagram.addTable inheritedText) tables st)
             (met ++ parentPairs tables).
Proof.
  revert st met. induction tables as [|table tables IH]; intros st met Hinv; simpl.
  - by rewrite app_nil_r.
  - rewrite app_assoc. by apply IH, onePerPair_addTable.
Qed.
End Relationships.

(** X20: the diagram has exactly one relationship line for each pair
    key among the relationship columns declared from the parent side, and
    the pair key of two tables does not depend on which of the two
    declares the relationship: a relationship declared from both ends is
    drawn once. *)
Theorem one_relationship_line_per_pair inheritedText tables :
  length (Diagram.relationships (Diagram.built inheritedText tables))
  = size (list_to_set (parentPairs tables) : gset string)
  ∧ ∀ a b, Diagram.pairKey a b = Diagram.pairKey b a.
Proof.
  split; [|apply pairKey_symmetric].
  destruct (onePerPair_tables inheritedText tables
              (Diagram.mkBuilding ["```mermaid"; "erDiagram"] [] ∅) [])
    as [Hset Hlen]; [done|].
  unfold Diagram.built. by rewrite Hlen, Hset.
Qed.
(** * Further properties: the security ledger *)

Lemma exceptionsOf_setExceptions ledger type value type' :
  Security.exceptionsOf (Security.setExceptions ledger type value) type'
  = if decide (type' = type) then Some value else Security.exceptionsOf ledger type'.
Proof. by destruct type, type'. Qed.

Lemma property_insert {V} (object : gmap string V) k v k' :
  Security.property (<[k := v]> object) k'
  = if decide (k' = k) then Security.Own v else Security.property object k'.
Proof.
  unfold Security.property. destruct (decide (k' = k)) as [->|Hne].
  - by rewrite lookup_insert_eq.
  - by rewrite lookup_insert_ne.
Qed.

Lemma getExceptions_missing ledger type id :
  Js.isInherited id = false →
  Security.getExceptions ledger type id
  = Some (default [] (default ∅ (Security.exceptionsOf ledger type) !! id)).
Proof.
  intros Hid. unfold Security.getExceptions, Security.property.
  destruct (Security.exceptionsOf ledger type) as [object|]; simpl.
  - destruct (object !! id); [done|]. by rewrite Hid.
  - done.
Qed.

(** X21: when [exceptions add] does not throw, the ledger it saves has
    the new entry, with the rule and the justification trimmed, at the
    end of the exceptions of the resource; the exceptions of every other
    resource whose id is not an inherited name, and the rules, are as
    before. *)
Theorem added_exception_is_appended ledger answers author today ledger'
    (Hadd : Security.addException ledger answers author today = Some ledger') :
  let type := Security.exceptionsKey (Security.resourceType answers) in
  let id := Security.resourceId answers in
  (∃ before,
     Security.getExceptions ledger type id = Some before
     ∧ Security.getExceptions ledger' type id
       = Some (before ++ [entryOf answers author today]))
  ∧ (∀ type' id', (type', id') ≠ (type, id) → Js.isInherited id' = false →
       Security.getExceptions ledger' type' id' = Security.getExceptions ledger type' id')
  ∧ Security.rules ledger' = Security.rules ledger.
Proof.
  cbv zeta. unfold Security.addException in Hadd. fold (entryOf answers author today) in Hadd.
  set (type := Security.exceptionsKey (Security.resourceType answers)) in *.
  set (id := Security.resourceId answers) in *.
  set (entry := entryOf answers author today) in *.
  set (bucket := default ∅ (Security.exceptionsOf ledger type)) in *.
  assert (∃ before,
            Security.getExceptions ledger type id = Some before
            ∧ ledger' = Security.setExceptions ledger type
                          (<[id := before ++ [entry]]> bucket)) as (before & Hbefore & ->).
  { unfold Security.getExceptions. subst bucket.
    destruct (Security.exceptionsOf ledger type) as [object|]; simpl in *.
    - destruct (Security.property object id) as [l| |]; [|done|].
      + exists l. split; [done|]. by injection Hadd.
      + exists []. split; [done|]. by injection Hadd.
    - unfold Security.property in Hadd. rewrite lookup_empty in Hadd.
      destruct (Js.isInherited id); [done|].
      exists []. split; [done|]. by injection Hadd. }
  repeat split.
  - exists before. split; [done|]. unfold Security.getExceptions.
    rewrite exceptionsOf_setExceptions, decide_True, property_insert, decide_True; done.
  - intros type' id' Hne Hid'. rewrite !getExceptions_missing by done.
    rewrite exceptionsOf_setExceptions.
    destruct (decide (type' = type)) as [->|]; [|done]. simpl. fold bucket.
    rewrite lookup_insert_ne; [done|]. intros <-. by apply Hne.
  - by destruct type.
Qed.

Lemma added_exception_is_appended_witness :
  Security.getExceptions
    (Security.mkSecurityLedger (Some Security.DEFAULT_RULES)
       (Some (<["users" := [Security.mkSecurityException "forbid-role-all-read"
                              "public profile" "ana" "2025-01-10";
                            Security.mkSecurityException "forbid-role-all-write"
                              "wiki pages" "bo" "2025-02-01"]]>
              {["users" := [Security.mkSecurityException "forbid-role-all-read"
                              "public profile" "ana" "2025-01-10"]]}))
       None)
    Security.Collections "users"
  = Some ([Security.mkSecurityException "forbid-role-all-read"
             "public profile" "ana" "2025-01-10"]
          ++ [entryOf (sampleAnswers "users") "bo" "2025-02-01"]).
Proof.
  destruct (added_exception_is_appended sampleLedger (sampleAnswers "users") "bo"
              "2025-02-01" _ eq_refl) as [(before & Hbefore & Hafter) _].
  injection Hbefore as <-. exact Hafter.
Defined.

(** X22: [exceptions add] throws, before anything is saved, exactly when
    the resource id is a name that objects inherit and the ledger has no
    exceptions under it. *)
Theorem add_throws_on_inherited_names ledger answers author today :
  let type := Security.exceptionsKey (Security.resourceType answers) in
  let id := Security.resourceId answers in
  Security.addException ledger answers author today = None
  ↔ Js.isInherited id = true
    ∧ default ∅ (Security.exceptionsOf ledger type) !! id = None.
Proof.
  cbv zeta. unfold Security.addException, Security.property.
  destruct (default ∅ (Security.exceptionsOf ledger _) !! Security.resourceId answers)
    as [l|].
  - split; [done|]. by intros [_ ?].
  - destruct (Js.isInherited (Security.resourceId answers)); split; try done.
    by intros [? _].
Qed.

Example add_throws_on_constructor :
  Security.addException sampleLedger (sampleAnswers "constructor") "bo" "2025-02-01"
  = None.
Proof. reflexivity. Qed.
